(** * Reviewero: resolution-and-review pipeline

    A shallow embedding of the TypeScript services of the addon
    (metadataService, geminiService, loggingService, apiKeyService), of
    the useApiKeys hook, of the handlers of the configuration page (save,
    export and import of the keys), of the Stremio stream handler and of
    the handlers of the test ground, together with the properties its
    specification states about them and further properties that the
    code has.

    JavaScript strings are sequences of UTF-16 code units; they are kept
    as [list N].  Promises are modelled by their outcome: a fulfilled
    promise is [Ok v], a rejected one [Throw e]. *)

From Stdlib Require Import ZArith List String Ascii Bool Lia.
From Stdlib Require Import Numbers.DecimalString Numbers.HexadecimalString.
From stdpp Require Import gmap list.
Import ListNotations.

Set Warnings "-register-all".
Open Scope Z_scope.

(** ** The JavaScript built-ins the services rely on *)

Module Js.

(** A string is the list of its UTF-16 code units. *)
Abbreviation jsstring := (list N).

(** A string literal of the source; every character of the literals used
    below is ASCII, so one byte is one code unit. *)
Definition js (s : string) : jsstring :=
  List.map N_of_ascii (list_ascii_of_string s).

(** The source's literals contain double quotes; [q] writes them with an
    apostrophe instead: every code unit 39 of its argument becomes 34. *)
Definition q (s : string) : jsstring :=
  List.map (fun c => if N.eqb c 39 then 34%N else c) (js s).

Definition jsstring_eqb (a b : jsstring) : bool :=
  if decide (a = b) then true else false.

(** [s.startsWith(p)] *)
Fixpoint startsWith (p s : jsstring) : bool :=
  match p, s with
  | [], _ => true
  | _ :: _, [] => false
  | a :: p', b :: s' => N.eqb a b && startsWith p' s'
  end.

(** [s.indexOf(p)] (search from position 0); -1 when [p] does not occur. *)
Fixpoint indexOf_from (p s : jsstring) (i : Z) : Z :=
  if startsWith p s then i
  else match s with
       | [] => -1
       | _ :: s' => indexOf_from p s' (i + 1)
       end.

Definition indexOf (p s : jsstring) : Z := indexOf_from p s 0.

(** [s.lastIndexOf(p)]: the greatest position at which [p] occurs, or -1. *)
Fixpoint lastIndexOf_from (p s : jsstring) (i : Z) (found : Z) : Z :=
  let found' := if startsWith p s then i else found in
  match s with
  | [] => found'
  | _ :: s' => lastIndexOf_from p s' (i + 1) found'
  end.

Definition lastIndexOf (p s : jsstring) : Z := lastIndexOf_from p s 0 (-1).

(** [s.includes(p)] *)
Definition includes (p s : jsstring) : bool := 0 <=? indexOf p s.

(** [s.substring(a, b)]: both indices are clamped to [0, length] and
    swapped when [a > b]. *)
Definition clamp (len x : Z) : Z := Z.min (Z.max x 0) len.

Definition substring (s : jsstring) (a b : Z) : jsstring :=
  let len := Z.of_nat (length s) in
  let a' := clamp len a in
  let b' := clamp len b in
  let lo := Z.min a' b' in
  let hi := Z.max a' b' in
  firstn (Z.to_nat (hi - lo)) (skipn (Z.to_nat lo) s).

(** WhiteSpace and LineTerminator code units of ECMAScript, the ones
    [trim] strips and [parseInt] skips. *)
Definition is_js_space (c : N) : bool :=
  existsb (N.eqb c)
    [9; 10; 11; 12; 13; 32; 160; 5760; 8232; 8233; 8239; 8287; 12288; 65279]%N
  || (8192 <=? c)%N && (c <=? 8202)%N.

Fixpoint trimStart (s : jsstring) : jsstring :=
  match s with
  | c :: s' => if is_js_space c then trimStart s' else s
  | [] => []
  end.

Definition trimEnd (s : jsstring) : jsstring := rev (trimStart (rev s)).

Definition trim (s : jsstring) : jsstring := trimEnd (trimStart s).

(** [s.toLowerCase()].  The ASCII letters are mapped exactly, and so are
    the two code units outside ASCII whose lower case contains an ASCII
    letter (U+0130 and the Kelvin sign U+212A); any other code unit is
    kept, which differs from Unicode's mapping only on non-ASCII letters.
    The services only search lower-cased text for ASCII words. *)
Definition lower_unit (c : N) : jsstring :=
  if (65 <=? c)%N && (c <=? 90)%N then [(c + 32)%N]
  else if N.eqb c 304 then [105; 775]%N
  else if N.eqb c 8490 then [107]%N
  else [c].

Definition toLowerCase (s : jsstring) : jsstring := flat_map lower_unit s.

(** [s.split(sep)[0]] for a one-unit separator: the text before the first
    separator (the whole string when there is none). *)
Fixpoint split_head (sep : N) (s : jsstring) : jsstring :=
  match s with
  | [] => []
  | c :: s' => if N.eqb c sep then [] else c :: split_head sep s'
  end.

(** [a.join(sep)] on an array of strings. *)
Fixpoint join (sep : jsstring) (l : list jsstring) : jsstring :=
  match l with
  | [] => []
  | [x] => x
  | x :: l' => x ++ sep ++ join sep l'
  end.

(** [String(n)] for an integral number. *)
Definition Z_to_js (z : Z) : jsstring :=
  js (DecimalString.NilZero.string_of_int (Z.to_int z)).

(** [n.toString(16)] for an integral number: lower-case digits, and a
    minus sign in front of the digits of a negative number. *)
Definition Z_to_hex (z : Z) : jsstring :=
  js (HexadecimalString.NilZero.string_of_int (Z.to_hex_int z)).

(** [x | 0]: ToInt32, the integer taken modulo 2^32 into the signed
    range. *)
Definition to_int32 (z : Z) : Z := (z + 2147483648) mod 4294967296 - 2147483648.

(** [s.padStart(n, c)] with a one-unit filler, and [s.slice(0, n)] for
    [n >= 0]. *)
Definition padStart (n : nat) (c : N) (s : jsstring) : jsstring :=
  repeat c (n - length s) ++ s.

Definition slice0 (n : nat) (s : jsstring) : jsstring := firstn n s.

(** Surrogate code units, and the iteration of a string by code points
    ([Array.from(s)]): a high surrogate followed by a low one is one
    element.  [code_point_heads] lists [ch.charCodeAt(0)] for each element
    [ch]. *)
Definition is_high_surrogate (c : N) : bool := (55296 <=? c)%N && (c <=? 56319)%N.
Definition is_low_surrogate (c : N) : bool := (56320 <=? c)%N && (c <=? 57343)%N.

Fixpoint code_point_heads (s : jsstring) : list N :=
  match s with
  | [] => []
  | c :: s' =>
      c :: match s' with
           | d :: s'' =>
               if is_high_surrogate c && is_low_surrogate d
               then code_point_heads s''
               else code_point_heads s'
           | [] => []
           end
  end.

(** *** Values

    The values that reach the services: what [JSON.parse] builds, and
    [undefined].  A number is NaN, an integer, or a decimal literal with a
    fraction or an exponent, kept as its text: it stands for the number
    nearest to the literal's value (no arithmetic is done on such numbers
    here).  An object lists its own properties in source order. *)
Inductive number :=
| NaN
| Int (z : Z)
| Lit (lexeme : jsstring).

Inductive value :=
| VUndefined
| VNull
| VBool (b : bool)
| VNum (n : number)
| VStr (s : jsstring)
| VArr (l : list value)
| VObj (m : list (jsstring * value)).

(** [typeof v === 'string'] *)
Definition is_string (v : value) : bool :=
  match v with VStr _ => true | _ => false end.

Definition is_digit (c : N) : bool := (48 <=? c)%N && (c <=? 57)%N.

(** The value of a run of decimal digits. *)
Definition digits_value (s : jsstring) : Z :=
  fold_left (fun acc c => acc * 10 + (Z.of_N c - 48)) s 0.

(** The number nearest to an integer.  Up to 2^53 it is the integer.
    Beyond, the integer is rounded to 53 significant bits, to the nearest
    and, half way, to the even one; from 2^1024 - 2^970 on the result is
    Infinity, kept here as a literal that stands for it. *)
Definition round_double (z : Z) : number :=
  let a := Z.abs z in
  if a <? 2 ^ 53 then Int z
  else
    let shift := Z.log2 a - 52 in
    let q := a / 2 ^ shift in
    let r := a mod 2 ^ shift in
    let half := 2 ^ (shift - 1) in
    let q' := if (half <? r) || ((r =? half) && Z.odd q) then q + 1 else q in
    let m := q' * 2 ^ shift in
    if 2 ^ 1024 <=? m
    then Lit (if z <? 0 then js "-1e999" else js "1e999")
    else Int (Z.sgn z * m).

(** The longest run of decimal digits at the head of a text, and what
    follows it. *)
Fixpoint span_digits (s : jsstring) : jsstring * jsstring :=
  match s with
  | c :: s' =>
      if is_digit c then
        let '(d, r) := span_digits s' in (c :: d, r)
      else ([], s)
  | [] => ([], [])
  end.

(** An unsigned decimal literal: digits, optionally a point and digits,
    with at least one digit in all, and optionally an exponent.  The
    result is the pair [(m, k)] of the literal's value [m * 10^k]. *)
Definition decimal_literal (s : jsstring) : option (Z * Z) :=
  let '(ip, r1) := span_digits s in
  let '(fp, r2) :=
    match r1 with
    | 46%N :: r => span_digits r
    | _ => ([], r1)
    end in
  match ip, fp with
  | [], [] => None
  | _, _ =>
      let m := digits_value (ip ++ fp) in
      let k := - Z.of_nat (length fp) in
      match r2 with
      | [] => Some (m, k)
      | c :: r =>
          if N.eqb c 101 || N.eqb c 69 then
            let '(sign, r') :=
              match r with
              | 43%N :: x => (1, x)
              | 45%N :: x => (-1, x)
              | _ => (1, r)
              end in
            match span_digits r' with
            | (e :: ed, []) => Some (m, k + sign * digits_value (e :: ed))
            | _ => None
            end
          else None
      end
  end.

(** The number nearest to [m * 10^k] is greater than zero: the value is
    above 2^-1075, half of the least positive number (a value up to that
    half is rounded to zero). *)
Definition rounds_above_zero (m k : Z) : bool :=
  if 0 <=? k then 0 <? m else 10 ^ (- k) <? m * 2 ^ 1075.

Definition literal_positive (s : jsstring) : bool :=
  match decimal_literal s with
  | Some (m, k) => rounds_above_zero m k
  | None => false
  end.

(** ToBoolean.  A literal with a fraction or exponent is zero when the
    number nearest to its value is: when its magnitude is at most
    2^-1075. *)
Definition number_truthy (n : number) : bool :=
  match n with
  | NaN => false
  | Int z => negb (z =? 0)
  | Lit (45%N :: lx) => literal_positive lx
  | Lit lx => literal_positive lx
  end.

Definition truthy (v : value) : bool :=
  match v with
  | VUndefined | VNull => false
  | VBool b => b
  | VNum n => number_truthy n
  | VStr s => match s with [] => false | _ => true end
  | VArr _ | VObj _ => true
  end.

(** *** JSON.parse

    The JSON grammar of ECMA-404, as [JSON.parse] accepts it: a scanner
    that reads one code unit at a time, then a pushdown recogniser over
    the tokens.  Both recurse on their input only. *)
Inductive token :=
| TLBracket | TRBracket | TLBrace | TRBrace | TComma | TColon
| TStr (s : jsstring)
| TNum (n : number)
| TTrue | TFalse | TNull.

Inductive lex_state :=
| LDefault
| LStr (acc : jsstring)
| LEsc (acc : jsstring)
| LUni (acc : jsstring) (digits : list N)
| LNum (acc : jsstring)
| LWord (acc : jsstring).

(** The shape of a JSON number: an optional minus sign; then 0, or a
    digit 1-9 followed by digits; then optionally a point and one or more
    digits; then optionally e or E, an optional sign and one or more
    digits. *)
Inductive num_state :=
| NStart | NMinus | NZero | NInt | NDot | NFrac | NExp | NExpSign | NExpDigits.

Definition num_step (st : num_state) (c : N) : option num_state :=
  match st with
  | NStart =>
      if N.eqb c 45 then Some NMinus
      else if N.eqb c 48 then Some NZero
      else if is_digit c then Some NInt else None
  | NMinus =>
      if N.eqb c 48 then Some NZero
      else if is_digit c then Some NInt else None
  | NZero =>
      if N.eqb c 46 then Some NDot
      else if N.eqb c 101 || N.eqb c 69 then Some NExp else None
  | NInt =>
      if is_digit c then Some NInt
      else if N.eqb c 46 then Some NDot
      else if N.eqb c 101 || N.eqb c 69 then Some NExp else None
  | NDot => if is_digit c then Some NFrac else None
  | NFrac =>
      if is_digit c then Some NFrac
      else if N.eqb c 101 || N.eqb c 69 then Some NExp else None
  | NExp =>
      if N.eqb c 43 || N.eqb c 45 then Some NExpSign
      else if is_digit c then Some NExpDigits else None
  | NExpSign => if is_digit c then Some NExpDigits else None
  | NExpDigits => if is_digit c then Some NExpDigits else None
  end.

Fixpoint num_run (st : num_state) (s : jsstring) : option num_state :=
  match s with
  | [] => Some st
  | c :: s' => match num_step st c with
               | Some st' => num_run st' s'
               | None => None
               end
  end.

Definition number_of_lexeme (lx : jsstring) : option number :=
  match num_run NStart lx with
  | Some NZero | Some NInt =>
      match lx with
      | 45%N :: ds => Some (round_double (- digits_value ds))
      | _ => Some (round_double (digits_value lx))
      end
  | Some NFrac | Some NExpDigits => Some (Lit lx)
  | _ => None
  end.

Definition literal_of_word (w : jsstring) : option token :=
  if jsstring_eqb w (js "true") then Some TTrue
  else if jsstring_eqb w (js "false") then Some TFalse
  else if jsstring_eqb w (js "null") then Some TNull
  else None.

Definition hex_value (c : N) : option N :=
  if is_digit c then Some (c - 48)%N
  else if (97 <=? c)%N && (c <=? 102)%N then Some (c - 87)%N
  else if (65 <=? c)%N && (c <=? 70)%N then Some (c - 55)%N
  else None.

Definition is_json_space (c : N) : bool :=
  N.eqb c 32 || N.eqb c 9 || N.eqb c 10 || N.eqb c 13.

Definition is_num_unit (c : N) : bool :=
  is_digit c || N.eqb c 45 || N.eqb c 43 || N.eqb c 46
  || N.eqb c 101 || N.eqb c 69.

Definition is_word_unit (c : N) : bool := (97 <=? c)%N && (c <=? 122)%N.

(** A code unit met between tokens. *)
Definition lex_default (toks : list token) (c : N)
  : option (lex_state * list token) :=
  if is_json_space c then Some (LDefault, toks)
  else if N.eqb c 91 then Some (LDefault, TLBracket :: toks)
  else if N.eqb c 93 then Some (LDefault, TRBracket :: toks)
  else if N.eqb c 123 then Some (LDefault, TLBrace :: toks)
  else if N.eqb c 125 then Some (LDefault, TRBrace :: toks)
  else if N.eqb c 44 then Some (LDefault, TComma :: toks)
  else if N.eqb c 58 then Some (LDefault, TColon :: toks)
  else if N.eqb c 34 then Some (LStr [], toks)
  else if is_digit c || N.eqb c 45 then Some (LNum [c], toks)
  else if is_word_unit c then Some (LWord [c], toks)
  else None.

(** The scanner's step; [toks] and the accumulators are kept reversed. *)
Definition lex_step (st : lex_state) (toks : list token) (c : N)
  : option (lex_state * list token) :=
  match st with
  | LDefault => lex_default toks c
  | LStr acc =>
      if N.eqb c 34 then Some (LDefault, TStr (rev acc) :: toks)
      else if N.eqb c 92 then Some (LEsc acc, toks)
      else if (c <? 32)%N then None
      else Some (LStr (c :: acc), toks)
  | LEsc acc =>
      if N.eqb c 34 || N.eqb c 92 || N.eqb c 47 then Some (LStr (c :: acc), toks)
      else if N.eqb c 98 then Some (LStr (8%N :: acc), toks)
      else if N.eqb c 102 then Some (LStr (12%N :: acc), toks)
      else if N.eqb c 110 then Some (LStr (10%N :: acc), toks)
      else if N.eqb c 114 then Some (LStr (13%N :: acc), toks)
      else if N.eqb c 116 then Some (LStr (9%N :: acc), toks)
      else if N.eqb c 117 then Some (LUni acc [], toks)
      else None
  | LUni acc ds =>
      match hex_value c with
      | None => None
      | Some d =>
          match ds with
          | [d2; d1; d0] =>
              Some (LStr ((((d0 * 16 + d1) * 16 + d2) * 16 + d)%N :: acc), toks)
          | _ => Some (LUni acc (d :: ds), toks)
          end
      end
  | LNum acc =>
      if is_num_unit c then Some (LNum (c :: acc), toks)
      else match number_of_lexeme (rev acc) with
           | Some n => lex_default (TNum n :: toks) c
           | None => None
           end
  | LWord acc =>
      if is_word_unit c then Some (LWord (c :: acc), toks)
      else match literal_of_word (rev acc) with
           | Some t => lex_default (t :: toks) c
           | None => None
           end
  end.

Fixpoint lex_run (st : lex_state) (toks : list token) (s : jsstring)
  : option (list token) :=
  match s with
  | [] =>
      match st with
      | LDefault => Some (rev toks)
      | LNum acc =>
          match number_of_lexeme (rev acc) with
          | Some n => Some (rev (TNum n :: toks))
          | None => None
          end
      | LWord acc =>
          match literal_of_word (rev acc) with
          | Some t => Some (rev (t :: toks))
          | None => None
          end
      | LStr _ | LEsc _ | LUni _ _ => None
      end
  | c :: s' =>
      match lex_step st toks c with
      | Some (st', toks') => lex_run st' toks' s'
      | None => None
      end
  end.

Definition lex (s : jsstring) : option (list token) := lex_run LDefault [] s.

(** The recogniser.  A frame is an array or object under construction;
    [FObjK] is an object whose next member has its key read. *)
Inductive frame :=
| FArr (elems : list value)
| FObj (members : list (jsstring * value))
| FObjK (members : list (jsstring * value)) (key : jsstring).

Inductive mode :=
| MValue
| MArrStart
| MObjStart
| MKey
| MColon (key : jsstring)
| MAfter
| MDone (v : value).

(** A complete value goes to the innermost open container, or is the
    result. *)
Definition deliver (v : value) (stack : list frame)
  : option (mode * list frame) :=
  match stack with
  | [] => Some (MDone v, [])
  | FArr acc :: st => Some (MAfter, FArr (v :: acc) :: st)
  | FObjK acc k :: st => Some (MAfter, FObj ((k, v) :: acc) :: st)
  | FObj _ :: _ => None
  end.

Definition expects_value (m : mode) : bool :=
  match m with MValue | MArrStart => true | _ => false end.

Definition parse_step (m : mode) (stack : list frame) (t : token)
  : option (mode * list frame) :=
  match t with
  | TNum n => if expects_value m then deliver (VNum n) stack else None
  | TTrue => if expects_value m then deliver (VBool true) stack else None
  | TFalse => if expects_value m then deliver (VBool false) stack else None
  | TNull => if expects_value m then deliver VNull stack else None
  | TStr s =>
      match m with
      | MValue | MArrStart => deliver (VStr s) stack
      | MObjStart | MKey => Some (MColon s, stack)
      | _ => None
      end
  | TLBracket =>
      if expects_value m then Some (MArrStart, FArr [] :: stack) else None
  | TLBrace =>
      if expects_value m then Some (MObjStart, FObj [] :: stack) else None
  | TRBracket =>
      match m, stack with
      | MArrStart, FArr acc :: st | MAfter, FArr acc :: st =>
          deliver (VArr (rev acc)) st
      | _, _ => None
      end
  | TRBrace =>
      match m, stack with
      | MObjStart, FObj acc :: st | MAfter, FObj acc :: st =>
          deliver (VObj (rev acc)) st
      | _, _ => None
      end
  | TComma =>
      match m, stack with
      | MAfter, FArr _ :: _ => Some (MValue, stack)
      | MAfter, FObj _ :: _ => Some (MKey, stack)
      | _, _ => None
      end
  | TColon =>
      match m, stack with
      | MColon k, FObj acc :: st => Some (MValue, FObjK acc k :: st)
      | _, _ => None
      end
  end.

Fixpoint parse_run (m : mode) (stack : list frame) (ts : list token)
  : option value :=
  match ts with
  | [] => match m with MDone v => Some v | _ => None end
  | t :: ts' =>
      match parse_step m stack t with
      | Some (m', stack') => parse_run m' stack' ts'
      | None => None
      end
  end.

(** [JSON.parse(s)]; [None] stands for the SyntaxError it throws. *)
Definition JSON_parse (s : jsstring) : option value :=
  match lex s with
  | Some ts => parse_run MValue [] ts
  | None => None
  end.

(** *** parseInt

    [parseInt(s)] without a radix: leading white space is skipped, a sign
    is read, a 0x or 0X prefix selects radix 16, and the longest run of
    digits is converted; NaN when there is none.  The result is the number
    nearest to the integer read. *)
Fixpoint digit_run (hex : bool) (s : jsstring) : list N :=
  match s with
  | [] => []
  | c :: s' =>
      match (if hex then hex_value c
             else if is_digit c then Some (c - 48)%N else None) with
      | Some d => d :: digit_run hex s'
      | None => []
      end
  end.

Definition radix_value (radix : Z) (ds : list N) : Z :=
  fold_left (fun acc d => acc * radix + Z.of_N d) ds 0.

Definition parseInt (s : jsstring) : number :=
  let s1 := trimStart s in
  let '(sign, s2) :=
    match s1 with
    | 45%N :: r => (-1, r)
    | 43%N :: r => (1, r)
    | _ => (1, s1)
    end in
  let '(hex, s3) :=
    match s2 with
    | 48%N :: 120%N :: r | 48%N :: 88%N :: r => (true, r)
    | _ => (false, s2)
    end in
  match digit_run hex s3 with
  | [] => NaN
  | ds => round_double (sign * radix_value (if hex then 16 else 10) ds)
  end.

(** *** Results and property access *)

(** An Error object: the class it was constructed from (one of the
    classes of types.ts, or [OtherError] for any class that does not
    extend [ApiError]: TypeError, SyntaxError, the errors of fetch and of
    the model's client), and the [name] and [message] it carries. *)
Inductive ErrorClass :=
| ApiError
| InvalidApiKeyError
| NotFoundError
| RateLimitError
| GeminiSafetyError
| OtherError.

Record js_error := mkError {
  cls : ErrorClass;
  name : jsstring;
  message : jsstring
}.

(** The outcome of an awaited promise, or of a block that may throw. *)
Inductive outcome (A : Type) :=
| Ok (a : A)
| Throw (e : js_error).
Arguments Ok {A} a.
Arguments Throw {A} e.

Definition obind {A B} (x : outcome A) (f : A -> outcome B) : outcome B :=
  match x with
  | Ok a => f a
  | Throw e => Throw e
  end.

Definition new_TypeError (msg : jsstring) : js_error :=
  mkError OtherError (js "TypeError") msg.

Definition new_SyntaxError (msg : jsstring) : js_error :=
  mkError OtherError (js "SyntaxError") msg.

(** [Error.prototype.toString] *)
Definition toString (e : js_error) : jsstring :=
  match name e, message e with
  | [], m => m
  | n, [] => n
  | n, m => n ++ js ": " ++ m
  end.

(** The last member named [k] of an object (on a repeated key JSON.parse
    keeps the last value). *)
Fixpoint own_property (k : jsstring) (m : list (jsstring * value)) : value :=
  match m with
  | [] => VUndefined
  | (k', v) :: m' =>
      match own_property k m' with
      | VUndefined => if jsstring_eqb k k' then v else VUndefined
      | found => found
      end
  end.

Definition type_name (v : value) : jsstring :=
  match v with VNull => js "null" | _ => js "undefined" end.

(** [v.k] for a data property [k]: reading from [undefined] or [null]
    throws; an object gives its own property, an array or a string its
    [length]; anything else gives [undefined].  None of the names the
    services read is inherited from a prototype. *)
Definition get (k : jsstring) (v : value) : outcome value :=
  match v with
  | VUndefined | VNull =>
      Throw (new_TypeError (js "Cannot read properties of " ++ type_name v
                              ++ js " (reading '" ++ k ++ js "')"))
  | VObj m => Ok (own_property k m)
  | VArr l =>
      Ok (if jsstring_eqb k (js "length")
          then VNum (Int (Z.of_nat (length l))) else VUndefined)
  | VStr s =>
      Ok (if jsstring_eqb k (js "length")
          then VNum (Int (Z.of_nat (length s))) else VUndefined)
  | _ => Ok VUndefined
  end.

(** [v[0]] *)
Definition first (v : value) : outcome value :=
  match v with
  | VUndefined | VNull =>
      Throw (new_TypeError (js "Cannot read properties of " ++ type_name v
                              ++ js " (reading '0')"))
  | VArr l => Ok (match l with x :: _ => x | [] => VUndefined end)
  | VStr s => Ok (match s with c :: _ => VStr [c] | [] => VUndefined end)
  | VObj m => Ok (own_property (js "0") m)
  | _ => Ok VUndefined
  end.

(** *** Writing a value as text

    A template literal converts each value written into it to a text.
    The values are the ones [JSON.parse] gives, so an object has no method
    of its own: an object with a member named toString has no usable
    conversion, and converting it throws; so does an array with such an
    element. *)
Definition has_own_toString (m : list (jsstring * value)) : bool :=
  existsb (fun kv => jsstring_eqb (fst kv) (js "toString")) m.

Fixpoint unprintable (v : value) : bool :=
  match v with
  | VObj m => has_own_toString m
  | VArr l => existsb unprintable l
  | _ => false
  end.

Definition cannot_convert : js_error :=
  new_TypeError (js "Cannot convert object to primitive value").

(** The conversions of a template literal that writes the values [vs];
    the text it builds is not kept. *)
Definition interpolate (vs : list value) : outcome unit :=
  if existsb unprintable vs then Throw cannot_convert else Ok tt.

(** [v === 0] *)
Definition is_zero (v : value) : bool :=
  match v with
  | VNum NaN => false
  | VNum n => negb (number_truthy n)
  | _ => false
  end.

(** *** JSON.stringify of a string

    The text is put between double quotes; the quote and the backslash are
    escaped, the control characters are written with their short escape or
    as a four-digit escape, and so is a surrogate that is not part of a
    pair. *)
Definition hex_digit (d : N) : N := if (d <? 10)%N then (48 + d)%N else (87 + d)%N.

Definition unicode_escape (c : N) : jsstring :=
  [92; 117; hex_digit (c / 4096 mod 16); hex_digit (c / 256 mod 16);
   hex_digit (c / 16 mod 16); hex_digit (c mod 16)]%N.

Definition quote_unit (c : N) : jsstring :=
  if N.eqb c 8 then js "\b"
  else if N.eqb c 9 then js "\t"
  else if N.eqb c 10 then js "\n"
  else if N.eqb c 12 then js "\f"
  else if N.eqb c 13 then js "\r"
  else if N.eqb c 34 then [92; 34]%N
  else if N.eqb c 92 then [92; 92]%N
  else if (c <? 32)%N then unicode_escape c
  else [c].

Fixpoint quote_units (s : jsstring) : jsstring :=
  match s with
  | [] => []
  | c :: s' =>
      if is_high_surrogate c then
        match s' with
        | d :: s'' =>
            if is_low_surrogate d then c :: d :: quote_units s''
            else unicode_escape c ++ quote_units s'
        | [] => unicode_escape c
        end
      else if is_low_surrogate c then unicode_escape c ++ quote_units s'
      else quote_unit c ++ quote_units s'
  end.

Definition JSON_quote (s : jsstring) : jsstring :=
  [34%N] ++ quote_units s ++ [34%N].

(** *** Regular expressions

    The constructs the stream pattern uses, with the backtracking
    semantics of ECMAScript: alternatives are tried left to right, the
    quantifiers are greedy and give back what they took when the rest of
    the pattern fails, and a capture group records the text it matched.
    The matcher takes the continuation that matches the rest. *)
Inductive regex :=
| RLit (p : jsstring)
| RDigits
| RSeq (a b : regex)
| RAlt (a b : regex)
| ROpt (a : regex)
| RGroup (i : nat) (a : regex).

Abbreviation captures := (nat -> option jsstring).

Definition set_capture (i : nat) (t : jsstring) (c : captures) : captures :=
  fun j => if Nat.eqb i j then Some t else c j.

Fixpoint strip_prefix (p s : jsstring) : option jsstring :=
  match p, s with
  | [], _ => Some s
  | _ :: _, [] => None
  | a :: p', b :: s' => if N.eqb a b then strip_prefix p' s' else None
  end.

(** Zero or more digits, longest first. *)
Fixpoint digits_star {R} (s : jsstring) (k : jsstring -> option R) : option R :=
  match s with
  | c :: s' =>
      if is_digit c then
        match digits_star s' k with
        | Some r => Some r
        | None => k s
        end
      else k s
  | [] => k s
  end.

(** One or more digits. *)
Definition digits_plus {R} (s : jsstring) (k : jsstring -> option R) : option R :=
  match s with
  | c :: s' => if is_digit c then digits_star s' k else None
  | [] => None
  end.

Fixpoint rmatch {R} (r : regex) (s : jsstring) (c : captures)
    (k : jsstring -> captures -> option R) : option R :=
  match r with
  | RLit p =>
      match strip_prefix p s with
      | Some s' => k s' c
      | None => None
      end
  | RDigits => digits_plus s (fun s' => k s' c)
  | RSeq a b => rmatch a s c (fun s' c' => rmatch b s' c' k)
  | RAlt a b =>
      match rmatch a s c k with
      | Some r => Some r
      | None => rmatch b s c k
      end
  | ROpt a =>
      match rmatch a s c k with
      | Some r => Some r
      | None => k s c
      end
  | RGroup i a =>
      rmatch a s c
        (fun s' c' => k s' (set_capture i (firstn (length s - length s') s) c'))
  end.

Definition no_captures : captures := fun _ => None.

(** [s.match(r)] for a pattern without the global flag: the first
    position at which the pattern matches, with the captures there. *)
Fixpoint regex_search (r : regex) (s : jsstring) : option captures :=
  match rmatch r s no_captures (fun _ c => Some c) with
  | Some c => Some c
  | None =>
      match s with
      | [] => None
      | _ :: s' => regex_search r s'
      end
  end.

End Js.

Export Js.

(** ** types.ts *)

Module Types.

Record ApiKeys := mkApiKeys {
  tmdb : jsstring;
  tvdb : jsstring;
  gemini : jsstring
}.

(** ['movie' | 'series'] *)
Inductive MediaType := Movie | Series.

(** [MediaMetadata].  An optional field that the object literal does not
    write is [None].  [title], [overview], [tmdbId] and the enrichment
    fields hold whatever the catalog's response held. *)
Record MediaMetadata := mkMedia {
  tmdbId : option value;
  imdbId : option jsstring;
  title : value;
  year : number;
  overview : value;
  type : MediaType;
  season : option number;
  episode : option number;
  episodeTitle : option value;
  cast : option value;
  originCountry : option value
}.

Definition new_ApiError (message : jsstring) : js_error :=
  mkError ApiError (js "ApiError") message.

Definition new_InvalidApiKeyError (serviceName : jsstring) : js_error :=
  mkError InvalidApiKeyError (js "InvalidApiKeyError")
    (js "Invalid API key for " ++ serviceName
       ++ js ". Please check it in the Configuration page.").

Definition new_NotFoundError (message : jsstring) : js_error :=
  mkError NotFoundError (js "NotFoundError") message.

Definition new_RateLimitError (serviceName : jsstring) : js_error :=
  mkError RateLimitError (js "RateLimitError")
    (js "Rate limit exceeded for " ++ serviceName
       ++ js ". Please try again later.").

Definition new_GeminiSafetyError (message : jsstring) : js_error :=
  mkError GeminiSafetyError (js "GeminiSafetyError") message.

(** [e instanceof ApiError]: the four specialised classes extend
    [ApiError]. *)
Definition instanceof_ApiError (e : js_error) : bool :=
  match cls e with OtherError => false | _ => true end.

End Types.

Export Types.

(** ** services/loggingService.ts

    The service keeps its entries in a private array and hands copies of
    it to its callers and listeners.  Arrays and entries are objects:
    they live in a heap and are named by their address, so that a write
    through one reference is seen through every other reference to the
    same object.  An array holds the addresses of its entries; a copy of
    the array holds the same addresses. *)

Module LoggingService.

Inductive LogLevel := INFO | DEBUG | WARN | ERROR.

(** The fields of an entry object. *)
Record LogEntry := mkEntry {
  timestamp : Z;
  level : LogLevel;
  message : jsstring;
  context : value
}.

Abbreviation loc := positive.

(** An array of entries holds references to entry objects.  A listener
    is given by what it does to the array it is handed (the identity for
    a listener that only reads it). *)
Abbreviation LogListener := (list loc -> list loc).

(** The fields of the class; [listeners] is the [Set] in insertion order,
    each listener with the identity the set compares. *)
Record LoggingService := mkService {
  logs : loc;
  listeners : list (positive * LogListener)
}.

Definition maxLogSize : nat := 200.

(** The arrays and the entry objects in existence, and the service
    object. *)
Record world := mkWorld {
  arrays : gmap loc (list loc);
  entries : gmap loc LogEntry;
  this : LoggingService
}.

Definition read (h : gmap loc (list loc)) (l : loc) : list loc :=
  default [] (h !! l).

(** A new array holding [xs]. *)
Definition alloc (xs : list loc) (h : gmap loc (list loc))
  : loc * gmap loc (list loc) :=
  let l := fresh (dom h) in (l, <[l := xs]> h).

(** [new LoggingService()] *)
Definition create (h : gmap loc (list loc)) (es : gmap loc LogEntry) : world :=
  let '(l, h') := alloc [] h in
  mkWorld h' es (mkService l []).

(** [getLogs()]: [[...this.logs]] is a new array with the same elements,
    the references to the entry objects. *)
Definition getLogs (w : world) : loc * world :=
  let '(l, h') := alloc (read (arrays w) (logs (this w))) (arrays w) in
  (l, mkWorld h' (entries w) (this w)).

(** [notifyListeners()]: one copy is made and every listener is called
    with it, in insertion order. *)
Definition notifyListeners (w : world) : world :=
  let '(currentLogs, w1) := getLogs w in
  fold_left
    (fun (w' : world) (f : positive * LogListener) =>
       mkWorld (alter (snd f) currentLogs (arrays w')) (entries w') (this w'))
    (listeners (this w1)) w1.

(** [a.slice(start)] for [0 <= start]. *)
Definition slice_from (start : nat) (a : list loc) : list loc :=
  skipn start a.

(** [log(level, message, context)] at clock reading [now], up to its
    last statement: a new entry object is made and pushed, and the array
    is replaced by its last 200 elements when it has more.  The write to
    the console is not modelled. *)
Definition push (now : Z) (lvl : LogLevel) (msg : jsstring) (ctx : value)
    (w : world) : world :=
  let newEntry := fresh (dom (entries w)) in
  let es := <[newEntry := mkEntry now lvl msg ctx]> (entries w) in
  let l := logs (this w) in
  let h1 := alter (fun a => a ++ [newEntry]) l (arrays w) in
  if (maxLogSize <? length (read h1 l))%nat
  then
    let '(l', h2) :=
      alloc (slice_from (length (read h1 l) - maxLogSize) (read h1 l)) h1 in
    mkWorld h2 es (mkService l' (listeners (this w)))
  else mkWorld h1 es (this w).

Definition log (now : Z) (lvl : LogLevel) (msg : jsstring) (ctx : value)
    (w : world) : world :=
  notifyListeners (push now lvl msg ctx w).

Definition info (now : Z) (msg : jsstring) (ctx : value) : world -> world :=
  log now INFO msg ctx.

Definition debug (now : Z) (msg : jsstring) (ctx : value) : world -> world :=
  log now DEBUG msg ctx.

Definition warn (now : Z) (msg : jsstring) (ctx : value) : world -> world :=
  log now WARN msg ctx.

Definition error (now : Z) (msg : jsstring) (ctx : value) : world -> world :=
  log now ERROR msg ctx.

(** [this.logs = []] *)
Definition reset (w : world) : world :=
  let '(l, h') := alloc [] (arrays w) in
  mkWorld h' (entries w) (mkService l (listeners (this w))).

(** [clearLogs()] *)
Definition clearLogs (w : world) : world := notifyListeners (reset w).

(** [subscribe(listener)]: the listener joins the set (once) and is
    called at once with a copy of the entries. *)
Definition subscribe (id : positive) (f : LogListener) (w : world) : world :=
  let ls := listeners (this w) in
  let ls' := if existsb (Pos.eqb id) (List.map fst ls)
             then ls else ls ++ [(id, f)] in
  let '(copy, w1) :=
    getLogs (mkWorld (arrays w) (entries w) (mkService (logs (this w)) ls')) in
  mkWorld (alter f copy (arrays w1)) (entries w1) (this w1).

(** The function [subscribe] returns. *)
Definition unsubscribe (id : positive) (w : world) : world :=
  mkWorld (arrays w) (entries w)
    (mkService (logs (this w))
       (List.filter (fun p => negb (Pos.eqb id (fst p))) (listeners (this w)))).

(** The four public logging methods, by level. *)
Definition method (lvl : LogLevel)
  : Z -> jsstring -> value -> world -> world :=
  match lvl with
  | INFO => info
  | DEBUG => debug
  | WARN => warn
  | ERROR => error
  end.

(** The elements of the service's array: the references to the entries
    it holds. *)
Definition buffer (w : world) : list loc :=
  read (arrays w) (logs (this w)).

End LoggingService.

(** ** The network

    A request is named by the endpoint and the parameters its URL is built
    from; [fetch] answers with a response or rejects.  Every exchange is
    keyed by its own parameters only, so the network is a function of the
    request.  An asynchronous computation carries the trace of the
    requests issued so far. *)

Module Network.

Inductive request :=
| FindByImdbId (imdbId apiKey : jsstring)
| TvEpisode (seriesId : value) (season episode : number) (apiKey : jsstring)
| SearchTitle (type : MediaType) (title apiKey : jsstring)
| MovieDetails (movieId : value) (apiKey : jsstring)
| MovieCredits (movieId : value) (apiKey : jsstring)
| TmdbConfiguration (apiKey : jsstring)
| TvdbLogin (apiKey : jsstring).

Record Response := mkResponse {
  status : Z;
  body : jsstring
}.

(** [response.ok]: the status is in the range 200-299. *)
Definition ok (r : Response) : bool := (200 <=? status r) && (status r <=? 299).

(** [response.json()]; the message of the SyntaxError is the engine's
    and is not modelled. *)
Definition json (r : Response) : outcome value :=
  match JSON_parse (body r) with
  | Some v => Ok v
  | None => Throw (new_SyntaxError (js "Unexpected token in JSON"))
  end.

Definition Async (A : Type) : Type := list request -> outcome A * list request.

Definition ret {A} (a : A) : Async A := fun tr => (Ok a, tr).

Definition bind {A B} (m : Async A) (f : A -> Async B) : Async B :=
  fun tr =>
    match m tr with
    | (Ok a, tr') => f a tr'
    | (Throw e, tr') => (Throw e, tr')
    end.

Definition lift {A} (x : outcome A) : Async A := fun tr => (x, tr).

Definition throw {A} (e : js_error) : Async A := lift (Throw e).

(** [Promise.all]: every promise of the array has been started, so every
    request is issued; the result is the array of the values, or a
    rejection when one of the promises rejects.  When several reject, the
    rejection given here is the one of the first of them in the array;
    [Promise.all] gives the one that comes first in time. *)
Fixpoint Promise_all {A} (ps : list (Async A)) : Async (list A) :=
  fun tr =>
    match ps with
    | [] => (Ok [], tr)
    | p :: ps' =>
        let '(x, tr1) := p tr in
        let '(xs, tr2) := Promise_all ps' tr1 in
        (obind x (fun a => obind xs (fun l => Ok (a :: l))), tr2)
    end.

Definition Promise_all2 {A B} (p1 : Async A) (p2 : Async B) : Async (A * B) :=
  fun tr =>
    let '(x, tr1) := p1 tr in
    let '(y, tr2) := p2 tr1 in
    (obind x (fun a => obind y (fun b => Ok (a, b))), tr2).

(** Running a computation from the empty trace. *)
Definition run {A} (m : Async A) : outcome A * list request := m [].

End Network.

Export Network.

#[export] Instance outcome_bind : MBind outcome := fun A B f x => obind x f.
#[export] Instance async_bind : MBind Async := fun A B f m => bind m f.

(** ** services/metadataService.ts

    A call to the logging service writes to the log buffer only; what is
    kept of it in the embedding of the services is the conversion to text
    of the values of the catalog's answer that its message writes, which
    can throw.  A request carries the values its URL is built from and
    stands for the fetch of that URL: the identifier of a [MovieDetails],
    [MovieCredits] or [TvDetails] request is one that can be written as
    text, and the title of a [SearchTitle] request one that
    [encodeURIComponent] accepts. *)

Module MetadataService.

Section WithNetwork.

Variable net : request -> outcome Response.

Definition handleApiResponse (response : Response) (serviceName : jsstring)
  : outcome value :=
  if ok response then json response
  else
    let status := status response in
    let error :=
      if status =? 401 then new_InvalidApiKeyError serviceName
      else if status =? 404 then
        new_NotFoundError
          (serviceName ++ js " could not find the requested resource.")
      else if status =? 429 then new_RateLimitError serviceName
      else
        new_ApiError
          (js "An unexpected error occurred with " ++ serviceName
             ++ js " (Status: " ++ Z_to_js status ++ js ").") in
    Throw error.

Definition fetchViaProxy (req : request) : Async Response :=
  fun tr => (net req, tr ++ [req]).

(** [d ? parseInt(d.split('-')[0]) : 0] *)
Definition year_of (d : value) : outcome number :=
  if truthy d then
    match d with
    | VStr s => Ok (parseInt (split_head 45 s))
    | _ => Throw (new_TypeError (js "split is not a function"))
    end
  else Ok (Int 0).

Record GetMetadataParams := mkGetParams {
  gp_type : MediaType;
  gp_imdbId : jsstring;
  gp_season : option number;
  gp_episode : option number;
  gp_apiKey : jsstring
}.

(** [season && episode]: both are present and neither is 0 or NaN. *)
Definition season_and_episode (season episode : option number)
  : option (number * number) :=
  match season, episode with
  | Some s, Some e =>
      if number_truthy s && number_truthy e then Some (s, e) else None
  | _, _ => None
  end.

(** The function's last statement, [return null], is not reached for
    either value of [type]. *)
Definition getMetadata (params : GetMetadataParams)
  : Async (option MediaMetadata) :=
  let '(mkGetParams type imdbId season episode apiKey) := params in
  findResponse ← fetchViaProxy (FindByImdbId imdbId apiKey);
  findData ← lift (handleApiResponse findResponse (js "TMDB"));
  match type with
  | Movie =>
      movie_results ← lift (get (js "movie_results") findData);
      movie ← lift (first movie_results);
      if negb (truthy movie) then
        throw (new_NotFoundError
                 (js "Movie with IMDb ID " ++ imdbId ++ js " not found."))
      else
        id ← lift (get (js "id") movie);
        title ← lift (get (js "title") movie);
        lift (interpolate [title; id]);;
        release_date ← lift (get (js "release_date") movie);
        year ← lift (year_of release_date);
        overview ← lift (get (js "overview") movie);
        ret (Some (mkMedia (Some id) (Some imdbId) title year overview Movie
                     None None None None None))
  | Series =>
      tv_results ← lift (get (js "tv_results") findData);
      series ← lift (first tv_results);
      if negb (truthy series) then
        throw (new_NotFoundError
                 (js "Series with IMDb ID " ++ imdbId ++ js " not found."))
      else
        id ← lift (get (js "id") series);
        name ← lift (get (js "name") series);
        lift (interpolate [name; id]);;
        first_air_date ← lift (get (js "first_air_date") series);
        match season_and_episode season episode with
        | Some (season, episode) =>
            episodeResponse ← fetchViaProxy (TvEpisode id season episode apiKey);
            episodeData ← lift (handleApiResponse episodeResponse (js "TMDB"));
            year ← lift (year_of first_air_date);
            episode_overview ← lift (get (js "overview") episodeData);
            episode_name ← lift (get (js "name") episodeData);
            ret (Some (mkMedia (Some id) (Some imdbId) name year
                         episode_overview Series
                         (Some season) (Some episode) (Some episode_name)
                         None None))
        | None =>
            year ← lift (year_of first_air_date);
            overview ← lift (get (js "overview") series);
            ret (Some (mkMedia (Some id) (Some imdbId) name year overview
                         Series None None None None None))
        end
  end.

(** [creditsData.cast?.slice(0, 3).map(actor => actor.name) || []] *)
Fixpoint names_of (actors : list value) : outcome (list value) :=
  match actors with
  | [] => Ok []
  | a :: rest =>
      obind (get (js "name") a) (fun n =>
      obind (names_of rest) (fun ns => Ok (n :: ns)))
  end.

Definition cast_of (creditsData : value) : outcome value :=
  obind (get (js "cast") creditsData) (fun c =>
    match c with
    | VUndefined | VNull => Ok (VArr [])
    | VArr l => obind (names_of (firstn 3 l)) (fun ns => Ok (VArr ns))
    | VStr _ => Throw (new_TypeError (js "map is not a function"))
    | _ => Throw (new_TypeError (js "slice is not a function"))
    end).

(** [detailsData.production_countries?.[0]?.iso_3166_1 || ''] *)
Definition country_of (detailsData : value) : outcome value :=
  obind (get (js "production_countries") detailsData) (fun pc =>
    match pc with
    | VUndefined | VNull => Ok (VStr [])
    | _ =>
        obind (first pc) (fun c0 =>
          match c0 with
          | VUndefined | VNull => Ok (VStr [])
          | _ =>
              obind (get (js "iso_3166_1") c0) (fun code =>
                Ok (if truthy code then code else VStr []))
          end)
    end).

(** The result is the pair of [cast] and [originCountry]. *)
Definition getMovieDetails (movieId : value) (apiKey : jsstring)
  : Async (value * value) :=
  '(detailsRes, creditsRes) ←
     Promise_all2 (fetchViaProxy (MovieDetails movieId apiKey))
                  (fetchViaProxy (MovieCredits movieId apiKey));
  if negb (ok detailsRes) || negb (ok creditsRes) then
    ret (VArr [], VStr [])
  else
    detailsData ← lift (json detailsRes);
    creditsData ← lift (json creditsRes);
    cast ← lift (cast_of creditsData);
    originCountry ← lift (country_of detailsData);
    ret (cast, originCountry).

Record SearchMetadataParams := mkSearchParams {
  sp_title : jsstring;
  sp_type : MediaType;
  sp_apiKey : jsstring
}.

(** The callback mapped over the results of a movie search. *)
Definition movie_candidate (apiKey : jsstring) (result : value)
  : Async MediaMetadata :=
  id ← lift (get (js "id") result);
  '(cast, originCountry) ← getMovieDetails id apiKey;
  title ← lift (get (js "title") result);
  release_date ← lift (get (js "release_date") result);
  year ← lift (year_of release_date);
  overview ← lift (get (js "overview") result);
  ret (mkMedia (Some id) None title year overview Movie
         None None None (Some cast) (Some originCountry)).

(** The callback mapped over the results of a series search. *)
Definition series_candidate (result : value) : outcome MediaMetadata :=
  obind (get (js "id") result) (fun id =>
  obind (get (js "name") result) (fun name =>
  obind (get (js "first_air_date") result) (fun first_air_date =>
  obind (year_of first_air_date) (fun year =>
  obind (get (js "overview") result) (fun overview =>
  Ok (mkMedia (Some id) None name year overview Series
        None None None None None)))))).

Fixpoint map_outcome {A B} (f : A -> outcome B) (l : list A)
  : outcome (list B) :=
  match l with
  | [] => Ok []
  | a :: rest =>
      obind (f a) (fun b => obind (map_outcome f rest) (fun bs => Ok (b :: bs)))
  end.

Definition searchByTitle (params : SearchMetadataParams)
  : Async (list MediaMetadata) :=
  let '(mkSearchParams title type apiKey) := params in
  response ← fetchViaProxy (SearchTitle type title apiKey);
  data ← lift (handleApiResponse response (js "TMDB"));
  results ← lift (get (js "results") data);
  if negb (truthy results) then ret []
  else
    len ← lift (get (js "length") results);
    if is_zero len then ret []
    else
      lift (interpolate [len]);;
      match results with
      | VArr l =>
          match type with
          | Movie => Promise_all (List.map (movie_candidate apiKey) l)
          | Series => lift (map_outcome series_candidate l)
          end
      | _ => throw (new_TypeError (js "results.map is not a function"))
      end.

End WithNetwork.

End MetadataService.

(** ** The generative model

    [ai.models.generateContent] is an opaque request/response function of
    the credential and of the request.  The review prompt is built from the
    metadata alone, so the request for a review is named by the metadata. *)

Module GenAI.

Inductive GenerateContentRequest :=
| ReviewPrompt (metadata : MediaMetadata)
| Hello.

(** The fields of the response that are read: the candidate list (the
    candidates themselves are not inspected) and the [text] accessor. *)
Record GenerateContentResponse := mkGenResponse {
  candidates : option (list value);
  text : option jsstring
}.

Abbreviation GenerateContent :=
  (jsstring -> GenerateContentRequest -> outcome GenerateContentResponse).

End GenAI.

Export GenAI.

(** ** services/geminiService.ts

    The prompt is built, before the [try] block, from the title, year,
    season, episode, episode title and overview of the record;
    [ReviewPrompt md] stands for the prompt built from [md], so the record
    is one whose fields can be written as text.  What the model's client
    rejects with is an Error object.  Constructing the client and writing
    the log lines are left out. *)

Module GeminiService.

Definition extractJsonArray (text : jsstring) : option (list value) :=
  let startIndex := indexOf (js "[") text in
  let endIndex := lastIndexOf (js "]") text in
  if (startIndex =? -1) || (endIndex =? -1) || (endIndex <? startIndex) then
    None
  else
    let jsonString := substring text startIndex (endIndex + 1) in
    match JSON_parse jsonString with
    | Some (VArr parsed) => Some parsed
    | Some _ => None
    | None => None
    end.

(** [reviewPoints as string[]], once every element is known to be a
    string. *)
Fixpoint as_strings (l : list value) : list jsstring :=
  match l with
  | [] => []
  | VStr s :: l' => s :: as_strings l'
  | _ :: l' => as_strings l'
  end.

(** [!response.candidates || response.candidates.length === 0] *)
Definition no_candidates (response : GenerateContentResponse) : bool :=
  match candidates response with
  | None | Some [] => true
  | Some (_ :: _) => false
  end.

Section WithModel.

Variable generateContent : GenerateContent.

(** The body of the [try] block. *)
Definition generateReview_try (metadata : MediaMetadata)
    (geminiApiKey : jsstring) : outcome (list jsstring) :=
  response ← generateContent geminiApiKey (ReviewPrompt metadata);
  if no_candidates response then
    Throw (new_GeminiSafetyError
             (js "Review generation was blocked. The content might be sensitive."))
  else
    rawText ←
      match text response with
      | Some t => Ok (trim t)
      | None =>
          Throw (new_TypeError
                   (js "Cannot read properties of undefined (reading 'trim')"))
      end;
    match extractJsonArray rawText with
    | Some reviewPoints =>
        if forallb is_string reviewPoints then Ok (as_strings reviewPoints)
        else Throw (new_ApiError (js "Gemini did not return a valid array of strings."))
    | None =>
        Throw (new_ApiError (js "Gemini did not return a valid array of strings."))
    end.

(** The [catch] block. *)
Definition generateReview_catch (error : js_error) : js_error :=
  let errorMessage := toLowerCase (toString error) in
  if includes (js "api key not valid") errorMessage then
    new_InvalidApiKeyError (js "Gemini")
  else if includes (js "quota") errorMessage
          || includes (js "rate limit") errorMessage then
    new_RateLimitError (js "Gemini")
  else if instanceof_ApiError error then error
  else new_ApiError (js "An unexpected error occurred while generating the review.").

Definition generateReview (metadata : MediaMetadata) (geminiApiKey : jsstring)
  : outcome (list jsstring) :=
  match geminiApiKey with
  | [] => Throw (new_InvalidApiKeyError (js "Gemini (key not provided)"))
  | _ =>
      match generateReview_try metadata geminiApiKey with
      | Ok reviewPoints => Ok reviewPoints
      | Throw error => Throw (generateReview_catch error)
      end
  end.

End WithModel.

End GeminiService.

(** ** services/apiKeyService.ts *)

Module ApiKeyService.

Section WithServices.

Variable net : request -> outcome Response.
Variable generateContent : GenerateContent.

Definition testTmdbKey (apiKey : jsstring) : bool :=
  match trim apiKey with
  | [] => false
  | _ =>
      match net (TmdbConfiguration apiKey) with
      | Ok response => ok response
      | Throw _ => false
      end
  end.

Definition testTvdbKey (apiKey : jsstring) : bool :=
  match trim apiKey with
  | [] => false
  | _ =>
      match net (TvdbLogin apiKey) with
      | Ok response => ok response
      | Throw _ => false
      end
  end.

Definition testGeminiKey (apiKey : jsstring) : bool :=
  match trim apiKey with
  | [] => false
  | _ =>
      match generateContent apiKey Hello with
      | Ok _ => true
      | Throw _ => false
      end
  end.

End WithServices.

End ApiKeyService.

(** ** hooks/useApiKeys.ts *)

Module UseApiKeys.

Definition API_KEYS_STORAGE_KEY : jsstring := js "stremio-gemini-reviews-apikeys".

(** [localStorage]: the stored items, and the browser's decision whether
    a write is accepted ([setItem] throws when the quota is exceeded or
    the storage is not available). *)
Record Storage := mkStorage {
  items : gmap jsstring jsstring;
  accepts : jsstring -> jsstring -> bool
}.

Definition getItem (k : jsstring) (st : Storage) : option jsstring :=
  items st !! k.

Definition setItem (k v : jsstring) (st : Storage) : outcome Storage :=
  if accepts st k v then Ok (mkStorage (<[k := v]> (items st)) (accepts st))
  else Throw (mkError OtherError (js "QuotaExceededError")
                (js "The quota has been exceeded.")).

(** [JSON.stringify(newKeys)] for an [ApiKeys] object. *)
Definition stringify_ApiKeys (k : ApiKeys) : jsstring :=
  js "{" ++ JSON_quote (js "tmdb") ++ js ":" ++ JSON_quote (tmdb k)
  ++ js "," ++ JSON_quote (js "tvdb") ++ js ":" ++ JSON_quote (tvdb k)
  ++ js "," ++ JSON_quote (js "gemini") ++ js ":" ++ JSON_quote (gemini k)
  ++ js "}".

(** The state the hook holds, and the storage beside it. *)
Record Hook := mkHook {
  keys : ApiKeys;
  isReady : bool;
  localStorage : Storage
}.

Definition saveKeys (newKeys : ApiKeys) (h : Hook) : bool * Hook :=
  match setItem API_KEYS_STORAGE_KEY (stringify_ApiKeys newKeys) (localStorage h) with
  | Ok st' => (true, mkHook newKeys (isReady h) st')
  | Throw _ => (false, h)
  end.

Definition nonempty (s : jsstring) : bool :=
  match s with [] => false | _ => true end.

(** [!!(keys.tmdb?.trim() && keys.tvdb?.trim() && keys.gemini?.trim())] *)
Definition areKeysSetup (k : ApiKeys) : bool :=
  nonempty (trim (tmdb k)) && nonempty (trim (tvdb k))
  && nonempty (trim (gemini k)).

End UseApiKeys.

Export UseApiKeys.

(** ** pages/ConfigurePage.tsx: the save handler *)

Module ConfigurePage.

Inductive TestResult := valid | invalid.

Record TestResults := mkResults {
  r_tmdb : option TestResult;
  r_tvdb : option TestResult;
  r_gemini : option TestResult
}.

(** The component's state. *)
Record Page := mkPage {
  tmdbKey : jsstring;
  tvdbKey : jsstring;
  geminiKey : jsstring;
  showSuccess : bool;
  isSavingAndTesting : bool;
  testResults : TestResults
}.

Definition result_of (b : bool) : TestResult := if b then valid else invalid.

Section WithServices.

Variable net : request -> outcome Response.
Variable generateContent : GenerateContent.

(** The three validations are started together and joined; none of them
    rejects.  The timer that hides the success mark again is not
    modelled. *)
Definition handleSaveAndTest (p : Page) (h : Hook) : Page * Hook :=
  let tmdbValid := ApiKeyService.testTmdbKey net (trim (tmdbKey p)) in
  let tvdbValid := ApiKeyService.testTvdbKey net (trim (tvdbKey p)) in
  let geminiValid := ApiKeyService.testGeminiKey generateContent (trim (geminiKey p)) in
  let results :=
    mkResults (Some (result_of tmdbValid)) (Some (result_of tvdbValid))
              (Some (result_of geminiValid)) in
  if tmdbValid && tvdbValid && geminiValid then
    let '(success, h') :=
      saveKeys (mkApiKeys (trim (tmdbKey p)) (trim (tvdbKey p)) (trim (geminiKey p))) h in
    (mkPage (tmdbKey p) (tvdbKey p) (geminiKey p) success false results, h')
  else
    (mkPage (tmdbKey p) (tvdbKey p) (geminiKey p) false false results, h).

End WithServices.

End ConfigurePage.

(** ** pages/StremioHandler.tsx *)

Module StremioHandler.

Record Stream := mkStream {
  s_name : jsstring;
  s_title : jsstring;
  s_infoHash : option jsstring;
  s_notPlayable : bool
}.

(** The object handed to [setResponse]. *)
Record StreamResponse := mkStreams {
  streams : list Stream
}.

Definition createErrorStream (message : jsstring) : StreamResponse :=
  mkStreams [mkStream (js "Error") message None true].

(** The pattern
    [/\/stream\/(movie|series)\/(tt\d+)(?::(\d+):(\d+))?\.json/] *)
Definition stream_pattern : regex :=
  RSeq (RLit (js "/stream/"))
 (RSeq (RGroup 1 (RAlt (RLit (js "movie")) (RLit (js "series"))))
 (RSeq (RLit (js "/"))
 (RSeq (RGroup 2 (RSeq (RLit (js "tt")) RDigits))
 (RSeq (ROpt (RSeq (RLit (js ":"))
             (RSeq (RGroup 3 RDigits)
             (RSeq (RLit (js ":"))
                   (RGroup 4 RDigits)))))
       (RLit (js ".json")))))).

(** [x || ''] for a capture. *)
Definition or_empty (x : option jsstring) : jsstring :=
  match x with
  | Some (c :: t) => c :: t
  | _ => []
  end.

(** The pseudo-identifier of a stream. *)
Definition infoHash (imdbId : jsstring) (season episode : option jsstring)
  : jsstring :=
  slice0 40
    (padStart 40 48
       (Z_to_hex
          (fold_left (fun hash char => to_int32 (hash * 31 + Z.of_N char))
             (code_point_heads (imdbId ++ or_empty season ++ or_empty episode))
             0))).

(** [x ? parseInt(x) : undefined] for a capture. *)
Definition parse_capture (x : option jsstring) : option number :=
  match x with
  | Some (c :: t) => Some (parseInt (c :: t))
  | _ => None
  end.

(** [try { ... } catch (error) { ... }] *)
Definition try_catch {A} (body : Async A) (handler : js_error -> Async A)
  : Async A :=
  fun tr =>
    match body tr with
    | (Ok a, tr') => (Ok a, tr')
    | (Throw e, tr') => handler e tr'
    end.

Section WithServices.

Variable net : request -> outcome Response.
Variable generateContent : GenerateContent.

(** [handleRequest]: the result is the argument of the call to
    [setResponse], or [None] when the handler returns without a call. *)
Definition handleRequest (pathname : jsstring) (isReady : bool) (keys : ApiKeys)
  : Async (option StreamResponse) :=
  if negb (startsWith (js "/stream/") pathname) then ret None
  else if negb isReady then ret None
  else if negb (areKeysSetup keys) then
    ret (Some (createErrorStream
                 (js "API keys not configured. Please configure the addon.")))
  else
    match regex_search stream_pattern pathname with
    | Some streamMatch =>
        let type := if jsstring_eqb (or_empty (streamMatch 1%nat)) (js "movie")
                    then Movie else Series in
        let imdbId := or_empty (streamMatch 2%nat) in
        let season := streamMatch 3%nat in
        let episode := streamMatch 4%nat in
        try_catch
          (metadata ← MetadataService.getMetadata net
             (MetadataService.mkGetParams type imdbId (parse_capture season)
                (parse_capture episode) (tmdb keys));
           match metadata with
           | None =>
               ret (Some (createErrorStream (js "Metadata not found for this item.")))
           | Some metadata =>
               reviewPoints ←
                 lift (GeminiService.generateReview generateContent metadata
                         (gemini keys));
               match reviewPoints with
               | [] =>
                   ret (Some (createErrorStream
                                (js "Could not generate review for this item.")))
               | _ =>
                   ret (Some (mkStreams
                     [mkStream (js "Gemini Review " ++ [10024%N])
                        (join [10%N] reviewPoints)
                        (Some (infoHash imdbId season episode))
                        true]))
               end
           end)
          (fun error =>
             let errorMessage :=
               if instanceof_ApiError error then message error
               else js "An unknown error occurred." in
             ret (Some (createErrorStream errorMessage)))
    | None => ret (Some (createErrorStream (js "Invalid request format.")))
    end.

End WithServices.

End StremioHandler.

(** ** Sample inputs *)

Module Samples.

(** The metadata of a movie, as [getMetadata] builds it. *)
Definition matrix_metadata : MediaMetadata :=
  mkMedia (Some (VNum (Int 603))) (Some (js "tt0133093"))
    (VStr (js "The Matrix")) (Int 1999)
    (VStr (js "A hacker learns what the world is."))
    Movie None None None None None.

(** A model that answers every request with one candidate and the given
    text. *)
Definition answering (t : jsstring) : GenerateContent :=
  fun _ _ => Ok (mkGenResponse (Some [VObj []]) (Some t)).

(** A model whose answer is blocked: no candidate at all. *)
Definition blocked_model : GenerateContent :=
  fun _ _ => Ok (mkGenResponse (Some []) None).

(** A network on which every request is rejected. *)
Definition offline : request -> outcome Response :=
  fun _ => Throw (new_TypeError (js "Failed to fetch")).

(** A series and a movie, as the catalog's responses list them. *)
Definition thrones_result : value :=
  VObj [(js "id", VNum (Int 1399));
        (js "name", VStr (js "Game of Thrones"));
        (js "first_air_date", VStr (js "2011-04-17"));
        (js "overview", VStr (js "Noble families fight for the throne."))].

Definition matrix_result : value :=
  VObj [(js "id", VNum (Int 603));
        (js "title", VStr (js "The Matrix"));
        (js "release_date", VStr (js "1999-03-30"));
        (js "overview", VStr (js "A hacker learns what the world is."))].

(** The bodies of the catalog's answers. *)
Definition matrix_json : jsstring :=
  q "{'id':603,'title':'The Matrix','release_date':'1999-03-30'"
  ++ q ",'overview':'A hacker learns what the world is.'}".

Definition thrones_json : jsstring :=
  q "{'id':1399,'name':'Game of Thrones','first_air_date':'2011-04-17'"
  ++ q ",'overview':'Noble families fight for the throne.'}".

Definition find_body : jsstring :=
  q "{'movie_results':[" ++ matrix_json
  ++ q "],'tv_results':[" ++ thrones_json ++ q "]}".

Definition search_body : jsstring :=
  q "{'results':[" ++ matrix_json ++ q "]}".

Definition episode_body : jsstring :=
  q "{'name':'Winter Is Coming','overview':'A king rides north.'}".

(** A catalog that knows one movie and one series, and refuses the
    details of a movie with status 404. *)
Definition catalog : request -> outcome Response :=
  fun req =>
    match req with
    | FindByImdbId _ _ => Ok (mkResponse 200 find_body)
    | TvEpisode _ _ _ _ => Ok (mkResponse 200 episode_body)
    | SearchTitle _ _ _ => Ok (mkResponse 200 search_body)
    | MovieDetails _ _ => Ok (mkResponse 404 (js "{}"))
    | MovieCredits _ _ => Ok (mkResponse 200 (q "{'cast':[{'name':'Keanu Reeves'}]}"))
    | _ => Ok (mkResponse 200 (js "{}"))
    end.

(** The same catalog when the request for the details of a movie is
    rejected by the transport. *)
Definition catalog_details_unreachable : request -> outcome Response :=
  fun req =>
    match req with
    | MovieDetails _ _ => Throw (new_TypeError (js "Failed to fetch"))
    | _ => catalog req
    end.



(** A model answer of eight lines. *)
Definition eight_lines : jsstring :=
  q "['1 Plot','2 Look','3 Cast','4 Score','5 Pace','6 World','7 Theme','8 Verdict']".

(** Credentials that are all set, and credentials that are not. *)
Definition configured : ApiKeys := mkApiKeys (js "k1") (js "k2") (js "k3").

Definition unconfigured : ApiKeys := mkApiKeys [] [] [].

(** The logging service just after its construction. *)
Definition empty_log : LoggingService.world := LoggingService.create ∅ ∅.

(** The service after 200 lines were logged, at clock readings 0 to
    199. *)
Definition full_log : LoggingService.world :=
  fold_left
    (fun w n => LoggingService.debug (Z.of_nat n) (js "tick") VUndefined w)
    (seq 0 200) empty_log.

(** An empty storage that accepts every write, the hook over it, and a
    page whose three fields are filled in. *)
Definition open_storage : Storage := mkStorage ∅ (fun _ _ => true).

Definition fresh_hook : Hook := mkHook (mkApiKeys [] [] []) true open_storage.

Definition filled_page : ConfigurePage.Page :=
  ConfigurePage.mkPage (js " k1 ") (js "k2") (js "k3") false false
    (ConfigurePage.mkResults None None None).

End Samples.

(** ** The vocabulary of the properties *)

Module Vocabulary.

(** The specification's names for the classified failures; an error that
    is not an [ApiError] is an unclassified fault. *)
Inductive ErrorKind :=
| InvalidCredential
| NotFound
| RateLimited
| ContentBlocked
| Generic.

Definition kind_of (e : js_error) : option ErrorKind :=
  match cls e with
  | ApiError => Some Generic
  | InvalidApiKeyError => Some InvalidCredential
  | NotFoundError => Some NotFound
  | RateLimitError => Some RateLimited
  | GeminiSafetyError => Some ContentBlocked
  | OtherError => None
  end.

(** The array that a text parses to, if it parses to one. *)
Definition parsed_array (s : jsstring) : option (list value) :=
  match JSON_parse s with
  | Some (VArr l) => Some l
  | _ => None
  end.

(** The two errors that the [try] block of [generateReview] throws. *)
Definition invalid_array_error : js_error :=
  new_ApiError (js "Gemini did not return a valid array of strings.").

Definition blocked_error : js_error :=
  new_GeminiSafetyError
    (js "Review generation was blocked. The content might be sensitive.").

(** The number of non-empty strings of a review. *)
Definition non_empty_count (l : list jsstring) : nat :=
  length (List.filter nonempty l).

(** The kind the specification's taxonomy gives to a status that is not
    a success. *)
Definition kind_of_status (status : Z) : ErrorKind :=
  if status =? 401 then InvalidCredential
  else if status =? 404 then NotFound
  else if status =? 429 then RateLimited
  else Generic.

(** The property [k] of a value that is neither [undefined] nor
    [null]. *)
Definition field (k : jsstring) (v : value) : value :=
  match get k v with
  | Ok x => x
  | Throw _ => VUndefined
  end.

Section WithNetwork.

Variable net : request -> outcome Response.

(** The identifier lookup is answered with a success whose first series
    result is [series]. *)
Definition series_found (imdbId apiKey : jsstring) (series : value) : Prop :=
  exists findResponse findData tv_results,
    net (FindByImdbId imdbId apiKey) = Ok findResponse
    /\ MetadataService.handleApiResponse findResponse (js "TMDB") = Ok findData
    /\ get (js "tv_results") findData = Ok tv_results
    /\ first tv_results = Ok series
    /\ truthy series = true.


(** Both secondary lookups of a search result are answered, and one of
    the answers is not a success. *)
Definition enrichment_refused (apiKey : jsstring) (result : value) : Prop :=
  exists id detailsRes creditsRes,
    get (js "id") result = Ok id
    /\ net (MovieDetails id apiKey) = Ok detailsRes
    /\ net (MovieCredits id apiKey) = Ok creditsRes
    /\ (ok detailsRes = false \/ ok creditsRes = false).

End WithNetwork.

Import StremioHandler.

(** The texts a pattern matches. *)
Fixpoint lang (r : regex) (m : jsstring) : Prop :=
  match r with
  | RLit p => m = p
  | RDigits => m <> [] /\ Forall (fun c => is_digit c = true) m
  | RSeq a b => exists m1 m2, m = m1 ++ m2 /\ lang a m1 /\ lang b m2
  | RAlt a b => lang a m \/ lang b m
  | ROpt a => m = [] \/ lang a m
  | RGroup _ a => lang a m
  end.

(** Some part of [s] is matched by the pattern. *)
Definition occurs (r : regex) (s : jsstring) : Prop :=
  exists pre m post, s = pre ++ m ++ post /\ lang r m.

(** A non-empty run of decimal digits. *)
Definition digits (d : jsstring) : Prop :=
  d <> [] /\ Forall (fun c => is_digit c = true) d.

(** The paths of the form
    /stream/{kind}/{externalId}(:{season}:{episode})?.json, where the
    kind is movie or series and the external identifier is tt followed by
    digits. *)
Definition stream_path (m : jsstring) : Prop :=
  exists kind id tail,
    (kind = js "movie" \/ kind = js "series")
    /\ digits id
    /\ (tail = [] \/ exists season episode,
          digits season /\ digits episode
          /\ tail = js ":" ++ season ++ js ":" ++ episode)
    /\ m = js "/stream/" ++ kind ++ js "/" ++ (js "tt" ++ id) ++ tail ++ js ".json".

(** Some part of the path is a stream path. *)
Definition contains_stream_path (pathname : jsstring) : Prop :=
  exists pre m post, pathname = pre ++ m ++ post /\ stream_path m.
(** A hexadecimal digit. *)
Definition is_hex_digit (c : N) : bool :=
  is_digit c || (97 <=? c)%N && (c <=? 102)%N || (65 <=? c)%N && (c <=? 70)%N.

Import LoggingService.

(** The entry objects the buffer refers to, in order. *)
Definition records (w : world) : list LogEntry :=
  omap (fun r => entries w !! r) (buffer w).

(** The service's array exists, and so does every entry object it refers
    to. *)
Definition wf (w : world) : Prop :=
  is_Some (arrays w !! logs (this w))
  /\ Forall (fun r => is_Some (entries w !! r)) (buffer w).

(** The last [n] elements of a list (the list itself when it has no
    more). *)
Definition keep_last {A} (n : nat) (l : list A) : list A :=
  skipn (length l - n) l.

Section WithServices.
Variable net : request -> outcome Response.
Variable generateContent : GenerateContent.

(** The three validations of the configuration page all succeed. *)
Definition all_valid (p : ConfigurePage.Page) : bool :=
  ApiKeyService.testTmdbKey net (trim (ConfigurePage.tmdbKey p))
  && ApiKeyService.testTvdbKey net (trim (ConfigurePage.tvdbKey p))
  && ApiKeyService.testGeminiKey generateContent (trim (ConfigurePage.geminiKey p)).

End WithServices.

(** The credentials of the page's three fields, as they are saved. *)
Definition entered (p : ConfigurePage.Page) : ApiKeys :=
  mkApiKeys (trim (ConfigurePage.tmdbKey p)) (trim (ConfigurePage.tvdbKey p))
            (trim (ConfigurePage.geminiKey p)).

End Vocabulary.

(** ** services/loggingService.ts: the callers of the service *)

Module LoggingClient.
Import LoggingService.

(** What the code around the service can do with it: call its public
    methods, write to an array that the service has handed to it (the
    one [getLogs] returned, or the one a listener was called with), and
    assign to the fields of an entry object.  The private array is
    reached through the service only. *)
Inductive call :=
| CallLog (lvl : LogLevel) (now : Z) (msg : jsstring) (ctx : value)
| CallClearLogs
| CallSubscribe (id : positive) (f : LogListener)
| CallUnsubscribe (id : positive)
| CallGetLogs
| CallerWrite (l : loc) (f : list loc -> list loc)
| CallerAssign (r : loc) (f : LogEntry -> LogEntry).

(** The service, and the arrays it has handed out so far. *)
Record client := mkClient {
  service : world;
  handed : gset loc
}.

(** The array handed to the listeners by [notifyListeners], and to the
    caller by [getLogs]. *)
Definition next_copy (w : world) : loc := fresh (dom (arrays w)).

(** One step of the code around the service; [None] when it would write
    to an array it was never handed. *)
Definition perform (c : call) (k : client) : option client :=
  let w := service k in
  match c with
  | CallLog lvl now msg ctx =>
      Some (mkClient (method lvl now msg ctx w)
              ({[next_copy (push now lvl msg ctx w)]} ∪ handed k))
  | CallClearLogs =>
      Some (mkClient (clearLogs w) ({[next_copy (reset w)]} ∪ handed k))
  | CallSubscribe id f =>
      Some (mkClient (subscribe id f w) ({[next_copy w]} ∪ handed k))
  | CallUnsubscribe id => Some (mkClient (unsubscribe id w) (handed k))
  | CallGetLogs =>
      Some (mkClient (snd (getLogs w)) ({[fst (getLogs w)]} ∪ handed k))
  | CallerWrite l f =>
      if decide (l ∈ handed k)
      then Some (mkClient (mkWorld (alter f l (arrays w)) (entries w) (this w))
                   (handed k))
      else None
  | CallerAssign r f =>
      Some (mkClient (mkWorld (arrays w) (alter f r (entries w)) (this w))
              (handed k))
  end.

Fixpoint perform_all (cs : list call) (k : client) : option client :=
  match cs with
  | [] => Some k
  | c :: cs' =>
      match perform c k with
      | Some k' => perform_all cs' k'
      | None => None
      end
  end.

(** The entries logged since the last call of [clearLogs], with the
    fields they were logged with. *)
Definition logged (cs : list call) : list LogEntry :=
  fold_left
    (fun acc c =>
       match c with
       | CallLog lvl now msg ctx => acc ++ [mkEntry now lvl msg ctx]
       | CallClearLogs => []
       | _ => acc
       end)
    cs [].

(** The service keeps its array to itself: it exists, it is none of the
    arrays handed out, and those exist too. *)
Definition private (k : client) : Prop :=
  Vocabulary.wf (service k)
  /\ (logs (this (service k)) ∉ handed k)
  /\ handed k ⊆ dom (arrays (service k)).

(** Some step assigns to an entry object. *)
Definition assigns (cs : list call) : bool :=
  existsb (fun c => match c with CallerAssign _ _ => true | _ => false end) cs.

End LoggingClient.

(** ** Strings that JavaScript can hold *)

Module Utf16.

(** Every element of the list is a 16-bit code unit. *)
Definition utf16 (s : jsstring) : Prop := Forall (fun c => (c < 65536)%N) s.

Definition utf16_keys (k : ApiKeys) : Prop :=
  utf16 (tmdb k) /\ utf16 (tvdb k) /\ utf16 (gemini k).

(** No surrogate stands outside a pair; [encodeURIComponent] accepts
    such a text, and throws a URIError on any other. *)
Fixpoint well_formed (s : jsstring) : bool :=
  match s with
  | [] => true
  | c :: s' =>
      if is_high_surrogate c then
        match s' with
        | d :: s'' => is_low_surrogate d && well_formed s''
        | [] => false
        end
      else negb (is_low_surrogate c) && well_formed s'
  end.

End Utf16.

(** ** hooks/useApiKeys.ts: the effect that loads the stored keys *)

Module UseApiKeysEffect.

(** What [JSON.parse] gives is not checked against [ApiKeys], so after
    the load the state [keys] is an object with whatever members the
    stored text gave it: the list of its members, a later one replacing
    an earlier one of the same name. *)
Definition keys_object (k : ApiKeys) : list (jsstring * value) :=
  [(js "tmdb", VStr (tmdb k)); (js "tvdb", VStr (tvdb k));
   (js "gemini", VStr (gemini k))].

Fixpoint indexed (i : nat) (l : list value) : list (jsstring * value) :=
  match l with
  | [] => []
  | x :: l' => (Z_to_js (Z.of_nat i), x) :: indexed (S i) l'
  end.

(** The members [{...v}] copies: the own enumerable properties of [v];
    none for [undefined], [null], a boolean or a number. *)
Definition spread (v : value) : list (jsstring * value) :=
  match v with
  | VObj m => m
  | VArr l => indexed 0 l
  | VStr s => indexed 0 (List.map (fun c => VStr [c]) s)
  | _ => []
  end.

Record Loaded := mkLoaded {
  loaded_keys : list (jsstring * value);
  loaded_isReady : bool
}.

(** The effect run when the hook is mounted.  Reading the storage is
    taken to succeed; a text that is not JSON makes [JSON.parse] throw,
    which the [catch] swallows. *)
Definition load (h : Hook) : Loaded :=
  let prevKeys := keys_object (keys h) in
  match getItem API_KEYS_STORAGE_KEY (localStorage h) with
  | Some (c :: storedKeys) =>
      match JSON_parse (c :: storedKeys) with
      | Some parsed => mkLoaded (prevKeys ++ spread parsed) true
      | None => mkLoaded prevKeys true
      end
  | _ => mkLoaded prevKeys true
  end.

(** [keys.k?.trim()] for the member [x] named [k] of the loaded state. *)
Definition optional_trim (k : jsstring) (x : value) : outcome value :=
  match x with
  | VUndefined | VNull => Ok VUndefined
  | VStr s => Ok (VStr (trim s))
  | _ => Throw (new_TypeError
                  (js "keys." ++ k ++ js "?.trim is not a function"))
  end.

Definition trimmed_member (k : jsstring) (ks : list (jsstring * value))
  : outcome value :=
  optional_trim k (own_property k ks).

(** [areKeysSetup] over the loaded state; [&&] evaluates its right
    operand only when the left one is truthy. *)
Definition areKeysSetup_loaded (ks : list (jsstring * value)) : outcome bool :=
  obind (trimmed_member (js "tmdb") ks) (fun a =>
  if truthy a then
    obind (trimmed_member (js "tvdb") ks) (fun b =>
    if truthy b then
      obind (trimmed_member (js "gemini") ks) (fun c =>
      Ok (truthy c))
    else Ok false)
  else Ok false).

End UseApiKeysEffect.

(** ** pages/ConfigurePage.tsx: the key file *)

Module ConfigureFile.
Import ConfigurePage.

(** [JSON.stringify(keysToExport, null, 2)]: one member a line, indented
    by two spaces. *)
Definition stringify_indented (k : ApiKeys) : jsstring :=
  js "{" ++ [10%N]
  ++ js "  " ++ JSON_quote (js "tmdb") ++ js ": " ++ JSON_quote (tmdb k)
  ++ js "," ++ [10%N]
  ++ js "  " ++ JSON_quote (js "tvdb") ++ js ": " ++ JSON_quote (tvdb k)
  ++ js "," ++ [10%N]
  ++ js "  " ++ JSON_quote (js "gemini") ++ js ": " ++ JSON_quote (gemini k)
  ++ [10%N] ++ js "}".

(** [handleExportKeys]: the text of the file offered for download. *)
Definition handleExportKeys (p : Page) : jsstring :=
  stringify_indented (mkApiKeys (tmdbKey p) (tvdbKey p) (geminiKey p)).

Definition invalid_format : jsstring := js "Invalid key file format.".

Definition unreadable : jsstring :=
  js "Could not read the key file. Please ensure it is a valid JSON file.".

(** The body of the [try] block of [reader.onload]: the new state and
    the alert shown, if any. *)
Definition import_keys (text : jsstring) (p : Page)
  : outcome (Page * option jsstring) :=
  match JSON_parse text with
  | None => Throw (new_SyntaxError (js "Unexpected token in JSON"))
  | Some importedKeys =>
      obind (get (js "tmdb") importedKeys) (fun t =>
      match t with
      | VStr t =>
          obind (get (js "tvdb") importedKeys) (fun v =>
          match v with
          | VStr v =>
              obind (get (js "gemini") importedKeys) (fun g =>
              match g with
              | VStr g =>
                  Ok (mkPage t v g (showSuccess p) (isSavingAndTesting p)
                        (mkResults None None None), None)
              | _ => Ok (p, Some invalid_format)
              end)
          | _ => Ok (p, Some invalid_format)
          end)
      | _ => Ok (p, Some invalid_format)
      end)
  end.

(** [handleFileChange] once the chosen file is read as [text]. *)
Definition handleFileChange (text : jsstring) (p : Page)
  : Page * option jsstring :=
  match import_keys text p with
  | Ok r => r
  | Throw _ => (p, Some unreadable)
  end.

End ConfigureFile.

(** ** The stream paths and what the handler reads from them *)

Module StreamPaths.
Import StremioHandler.

(** The path /stream/{kind}/tt{id}.json, or
    /stream/{kind}/tt{id}:{season}:{episode}.json. *)
Definition stream_path_of (kind id : jsstring)
    (tail : option (jsstring * jsstring)) : jsstring :=
  js "/stream/" ++ kind ++ js "/" ++ (js "tt" ++ id)
  ++ match tail with
     | Some (season, episode) => js ":" ++ season ++ js ":" ++ episode
     | None => []
     end ++ js ".json".

(** The kind is movie or series, and the identifier, the season and the
    episode are runs of digits. *)
Definition stream_parts (kind id : jsstring)
    (tail : option (jsstring * jsstring)) : Prop :=
  (kind = js "movie" \/ kind = js "series")
  /\ Vocabulary.digits id
  /\ match tail with
     | Some (season, episode) =>
         Vocabulary.digits season /\ Vocabulary.digits episode
     | None => True
     end.

Definition kind_type (kind : jsstring) : MediaType :=
  if jsstring_eqb kind (js "movie") then Movie else Series.

(** The message of the descriptor that reports [error]. *)
Definition shown_message (error : js_error) : jsstring :=
  if instanceof_ApiError error then message error
  else js "An unknown error occurred.".

(** The descriptor that carries a review. *)
Definition review_stream (imdbId : jsstring) (season episode : option jsstring)
    (reviewPoints : list jsstring) : StreamResponse :=
  mkStreams [mkStream (js "Gemini Review " ++ [10024%N])
               (join [10%N] reviewPoints)
               (Some (infoHash imdbId season episode)) true].

End StreamPaths.

(** ** More sample inputs *)

Module MoreSamples.
Import Samples.

(** A catalog that knows nothing: every list it answers with is empty. *)
Definition bare_catalog : request -> outcome Response :=
  fun _ => Ok (mkResponse 200 (q "{'movie_results':[],'tv_results':[],'results':[]}")).

Definition details_body : jsstring :=
  q "{'production_countries':[{'iso_3166_1':'US','name':'United States'}]}".

Definition credits_body : jsstring :=
  q "{'cast':[{'name':'Keanu Reeves'},{'name':'Laurence Fishburne'},"
  ++ q "{'name':'Carrie-Anne Moss'},{'name':'Hugo Weaving'}]}".

(** The catalog, when it also answers the secondary requests of a movie
    and lists the series in a series search. *)
Definition full_catalog : request -> outcome Response :=
  fun req =>
    match req with
    | MovieDetails _ _ => Ok (mkResponse 200 details_body)
    | MovieCredits _ _ => Ok (mkResponse 200 credits_body)
    | SearchTitle Series _ _ =>
        Ok (mkResponse 200 (q "{'results':[" ++ thrones_json ++ q "]}"))
    | _ => catalog req
    end.

End MoreSamples.

(** ** The comparison [x > 0]

    [x > 0] converts [x] to a primitive and then to a number, and is
    true when that number is greater than zero; NaN is not.  Converting
    a value that cannot be written as text throws. *)

Module Comparison.

(** Digits of radix 16, 8 or 2 after the prefix: at least one, all of
    them digits of the radix, and one of them not zero. *)
Definition radix_positive (radix : N) (ds : jsstring) : bool :=
  match ds with
  | [] => false
  | _ =>
      forallb (fun c => match hex_value c with
                        | Some d => (d <? radix)%N
                        | None => false
                        end) ds
      && existsb (fun c => negb (N.eqb c 48)) ds
  end.

(** The number that a text converts to is greater than zero.  White
    space around the text is ignored; the empty text is 0; a sign is
    allowed before a decimal literal and before Infinity only. *)
Definition string_positive (s : jsstring) : bool :=
  match trim s with
  | 48%N :: 120%N :: ds | 48%N :: 88%N :: ds => radix_positive 16 ds
  | 48%N :: 111%N :: ds | 48%N :: 79%N :: ds => radix_positive 8 ds
  | 48%N :: 98%N :: ds | 48%N :: 66%N :: ds => radix_positive 2 ds
  | 45%N :: _ => false
  | 43%N :: t => jsstring_eqb t (js "Infinity") || literal_positive t
  | t => jsstring_eqb t (js "Infinity") || literal_positive t
  end.

Definition number_positive (n : number) : bool :=
  match n with
  | NaN => false
  | Int z => 0 <? z
  | Lit (45%N :: _) => false
  | Lit lx => literal_positive lx
  end.

(** The text of an array element, read as a number, is greater than
    zero.  [undefined] and [null] are written as the empty text, an
    array as its elements separated by commas. *)
Fixpoint printed_positive (v : value) : bool :=
  match v with
  | VNum n => number_positive n
  | VStr s => string_positive s
  | VArr [x] => printed_positive x
  | _ => false
  end.

Definition gt_zero (v : value) : outcome bool :=
  if unprintable v then Throw cannot_convert
  else
    match v with
    | VBool b => Ok b
    | _ => Ok (printed_positive v)
    end.

End Comparison.

(** ** services/metadataService.ts: the details of a series

    The request for the details of a series is one more kind of request.
    A flow is an asynchronous computation whose trace holds the requests
    of the catalog and this one. *)

Module SeriesDetails.
Import Comparison MetadataService.

Inductive fetched :=
| Catalog (r : request)
| TvDetails (tmdbId : value) (apiKey : jsstring).

Definition Flow (A : Type) : Type := list fetched -> outcome A * list fetched.

Definition flow_ret {A} (a : A) : Flow A := fun tr => (Ok a, tr).

Definition flow_bind {A B} (m : Flow A) (f : A -> Flow B) : Flow B :=
  fun tr =>
    match m tr with
    | (Ok a, tr') => f a tr'
    | (Throw e, tr') => (Throw e, tr')
    end.

Definition flow_lift {A} (x : outcome A) : Flow A := fun tr => (x, tr).

Definition flow_throw {A} (e : js_error) : Flow A := flow_lift (Throw e).

(** A computation of the services within a flow: its requests are added
    to the trace as requests of the catalog.  The services do not look
    at the trace, so the computation is run on its own. *)
Definition of_async {A} (m : Async A) : Flow A :=
  fun tr => let '(x, requests) := run m in (x, tr ++ List.map Catalog requests).

(** Running a flow from the empty trace. *)
Definition run_flow {A} (m : Flow A) : outcome A * list fetched := m [].

(** [Season]; the fields hold whatever the catalog's response held. *)
Record Season := mkSeason {
  season_number : value;
  episode_count : value;
  season_name : value
}.

(** [Pick<MediaMetadata, 'seasons' | 'imdbId'>]; [details_imdbId] is
    [undefined] when the response has none. *)
Record Details := mkDetails {
  seasons : list Season;
  details_imdbId : value
}.

(** [l.filter(s => s.season_number > 0)] *)
Fixpoint numbered (l : list value) : outcome (list value) :=
  match l with
  | [] => Ok []
  | s :: rest =>
      obind (get (js "season_number") s) (fun n =>
      obind (gt_zero n) (fun keep =>
      obind (numbered rest) (fun kept =>
      Ok (if keep then s :: kept else kept))))
  end.

(** The callback mapped over the seasons kept. *)
Definition season_of (s : value) : outcome Season :=
  obind (get (js "season_number") s) (fun n =>
  obind (get (js "episode_count") s) (fun c =>
  obind (get (js "name") s) (fun nm =>
  Ok (mkSeason n c nm)))).

(** [data.external_ids?.imdb_id || undefined] *)
Definition external_imdb_id (data : value) : outcome value :=
  obind (get (js "external_ids") data) (fun ids =>
    match ids with
    | VUndefined | VNull => Ok VUndefined
    | _ =>
        obind (get (js "imdb_id") ids) (fun id =>
        Ok (if truthy id then id else VUndefined))
    end).

(** What follows the two awaits of [getSeriesDetails]. *)
Definition details_of (data : value) : outcome Details :=
  obind (get (js "seasons") data) (fun all =>
  match all with
  | VArr l =>
      obind (numbered l) (fun kept =>
      obind (map_outcome season_of kept) (fun seasons =>
      obind (external_imdb_id data) (fun imdbId =>
      Ok (mkDetails seasons imdbId))))
  | VUndefined | VNull =>
      Throw (new_TypeError
               (js "Cannot read properties of " ++ type_name all
                  ++ js " (reading 'filter')"))
  | _ => Throw (new_TypeError (js "data.seasons.filter is not a function"))
  end).

Section WithNetwork.

Variable tvDetails : value -> jsstring -> outcome Response.

Definition getSeriesDetails (tmdbId : value) (apiKey : jsstring)
  : Flow Details :=
  flow_bind
    (fun tr => (tvDetails tmdbId apiKey, tr ++ [TvDetails tmdbId apiKey]))
    (fun response =>
  flow_bind (flow_lift (handleApiResponse response (js "TMDB"))) (fun data =>
  flow_lift (details_of data))).

End WithNetwork.

End SeriesDetails.

(** ** components/TestGround.tsx

    The component's state and its handlers; a handler gives the state
    once it has run to its end, or rejects before it has set any.  Of a
    log line, the conversion to text of the title it writes is kept.  The
    message shown while loading and the timer that changes it are left
    out, and so is [handleEpisodeReview], whose request is built from the
    identifier the catalog's response held, whatever it is. *)

Module TestGround.
Import MetadataService GeminiService SeriesDetails StremioHandler.

(** [{ ...metadata, ...details }]: the members of the record, with the
    seasons and the identifier of the details. *)
Record SelectedSeries := mkSelected {
  selected : MediaMetadata;
  selected_seasons : list Season;
  selected_imdbId : value
}.

Record State := mkState {
  query : jsstring;
  type : MediaType;
  isLoading : bool;
  error : option jsstring;
  review : option (list jsstring);
  searchResults : option (list MediaMetadata);
  selectedSeries : option SelectedSeries;
  selectedSeason : jsstring;
  selectedEpisode : jsstring
}.

(** The pattern for an identifier: tt followed by seven or more digits,
    and nothing else. *)
Definition imdbIdRegex_test (s : jsstring) : bool :=
  match s with
  | 116%N :: 116%N :: d => (7 <=? length d)%nat && forallb is_digit d
  | _ => false
  end.

Definition type_text (t : MediaType) : jsstring :=
  match t with Movie => js "movie" | Series => js "series" end.

Definition setError (msg : jsstring) (st : State) : State :=
  mkState (query st) (type st) (isLoading st) (Some msg) (review st)
    (searchResults st) (selectedSeries st) (selectedSeason st)
    (selectedEpisode st).

Definition setReview (points : list jsstring) (st : State) : State :=
  mkState (query st) (type st) (isLoading st) (error st) (Some points)
    (searchResults st) (selectedSeries st) (selectedSeason st)
    (selectedEpisode st).

Definition setIsLoading (b : bool) (st : State) : State :=
  mkState (query st) (type st) b (error st) (review st)
    (searchResults st) (selectedSeries st) (selectedSeason st)
    (selectedEpisode st).

Definition setSearchResults (r : option (list MediaMetadata)) (st : State)
  : State :=
  mkState (query st) (type st) (isLoading st) (error st) (review st)
    r (selectedSeries st) (selectedSeason st) (selectedEpisode st).

(** Every thrown value of the embedding is an Error, so the message
    shown is the error's own. *)
Definition handleGenericError (err : js_error) (st : State) : State :=
  setError (message err) st.

(** [try { ... } catch (err) { handleGenericError(err) } finally
    { setIsLoading(false) }], for a body that starts from the state
    [st]; no body sets the state before a point at which it can
    throw. *)
Definition guarded (body : Flow State) (st : State) : Flow State :=
  fun tr =>
    match body tr with
    | (Ok st', tr') => (Ok (setIsLoading false st'), tr')
    | (Throw err, tr') => (Ok (setIsLoading false (handleGenericError err st)), tr')
    end.

Section WithServices.

Variable net : request -> outcome Response.
Variable tvDetails : value -> jsstring -> outcome Response.
Variable generateContent : GenerateContent.
Variable keys : ApiKeys.

Definition performReviewGeneration (metadata : MediaMetadata) (st : State)
  : Flow State :=
  flow_bind (flow_lift (interpolate [title metadata])) (fun _ =>
  flow_bind (flow_lift (generateReview generateContent metadata (gemini keys)))
    (fun reviewPoints =>
       match reviewPoints with
       | [] =>
           flow_ret
             (setError
                (js "Failed to generate a review. The AI might be busy or the content is too new.")
                st)
       | _ => flow_ret (setReview reviewPoints st)
       end)).

(** The first log line, which writes the title, comes before the [try]
    block and before the state is set. *)
Definition handleSelectResult (metadata : MediaMetadata) (st : State)
  : Flow State :=
  let st1 :=
    mkState (query st) (type st) true None None None (selectedSeries st)
      (selectedSeason st) (selectedEpisode st) in
  flow_bind (flow_lift (interpolate [title metadata])) (fun _ =>
  guarded
    (match Types.type metadata with
     | Movie => performReviewGeneration metadata st1
     | Series =>
         match tmdbId metadata with
         | Some id =>
             if truthy id then
               flow_bind (getSeriesDetails tvDetails id (tmdb keys))
                 (fun details =>
                    flow_ret
                      (mkState (query st1) (type st1) (isLoading st1)
                         (error st1) (review st1) (searchResults st1)
                         (Some (mkSelected metadata (seasons details)
                                  (details_imdbId details)))
                         [] []))
             else
               flow_throw (mkError OtherError (js "Error")
                             (js "Series is missing a TMDB ID for detail lookup."))
         | None =>
             flow_throw (mkError OtherError (js "Error")
                           (js "Series is missing a TMDB ID for detail lookup."))
         end
     end)
    st1).

Definition handleSubmit (st : State) : Flow State :=
  match trim (query st) with
  | [] => flow_ret st
  | _ =>
      if isLoading st then flow_ret st
      else
        let st1 :=
          mkState (query st) (type st) true None None None None
            (selectedSeason st) (selectedEpisode st) in
        let trimmedQuery := trim (query st) in
        guarded
          (if imdbIdRegex_test trimmedQuery then
             flow_bind
               (of_async
                  (getMetadata net
                     (mkGetParams (type st) trimmedQuery None None (tmdb keys))))
               (fun metadata =>
                  match metadata with
                  | None =>
                      flow_ret
                        (setError
                           (js "Could not find a " ++ type_text (type st)
                              ++ js " with IMDb ID: " ++ trimmedQuery) st1)
                  | Some metadata =>
                      match type st with
                      | Movie => performReviewGeneration metadata st1
                      | Series => handleSelectResult metadata st1
                      end
                  end)
           else
             flow_bind
               (of_async
                  (searchByTitle net
                     (mkSearchParams trimmedQuery (type st) (tmdb keys))))
               (fun results =>
                  match results with
                  | [] =>
                      flow_ret
                        (setError
                           (js "Could not find any matching results. Try being more specific!")
                           st1)
                  | [result] =>
                      flow_bind (flow_lift (interpolate [title result]))
                        (fun _ => handleSelectResult result st1)
                  | _ => flow_ret (setSearchResults (Some results) st1)
                  end))
          st1
  end.

(** [handleSeasonChange], for the value chosen. *)
Definition handleSeasonChange (chosen : jsstring) (st : State) : State :=
  mkState (query st) (type st) (isLoading st) (error st) (review st)
    (searchResults st) (selectedSeries st) chosen [].

End WithServices.

End TestGround.

(** ** The vocabulary of the properties of the test ground *)

Module TestGroundVocabulary.
Import SeriesDetails TestGround.

(** The record made of a season of the response. *)
Definition season_fields (s : value) : Season :=
  mkSeason (Vocabulary.field (js "season_number") s)
    (Vocabulary.field (js "episode_count") s)
    (Vocabulary.field (js "name") s).

(** The season is an object whose number is an integer. *)
Definition integer_season (s : value) : Prop :=
  exists m z, s = VObj m /\ own_property (js "season_number") m = VNum (Int z).

(** The number of the season is an integer greater than zero. *)
Definition regular_season (s : value) : bool :=
  match Vocabulary.field (js "season_number") s with
  | VNum (Int z) => 0 <? z
  | _ => false
  end.

(** The state a submission starts from: loading, with the results of
    the submission before it cleared. *)
Definition submitted (st : State) : State :=
  mkState (query st) (type st) true None None None None
    (selectedSeason st) (selectedEpisode st).

(** The state a selection starts from. *)
Definition selecting (st : State) : State :=
  mkState (query st) (type st) true None None None (selectedSeries st)
    (selectedSeason st) (selectedEpisode st).

(** The handler has come to its end with exactly one thing to show: an
    error, a review, the seasons of a series, or a list of two or more
    results to choose from. *)
Definition settled (st : State) : Prop :=
  isLoading st = false
  /\ ((exists msg, error st = Some msg
       /\ review st = None /\ searchResults st = None
       /\ selectedSeries st = None)
      \/ (exists line lines, review st = Some (line :: lines)
          /\ error st = None /\ searchResults st = None
          /\ selectedSeries st = None)
      \/ (exists series, selectedSeries st = Some series
          /\ error st = None /\ review st = None
          /\ searchResults st = None)
      \/ (exists m1 m2 ms, searchResults st = Some (m1 :: m2 :: ms)
          /\ error st = None /\ review st = None
          /\ selectedSeries st = None)).

End TestGroundVocabulary.

(** ** Computations that only add to the trace *)

Module Traces.

(** The computation does not look at the requests issued before it: it
    gives the same result after any trace, and adds its own requests at
    the end. *)
Definition appends {A} (m : Async A) : Prop :=
  forall tr, m tr = (fst (m []), tr ++ snd (m [])).

End Traces.

(** ** Sample inputs of the test ground *)

Module TestSamples.
Import Samples TestGround.

Definition tv_body : jsstring :=
  q "{'seasons':[{'season_number':0,'episode_count':3,'name':'Specials'},"
  ++ q "{'season_number':1,'episode_count':10,'name':'Season 1'},"
  ++ q "{'season_number':2,'episode_count':8,'name':'Season 2'}],"
  ++ q "'external_ids':{'imdb_id':'tt0944947'}}".

(** The answer to the request for the details of any series. *)
Definition thrones_details : value -> jsstring -> outcome Response :=
  fun _ _ => Ok (mkResponse 200 tv_body).

(** The component as it is first shown, with a query typed in. *)
Definition asking (text : jsstring) (t : MediaType) : State :=
  mkState text t false None None None None [] [].

End TestSamples.

(** * Properties *)

(** ** The built-ins on sample inputs *)

Module JsExamples.

Example q_writes_double_quotes : q "['a']" = [91; 34; 97; 34; 93]%N.
Proof. reflexivity. Qed.

Example JSON_parse_nested :
  JSON_parse (q "{'a': [1, -2.5e3, true, null], 'b': {'c': 'x\u00e9\n'}}")
  = Some (VObj [(js "a", VArr [VNum (Int 1); VNum (Lit (js "-2.5e3"));
                               VBool true; VNull]);
                (js "b", VObj [(js "c", VStr [120; 233; 10]%N)])]).
Proof. vm_compute. reflexivity. Qed.

Example JSON_parse_rejects_trailing_comma : JSON_parse (js "[1,]") = None.
Proof. vm_compute. reflexivity. Qed.

Example JSON_parse_rejects_leading_zero : JSON_parse (js "[01]") = None.
Proof. vm_compute. reflexivity. Qed.

Example JSON_parse_rejects_two_values : JSON_parse (js "[] []") = None.
Proof. vm_compute. reflexivity. Qed.

Example JSON_parse_rejects_raw_newline :
  JSON_parse ([34; 97; 10; 34]%N) = None.
Proof. vm_compute. reflexivity. Qed.

Example JSON_parse_rejects_single_quotes : JSON_parse (js "['a']") = None.
Proof. vm_compute. reflexivity. Qed.

Example JSON_parse_rejects_open_array : JSON_parse (js "[[1]") = None.
Proof. vm_compute. reflexivity. Qed.

Example JSON_quote_escapes :
  JSON_quote ([97; 34; 92; 10; 1]%N) = q "'a\'\\\n\u0001'".
Proof. vm_compute. reflexivity. Qed.

Example parseInt_year : parseInt (split_head 45 (js "1999-03-30")) = Int 1999.
Proof. vm_compute. reflexivity. Qed.

Example parseInt_prefix : parseInt (js "  42abc") = Int 42.
Proof. vm_compute. reflexivity. Qed.

Example parseInt_hex : parseInt (js "-0x1F") = Int (-31).
Proof. vm_compute. reflexivity. Qed.

Example parseInt_nothing : parseInt (js "abc") = NaN.
Proof. vm_compute. reflexivity. Qed.

Example substring_swaps_and_clamps :
  substring (js "abcdef") 4 1 = js "bcd" /\ substring (js "abc") (-2) 99 = js "abc".
Proof. split; vm_compute; reflexivity. Qed.

Example indexOf_and_lastIndexOf :
  indexOf (js "[") (js "a[b[c") = 1 /\ lastIndexOf (js "[") (js "a[b[c") = 3
  /\ indexOf (js "[") (js "abc") = -1 /\ lastIndexOf (js "]") (js "abc") = -1.
Proof. repeat split; vm_compute; reflexivity. Qed.

Example trim_both_ends : trim ([32; 10; 97; 32; 98; 9; 160]%N) = js "a b".
Proof. vm_compute. reflexivity. Qed.

Example toLowerCase_ascii :
  toLowerCase (js "API Key not valid") = js "api key not valid".
Proof. vm_compute. reflexivity. Qed.

Example toString_of_error :
  toString (new_RateLimitError (js "TMDB"))
  = js "RateLimitError: Rate limit exceeded for TMDB. Please try again later.".
Proof. vm_compute. reflexivity. Qed.

Example to_int32_wraps :
  to_int32 2147483648 = -2147483648 /\ to_int32 (-2147483649) = 2147483647
  /\ to_int32 4294967296 = 0.
Proof. repeat split; vm_compute; reflexivity. Qed.

Example Z_to_hex_negative : Z_to_hex (-255) = js "-ff" /\ Z_to_hex 0 = js "0".
Proof. split; vm_compute; reflexivity. Qed.

Example code_point_heads_pair :
  code_point_heads ([97; 55357; 56397; 98]%N) = [97; 55357; 98]%N.
Proof. vm_compute. reflexivity. Qed.

Import StremioHandler.

Example stream_pattern_episode :
  (fun c => (c 1%nat, c 2%nat, c 3%nat, c 4%nat))
    <$> regex_search stream_pattern (js "/stream/series/tt0944947:1:2.json")
  = Some (Some (js "series"), Some (js "tt0944947"), Some (js "1"), Some (js "2")).
Proof. vm_compute. reflexivity. Qed.

Example stream_pattern_movie :
  (fun c => (c 1%nat, c 2%nat, c 3%nat, c 4%nat))
    <$> regex_search stream_pattern (js "/stream/movie/tt0133093.json")
  = Some (Some (js "movie"), Some (js "tt0133093"), None, None).
Proof. vm_compute. reflexivity. Qed.

End JsExamples.

(** ** Strings *)

Module JsFacts.

Lemma jsstring_eqb_eq (a b : jsstring) : jsstring_eqb a b = true <-> a = b.
Proof. unfold jsstring_eqb. destruct (decide (a = b)); split; congruence. Qed.

Lemma startsWith_unit (c : N) (s : jsstring) :
  startsWith [c] s = match s with b :: _ => N.eqb c b | [] => false end.
Proof. destruct s as [|b s]; simpl; [reflexivity|]. apply andb_true_r. Qed.

(** The first occurrence of a code unit. *)
Lemma indexOf_from_absent (c : N) (s : jsstring) (i : Z) :
  ~ In c s -> indexOf_from [c] s i = -1.
Proof.
  revert i. induction s as [|b s IH]; intros i Hn; simpl; [reflexivity|].
  destruct (N.eqb_spec c b) as [->|Hcb].
  - exfalso. apply Hn. now left.
  - simpl. apply IH. intros H. apply Hn. now right.
Qed.

Lemma indexOf_from_first (c : N) (pre rest : jsstring) (i : Z) :
  ~ In c pre ->
  indexOf_from [c] (pre ++ c :: rest) i = i + Z.of_nat (length pre).
Proof.
  revert i. induction pre as [|b pre IH]; intros i Hn; simpl.
  - rewrite N.eqb_refl. simpl. lia.
  - destruct (N.eqb_spec c b) as [->|Hcb].
    + exfalso. apply Hn. now left.
    + simpl. rewrite IH; [lia|]. intros H. apply Hn. now right.
Qed.

Lemma first_occurrence (c : N) (s : jsstring) :
  In c s -> exists pre rest, s = pre ++ c :: rest /\ ~ In c pre.
Proof.
  induction s as [|b s IH]; intros Hin; [destruct Hin|].
  destruct (N.eq_dec c b) as [->|Hcb].
  - exists [], s. split; [reflexivity|]. intros [].
  - destruct Hin as [Heq|Hin]; [congruence|].
    destruct (IH Hin) as (pre & rest & -> & Hpre).
    exists (b :: pre), rest. split; [reflexivity|].
    intros [Hb|Hb]; [congruence|auto].
Qed.

Lemma last_occurrence (c : N) (s : jsstring) :
  In c s -> exists pre post, s = pre ++ c :: post /\ ~ In c post.
Proof.
  induction s as [|b s IH]; intros Hin; [destruct Hin|].
  destruct (in_dec N.eq_dec c s) as [Hs|Hs].
  - destruct (IH Hs) as (pre & post & -> & Hpost).
    exists (b :: pre), post. split; [reflexivity|assumption].
  - destruct Hin as [Heq|Hin]; [subst b|contradiction].
    exists [], s. split; [reflexivity|assumption].
Qed.

(** The last occurrence of a code unit. *)
Lemma lastIndexOf_from_absent (c : N) (s : jsstring) (i found : Z) :
  ~ In c s -> lastIndexOf_from [c] s i found = found.
Proof.
  revert i found. induction s as [|b s IH]; intros i found Hn; simpl;
    [reflexivity|].
  destruct (N.eqb_spec c b) as [->|Hcb].
  - exfalso. apply Hn. now left.
  - simpl. apply IH. intros H. apply Hn. now right.
Qed.

Lemma lastIndexOf_from_last (c : N) (pre post : jsstring) (i found : Z) :
  ~ In c post ->
  lastIndexOf_from [c] (pre ++ c :: post) i found = i + Z.of_nat (length pre).
Proof.
  revert i found. induction pre as [|b pre IH]; intros i found Hn.
  - cbn [app lastIndexOf_from]. rewrite startsWith_unit, N.eqb_refl.
    rewrite lastIndexOf_from_absent by assumption. simpl. lia.
  - cbn [app lastIndexOf_from]. rewrite IH by assumption.
    cbn [length]. lia.
Qed.

Lemma substring_middle (pre mid post : jsstring) :
  substring (pre ++ mid ++ post) (Z.of_nat (length pre))
            (Z.of_nat (length pre + length mid)) = mid.
Proof.
  unfold substring, clamp. rewrite !length_app.
  replace (Z.min (Z.min (Z.max (Z.of_nat (length pre)) 0) _) _)
    with (Z.of_nat (length pre)) by lia.
  replace (Z.max (Z.min (Z.max (Z.of_nat (length pre)) 0) _) _)
    with (Z.of_nat (length pre + length mid)) by lia.
  rewrite Nat2Z.id.
  replace (Z.to_nat (Z.of_nat (length pre + length mid) - Z.of_nat (length pre)))
    with (length mid) by lia.
  rewrite drop_app_length. apply take_app_length.
Qed.



End JsFacts.

(** ** The review synthesizer *)

Module GeminiFacts.

Import JsFacts GeminiService Vocabulary.

Lemma extractJsonArray_parsed text :
  extractJsonArray text =
  if (indexOf [91%N] text =? -1) || (lastIndexOf [93%N] text =? -1)
     || (lastIndexOf [93%N] text <? indexOf [91%N] text)
  then None
  else parsed_array (substring text (indexOf [91%N] text)
                               (lastIndexOf [93%N] text + 1)).
Proof.
  unfold extractJsonArray, parsed_array. change (js "[") with [91%N].
  change (js "]") with [93%N].
  destruct (_ || _ || _); [reflexivity|].
  destruct (JSON_parse _) as [[]|]; reflexivity.
Qed.

Lemma extractJsonArray_between (pre mid post : jsstring) :
  ~ In 91%N pre -> ~ In 93%N post ->
  extractJsonArray (pre ++ 91%N :: mid ++ 93%N :: post)
  = parsed_array (91%N :: mid ++ [93%N]).
Proof.
  intros Hpre Hpost. rewrite extractJsonArray_parsed.
  unfold indexOf, lastIndexOf.
  rewrite indexOf_from_first by assumption.
  replace (pre ++ 91%N :: mid ++ 93%N :: post)
    with ((pre ++ 91%N :: mid) ++ 93%N :: post)
    by (rewrite <- app_assoc; reflexivity).
  rewrite lastIndexOf_from_last by assumption.
  rewrite length_app. cbn [length].
  replace (_ =? -1) with false by (symmetry; apply Z.eqb_neq; lia).
  replace (_ =? -1) with false by (symmetry; apply Z.eqb_neq; lia).
  replace (_ <? _) with false by (symmetry; apply Z.ltb_ge; lia).
  cbn [orb].
  replace ((pre ++ 91%N :: mid) ++ 93%N :: post)
    with (pre ++ (91%N :: mid ++ [93%N]) ++ post)
    by (rewrite <- !app_assoc; cbn; rewrite <- app_assoc; reflexivity).
  replace (0 + Z.of_nat (length pre + S (length mid)) + 1)
    with (Z.of_nat (length pre + length (91%N :: mid ++ [93%N])))
    by (cbn [length]; rewrite length_app; cbn [length]; lia).
  replace (0 + Z.of_nat (length pre)) with (Z.of_nat (length pre)) by lia.
  rewrite substring_middle. reflexivity.
Qed.

Lemma extractJsonArray_no_pair (text : jsstring) :
  (forall pre mid post, text <> pre ++ 91%N :: mid ++ 93%N :: post) ->
  extractJsonArray text = None.
Proof.
  intros Hno. rewrite extractJsonArray_parsed.
  destruct (in_dec N.eq_dec 91%N text) as [Hl|Hl].
  2:{ unfold indexOf. rewrite indexOf_from_absent by assumption. reflexivity. }
  destruct (in_dec N.eq_dec 93%N text) as [Hr|Hr].
  2:{ unfold lastIndexOf at 1. rewrite lastIndexOf_from_absent by assumption.
      rewrite orb_true_r. reflexivity. }
  destruct (first_occurrence _ _ Hl) as (pre & rest & E1 & Hpre).
  destruct (last_occurrence _ _ Hr) as (pre' & post & E2 & Hpost).
  assert (Hi : indexOf [91%N] text = Z.of_nat (length pre)).
  { rewrite E1. unfold indexOf. rewrite indexOf_from_first by assumption. lia. }
  assert (Hj : lastIndexOf [93%N] text = Z.of_nat (length pre')).
  { rewrite E2. unfold lastIndexOf. rewrite lastIndexOf_from_last by assumption. lia. }
  rewrite Hi, Hj.
  destruct (Z.ltb_spec (Z.of_nat (length pre')) (Z.of_nat (length pre))) as [Hlt|Hge].
  { rewrite orb_true_r. reflexivity. }
  exfalso. rewrite E1 in E2.
  apply app_eq_app in E2. destruct E2 as (l & [[Ea Eb]|[Ea Eb]]).
  - destruct l as [|x l].
    + cbn in Eb. congruence.
    + rewrite Ea, length_app in Hge. cbn in Hge. lia.
  - destruct l as [|x l].
    + cbn in Eb. congruence.
    + cbn in Eb. injection Eb as Ex Eb. subst x.
      apply (Hno pre l post). rewrite E1, Eb. reflexivity.
Qed.

Lemma as_strings_verbatim (l : list value) :
  forallb is_string l = true -> List.map VStr (as_strings l) = l.
Proof.
  induction l as [|v l IH]; [reflexivity|].
  destruct v; cbn; try discriminate. intros H. now rewrite IH.
Qed.

Lemma map_VStr_strings (l : list jsstring) :
  forallb is_string (List.map VStr l) = true
  /\ as_strings (List.map VStr l) = l.
Proof.
  induction l as [|s l [IH1 IH2]]; [split; reflexivity|].
  cbn. rewrite IH1, IH2. split; reflexivity.
Qed.

(** The two errors the [try] block throws itself go through the [catch]
    block as they are. *)
Lemma catch_invalid_array :
  generateReview_catch invalid_array_error = invalid_array_error.
Proof. vm_compute. reflexivity. Qed.

Lemma catch_blocked : generateReview_catch blocked_error = blocked_error.
Proof. vm_compute. reflexivity. Qed.

Section WithModel.

Variable generateContent : GenerateContent.

Lemma generateReview_nonempty_key md c key :
  generateReview generateContent md (c :: key) =
  match generateReview_try generateContent md (c :: key) with
  | Ok reviewPoints => Ok reviewPoints
  | Throw error => Throw (generateReview_catch error)
  end.
Proof. reflexivity. Qed.

(** What the [try] block does once the model has answered with a
    candidate and a text. *)
Lemma generateReview_try_answered md key response t :
  generateContent key (ReviewPrompt md) = Ok response ->
  no_candidates response = false ->
  text response = Some t ->
  generateReview_try generateContent md key =
  match extractJsonArray (trim t) with
  | Some reviewPoints =>
      if forallb is_string reviewPoints then Ok (as_strings reviewPoints)
      else Throw invalid_array_error
  | None => Throw invalid_array_error
  end.
Proof.
  intros Hc Hn Ht. unfold generateReview_try. rewrite Hc. cbn.
  rewrite Hn, Ht. cbn. reflexivity.
Qed.

Lemma generateReview_try_blocked md key response :
  generateContent key (ReviewPrompt md) = Ok response ->
  no_candidates response = true ->
  generateReview_try generateContent md key = Throw blocked_error.
Proof.
  intros Hc Hn. unfold generateReview_try. rewrite Hc. cbn.
  rewrite Hn. reflexivity.
Qed.

End WithModel.

Lemma generateReview_catch_classified (error : js_error) :
  instanceof_ApiError (generateReview_catch error) = true.
Proof.
  unfold generateReview_catch.
  destruct (includes _ _); [reflexivity|].
  destruct (_ || _); [reflexivity|].
  destruct (instanceof_ApiError error) eqn:H; [exact H|reflexivity].
Qed.

Lemma instanceof_ApiError_kind (e : js_error) :
  instanceof_ApiError e = true -> exists k, kind_of e = Some k.
Proof.
  unfold instanceof_ApiError, kind_of. destruct (cls e); eauto. discriminate.
Qed.

(** C1, as amended.  Whenever [generateReview] succeeds, the model
    answered with a text, the text between its first opening and its last
    closing bracket parsed to an array of strings, and the value returned
    is that array as it is, whatever its length and whether or not its
    strings are empty.  When the model answers with a candidate and a text
    from which no array of strings is extracted, [generateReview] fails
    with the Generic error that says so. *)
Theorem generateReview_success_is_parsed_array
    (generateContent : GenerateContent) (md : MediaMetadata)
    (key : jsstring) :
  (forall l : list jsstring,
     generateReview generateContent md key = Ok l ->
     exists response t,
       generateContent key (ReviewPrompt md) = Ok response
       /\ no_candidates response = false
       /\ text response = Some t
       /\ extractJsonArray (trim t) = Some (List.map VStr l))
  /\ (forall response t,
        key <> [] ->
        generateContent key (ReviewPrompt md) = Ok response ->
        no_candidates response = false ->
        text response = Some t ->
        (forall l : list jsstring,
           extractJsonArray (trim t) <> Some (List.map VStr l)) ->
        generateReview generateContent md key = Throw invalid_array_error
        /\ kind_of invalid_array_error = Some Generic).
Proof.
  split.
  - intros l. destruct key as [|c key]; [discriminate|].
    rewrite generateReview_nonempty_key. unfold generateReview_try.
    destruct (generateContent (c :: key) (ReviewPrompt md)) as [response|e] eqn:Hc;
      cbn; [|discriminate].
    destruct (no_candidates response) eqn:Hn; [discriminate|].
    destruct (text response) as [t|] eqn:Ht; cbn; [|discriminate].
    destruct (extractJsonArray (trim t)) as [arr|] eqn:He; [|discriminate].
    destruct (forallb is_string arr) eqn:Hs; [|discriminate].
    intros [= <-]. exists response, t. repeat split; try assumption.
    now rewrite as_strings_verbatim.
  - intros response t Hk Hc Hn Ht Hno. split; [|reflexivity].
    destruct key as [|c key]; [congruence|].
    rewrite generateReview_nonempty_key.
    rewrite (generateReview_try_answered _ _ _ _ _ Hc Hn Ht).
    destruct (extractJsonArray (trim t)) as [arr|] eqn:He.
    + destruct (forallb is_string arr) eqn:Hs.
      * exfalso. apply (Hno (as_strings arr)).
        now rewrite as_strings_verbatim.
      * now rewrite catch_invalid_array.
    + now rewrite catch_invalid_array.
Qed.

Lemma generateReview_success_is_parsed_array_witness :
  (exists response t,
     Samples.answering (q "['Good fun']") (js "key")
       (ReviewPrompt Samples.matrix_metadata) = Ok response
     /\ no_candidates response = false
     /\ text response = Some t
     /\ extractJsonArray (trim t) = Some (List.map VStr [js "Good fun"]))
  /\ generateReview (Samples.answering (q "['a', 7]")) Samples.matrix_metadata
       (js "key") = Throw invalid_array_error.
Proof.
  split.
  - apply (proj1 (generateReview_success_is_parsed_array
                    (Samples.answering (q "['Good fun']")) Samples.matrix_metadata
                    (js "key"))).
    vm_compute. reflexivity.
  - refine (proj1 (proj2 (generateReview_success_is_parsed_array
                            (Samples.answering (q "['a', 7]"))
                            Samples.matrix_metadata (js "key"))
                     (mkGenResponse (Some [VObj []]) (Some (q "['a', 7]")))
                     (q "['a', 7]") _ eq_refl eq_refl eq_refl _)).
    + discriminate.
    + intros l H. vm_compute in H.
      destruct l as [|a [|b l]]; discriminate.
Defined.

(** C1 as stated fails: a one-line answer is returned as a success. *)
Lemma generateReview_one_line_success :
  generateReview (Samples.answering (q "['Good fun']")) Samples.matrix_metadata (js "key")
    = Ok [js "Good fun"]
  /\ (non_empty_count [js "Good fun"] < 8)%nat.
Proof. split; [vm_compute; reflexivity | cbn; lia]. Qed.

(** C2.  When the model call completes without a candidate, the
    synthesizer fails with the GeminiSafetyError it raised itself: the
    [catch] block hands it on unchanged, and its kind is ContentBlocked,
    not Generic. *)
Theorem generateReview_zero_candidates_ContentBlocked
    (generateContent : GenerateContent) (md : MediaMetadata)
    (key : jsstring) (response : GenerateContentResponse) :
  key <> [] ->
  generateContent key (ReviewPrompt md) = Ok response ->
  candidates response = None \/ candidates response = Some [] ->
  generateReview generateContent md key = Throw blocked_error
  /\ generateReview_catch blocked_error = blocked_error
  /\ cls blocked_error = GeminiSafetyError
  /\ kind_of blocked_error = Some ContentBlocked
  /\ kind_of blocked_error <> Some Generic.
Proof.
  intros Hk Hc Hz. destruct key as [|c key]; [congruence|].
  split; [|split; [apply catch_blocked|repeat split; discriminate]].
  rewrite generateReview_nonempty_key.
  rewrite (generateReview_try_blocked _ _ _ _ Hc).
  - now rewrite catch_blocked.
  - unfold no_candidates. now destruct Hz as [-> | ->].
Qed.

Lemma generateReview_zero_candidates_ContentBlocked_witness :
  generateReview Samples.blocked_model Samples.matrix_metadata (js "key")
    = Throw blocked_error
  /\ generateReview_catch blocked_error = blocked_error
  /\ cls blocked_error = GeminiSafetyError
  /\ kind_of blocked_error = Some ContentBlocked
  /\ kind_of blocked_error <> Some Generic.
Proof.
  apply (generateReview_zero_candidates_ContentBlocked
           Samples.blocked_model Samples.matrix_metadata (js "key")
           (mkGenResponse (Some []) None)).
  - discriminate.
  - reflexivity.
  - right. reflexivity.
Defined.

(** C3.  Extraction parses the text from the first opening bracket to the
    last closing bracket, both included; the two sample texts give the
    array of a and b; without such a pair of brackets it gives nothing;
    and whenever extraction gives nothing, or an array with an element
    that is not a string, the synthesizer fails with the Generic error
    that says the model did not return a valid array of strings. *)
Theorem extractJsonArray_first_to_last_bracket :
  extractJsonArray (q "['a','b']") = Some [VStr (js "a"); VStr (js "b")]
  /\ extractJsonArray (q "noise [ 'a', 'b' ] trailing")
     = Some [VStr (js "a"); VStr (js "b")]
  /\ (forall pre mid post : jsstring,
        ~ In 91%N pre -> ~ In 93%N post ->
        extractJsonArray (pre ++ 91%N :: mid ++ 93%N :: post)
        = parsed_array (91%N :: mid ++ [93%N]))
  /\ (forall text : jsstring,
        (forall pre mid post, text <> pre ++ 91%N :: mid ++ 93%N :: post) ->
        extractJsonArray text = None)
  /\ (forall (generateContent : GenerateContent) md key response t,
        key <> [] ->
        generateContent key (ReviewPrompt md) = Ok response ->
        no_candidates response = false ->
        text response = Some t ->
        extractJsonArray (trim t) = None
        \/ (exists arr, extractJsonArray (trim t) = Some arr
                        /\ forallb is_string arr = false) ->
        generateReview generateContent md key = Throw invalid_array_error
        /\ kind_of invalid_array_error = Some Generic).
Proof.
  split; [vm_compute; reflexivity|].
  split; [vm_compute; reflexivity|].
  split; [exact extractJsonArray_between|].
  split; [exact extractJsonArray_no_pair|].
  intros generateContent md key response t Hk Hc Hn Ht Hbad.
  split; [|reflexivity].
  destruct key as [|c key]; [congruence|].
  rewrite generateReview_nonempty_key.
  rewrite (generateReview_try_answered _ _ _ _ _ Hc Hn Ht).
  destruct Hbad as [-> | (arr & -> & ->)]; now rewrite catch_invalid_array.
Qed.

Lemma extractJsonArray_first_to_last_bracket_witness :
  extractJsonArray (js "see [1, 2] and " ++ q "['x'] done")
    = parsed_array (q "[1, 2] and ['x']")
  /\ extractJsonArray (js "none") = None
  /\ generateReview (Samples.answering (q "['a', 7]")) Samples.matrix_metadata (js "key")
     = Throw invalid_array_error.
Proof.
  destruct extractJsonArray_first_to_last_bracket as (_ & _ & Hb & Hn & Hg).
  split; [|split].
  - apply (Hb (js "see ") (js "1, 2] and " ++ q "['x'") (js " done"));
      vm_compute; intuition discriminate.
  - apply Hn. intros pre mid post H.
    assert (Hin : In 91%N (js "none")) by (rewrite H; apply in_elt).
    vm_compute in Hin. intuition discriminate.
  - apply (Hg (Samples.answering (q "['a', 7]")) Samples.matrix_metadata (js "key")
              (mkGenResponse (Some [VObj []]) (Some (q "['a', 7]")))
              (q "['a', 7]")); try reflexivity; [discriminate|].
    right. eexists. split; vm_compute; reflexivity.
Defined.

End GeminiFacts.

(** ** The catalog resolver *)

Module MetadataFacts.

Import MetadataService Vocabulary.

(** Unfolding the combinators of an asynchronous computation, and
    rewriting with what an awaited call gave. *)
Ltac async_unfold :=
  unfold run, fetchViaProxy, Promise_all2, mbind, async_bind, bind, lift,
    throw, ret;
  cbv beta iota.

Ltac async_rewrite H := rewrite H; cbv beta iota.

Lemma get_field (k : jsstring) (v x : value) :
  get k v = Ok x -> forall k', get k' v = Ok (field k' v).
Proof.
  intros H k'. unfold field. destruct v; cbn in *; try discriminate; reflexivity.
Qed.

Lemma truthy_get_field (k : jsstring) (v : value) :
  truthy v = true -> get k v = Ok (field k v).
Proof.
  intros H. unfold field. destruct v; cbn in *; try discriminate; reflexivity.
Qed.

(** C6.  A response whose status is not in 200-299 is turned into a
    classified error whose kind depends on the status alone: 401 gives
    InvalidCredential, 404 NotFound, 429 RateLimited and every other
    status Generic. *)
Theorem handleApiResponse_kind_by_status
    (response : Response) (serviceName : jsstring) :
  ~ (200 <= status response <= 299) ->
  exists e,
    handleApiResponse response serviceName = Throw e
    /\ kind_of e = Some (kind_of_status (status response)).
Proof.
  intros Hs. unfold handleApiResponse, ok, kind_of_status.
  replace ((200 <=? status response) && (status response <=? 299)) with false
    by (symmetry; apply andb_false_iff; lia).
  eexists. split; [reflexivity|].
  destruct (status response =? 401); [reflexivity|].
  destruct (status response =? 404); [reflexivity|].
  destruct (status response =? 429); reflexivity.
Qed.

Lemma handleApiResponse_kind_by_status_witness :
  exists e,
    handleApiResponse (mkResponse 429 (js "{}")) (js "TMDB") = Throw e
    /\ kind_of e = Some RateLimited.
Proof.
  apply (handleApiResponse_kind_by_status (mkResponse 429 (js "{}")) (js "TMDB")).
  cbn. lia.
Defined.

Section WithNetwork.

Variable net : request -> outcome Response.


(** A match whose name or identifier cannot be written as text makes the
    lookup throw after the identifier request. *)
Lemma run_getMetadata_series_unprintable imdbId season episode apiKey series :
  series_found net imdbId apiKey series ->
  unprintable (field (js "name") series)
  || unprintable (field (js "id") series) = true ->
  run (getMetadata net (mkGetParams Series imdbId season episode apiKey))
  = (Throw cannot_convert, [FindByImdbId imdbId apiKey]).
Proof.
  intros (findResponse & findData & tv_results & Hn & Hh & Ht & Hf & Htr) Hp.
  unfold getMetadata. async_unfold.
  async_rewrite Hn. async_rewrite Hh. async_rewrite Ht. async_rewrite Hf.
  async_rewrite Htr. rewrite !(truthy_get_field _ _ Htr). cbn [negb].
  cbv beta iota. unfold interpolate. cbn [existsb]. rewrite orb_false_r, Hp.
  reflexivity.
Qed.

Lemma season_and_episode_Some season episode s e :
  season_and_episode season episode = Some (s, e) ->
  season = Some s /\ episode = Some e
  /\ number_truthy s = true /\ number_truthy e = true.
Proof.
  unfold season_and_episode. destruct season as [s'|], episode as [e'|];
    try discriminate.
  destruct (number_truthy s') eqn:Hs, (number_truthy e') eqn:He;
    try discriminate.
  intros [= <- <-]. auto.
Qed.


Lemma defined_get_field (k : jsstring) (v : value) :
  v <> VNull -> v <> VUndefined -> get k v = Ok (field k v).
Proof.
  intros H1 H2. unfold field. destruct v; cbn; try reflexivity; congruence.
Qed.


(** What the callback of a movie search gives for a result whose
    secondary lookups are answered, one of them not with a success. *)
Lemma movie_candidate_refused apiKey result year tr :
  enrichment_refused net apiKey result ->
  year_of (field (js "release_date") result) = Ok year ->
  movie_candidate net apiKey result tr =
  (Ok (mkMedia (Some (field (js "id") result)) None
         (field (js "title") result) year (field (js "overview") result)
         Movie None None None (Some (VArr [])) (Some (VStr []))),
   tr ++ [MovieDetails (field (js "id") result) apiKey;
          MovieCredits (field (js "id") result) apiKey]).
Proof.
  intros (id & detailsRes & creditsRes & Hid & Hd & Hc & Hok) Hy.
  pose proof (get_field _ _ _ Hid) as Hget.
  assert (id = field (js "id") result) as ->.
  { rewrite Hget in Hid. congruence. }
  unfold movie_candidate, getMovieDetails. async_unfold.
  rewrite !Hget. cbv beta iota. rewrite Hd, Hc. cbn [obind]. cbv beta iota.
  replace (negb (ok detailsRes) || negb (ok creditsRes)) with true
    by (destruct Hok as [-> | ->]; cbn; [reflexivity|];
        now rewrite orb_true_r).
  cbv beta iota. async_rewrite Hy. now rewrite <- app_assoc.
Qed.

Lemma Promise_all_Forall2 {A B} (f : A -> Async B) (P : A -> B -> Prop)
    (l : list A) :
  Forall (fun a => exists b, P a b /\ forall tr, exists tr', f a tr = (Ok b, tr')) l ->
  forall tr, exists bs tr',
    Promise_all (List.map f l) tr = (Ok bs, tr') /\ Forall2 P l bs.
Proof.
  induction 1 as [|a l (b & Hb & Hf) _ IH]; intros tr.
  - exists [], tr. split; [reflexivity|constructor].
  - destruct (Hf tr) as (tr1 & H1). destruct (IH tr1) as (bs & tr2 & H2 & HP).
    exists (b :: bs), tr2. split; [|now constructor].
    cbn [List.map Promise_all]. rewrite H1, H2. reflexivity.
Qed.

(** C4, as amended.  In a movie search, a result whose secondary lookups
    are answered, one of them with a status that is not a success, is
    returned with an empty cast and an empty origin country; it is not
    dropped, and the search succeeds as long as every other result is
    built without a fault. *)
Theorem searchByTitle_enrichment_refused
    (title apiKey : jsstring) (response : Response) (data : value)
    (l : list value) :
  net (SearchTitle Movie title apiKey) = Ok response ->
  handleApiResponse response (js "TMDB") = Ok data ->
  get (js "results") data = Ok (VArr l) ->
  Forall (fun result =>
            (enrichment_refused net apiKey result
             /\ exists year, year_of (field (js "release_date") result) = Ok year)
            \/ (exists m, forall tr, exists tr',
                   movie_candidate net apiKey result tr = (Ok m, tr'))) l ->
  exists ms,
    fst (run (searchByTitle net (mkSearchParams title Movie apiKey))) = Ok ms
    /\ Forall2 (fun result m =>
                  enrichment_refused net apiKey result ->
                  tmdbId m = Some (field (js "id") result)
                  /\ Types.title m = field (js "title") result
                  /\ cast m = Some (VArr [])
                  /\ originCountry m = Some (VStr [])) l ms.
Proof.
  intros Hn Hh Hr Hall.
  unfold searchByTitle. async_unfold.
  async_rewrite Hn. async_rewrite Hh. async_rewrite Hr. cbn [truthy negb get].
  destruct l as [|r0 l0]; [exists []; split; [reflexivity|constructor]|].
  set (l := r0 :: l0) in *.
  replace (is_zero _) with false by reflexivity. cbv beta iota.
  destruct (Promise_all_Forall2 (movie_candidate net apiKey)
              (fun result m =>
                 enrichment_refused net apiKey result ->
                 tmdbId m = Some (field (js "id") result)
                 /\ Types.title m = field (js "title") result
                 /\ cast m = Some (VArr [])
                 /\ originCountry m = Some (VStr [])) l)
    with ([] ++ [SearchTitle Movie title apiKey]) as (ms & tr' & Hp & HF).
  - eapply Forall_impl; [exact Hall|]. cbv beta.
    intros result [(Href & year & Hy) | (m & Hm)].
    + eexists. split; [|intros tr; eexists;
                         apply (movie_candidate_refused _ _ _ _ Href Hy)].
      intros _. cbn. auto.
    + exists m. split; [|exact Hm].
      intros Href. destruct Href as (id & dr & cr & Hid & Hd & Hc & Hok).
      destruct (Hm []) as (tr1 & Hm1). revert Hm1.
      pose proof (get_field _ _ _ Hid) as Hget.
      unfold movie_candidate, getMovieDetails. async_unfold.
      rewrite !Hget. cbv beta iota.
      assert (id = field (js "id") result) as <-.
      { rewrite Hget in Hid. congruence. }
      rewrite Hd, Hc. cbn [obind]. cbv beta iota.
      replace (negb (ok dr) || negb (ok cr)) with true
        by (destruct Hok as [-> | ->]; cbn; [reflexivity|];
            now rewrite orb_true_r).
      cbv beta iota. destruct (year_of _); cbv beta iota; [|discriminate].
      intros [= <- _]. cbn. auto.
  - exists ms. rewrite Hp. split; [reflexivity|exact HF].
Qed.

End WithNetwork.

Import Samples.




Lemma searchByTitle_enrichment_refused_witness :
  exists ms,
    fst (run (searchByTitle catalog
                (mkSearchParams (js "matrix") Movie (js "k")))) = Ok ms
    /\ Forall2 (fun result m =>
                  enrichment_refused catalog (js "k") result ->
                  tmdbId m = Some (field (js "id") result)
                  /\ Types.title m = field (js "title") result
                  /\ cast m = Some (VArr [])
                  /\ originCountry m = Some (VStr [])) [matrix_result] ms.
Proof.
  apply (searchByTitle_enrichment_refused catalog (js "matrix") (js "k")
           (mkResponse 200 search_body)
           (VObj [(js "results", VArr [matrix_result])]) [matrix_result]).
  - reflexivity.
  - vm_compute. reflexivity.
  - vm_compute. reflexivity.
  - constructor; [|constructor]. left. split.
    + exists (VNum (Int 603)), (mkResponse 404 (js "{}")),
        (mkResponse 200 (q "{'cast':[{'name':'Keanu Reeves'}]}")).
      repeat split. left. reflexivity.
    + exists (Int 1999). vm_compute. reflexivity.
Defined.

(** C4 as stated fails: when a secondary request is rejected by the
    transport, the whole search is rejected with that fault. *)
Lemma searchByTitle_fails_when_details_unreachable :
  catalog_details_unreachable (MovieDetails (VNum (Int 603)) (js "k"))
    = Throw (new_TypeError (js "Failed to fetch"))
  /\ fst (run (searchByTitle catalog_details_unreachable
                 (mkSearchParams (js "matrix") Movie (js "k"))))
     = Throw (new_TypeError (js "Failed to fetch")).
Proof. split; vm_compute; reflexivity. Qed.

End MetadataFacts.

(** ** Regular expressions *)

Module RegexFacts.

Import Vocabulary StremioHandler.

Lemma strip_prefix_app (p s s' : jsstring) :
  strip_prefix p s = Some s' <-> s = p ++ s'.
Proof.
  revert s. induction p as [|a p IH]; intros s; cbn.
  - split; congruence.
  - destruct s as [|b s]; [split; discriminate|].
    destruct (N.eqb_spec a b) as [->|Hab].
    + rewrite IH. split; [intros ->; reflexivity|intros [= ->]; reflexivity].
    + split; [discriminate|intros [= ? ?]; congruence].
Qed.

Lemma digits_star_sound {R} (s : jsstring) (k : jsstring -> option R) x :
  digits_star s k = Some x ->
  exists m s', s = m ++ s' /\ Forall (fun c => is_digit c = true) m
               /\ k s' = Some x.
Proof.
  induction s as [|c s IH]; cbn.
  - intros H. exists [], []. auto.
  - destruct (is_digit c) eqn:Hc.
    + destruct (digits_star s k) as [y|] eqn:Hs.
      * intros [= ->]. destruct (IH eq_refl) as (m & s' & -> & Hm & Hk).
        exists (c :: m), s'. repeat split; auto.
      * intros H. exists [], (c :: s). auto.
    + intros H. exists [], (c :: s). auto.
Qed.

Lemma digits_star_complete {R} (m s' : jsstring) (k : jsstring -> option R) :
  Forall (fun c => is_digit c = true) m ->
  k s' <> None -> digits_star (m ++ s') k <> None.
Proof.
  induction 1 as [|c m Hc _ IH]; intros Hk; cbn.
  - destruct s' as [|c s']; [exact Hk|]. cbn.
    destruct (is_digit c); [|exact Hk].
    destruct (digits_star s' k); [discriminate|exact Hk].
  - rewrite Hc. specialize (IH Hk).
    destruct (digits_star (m ++ s') k); [discriminate|contradiction].
Qed.

Lemma rmatch_sound {R} (r : regex) :
  forall (s : jsstring) (c : captures) (k : jsstring -> captures -> option R) x,
    rmatch r s c k = Some x ->
    exists m s' c', s = m ++ s' /\ lang r m /\ k s' c' = Some x.
Proof.
  induction r as [p| |a IHa b IHb|a IHa b IHb|a IHa|i a IHa];
    intros s c k x; cbn [rmatch lang].
  - destruct (strip_prefix p s) as [s'|] eqn:Hp; [|discriminate].
    apply strip_prefix_app in Hp. intros H. exists p, s', c. auto.
  - unfold digits_plus. destruct s as [|d s]; [discriminate|].
    destruct (is_digit d) eqn:Hd; [|discriminate].
    intros H. apply digits_star_sound in H.
    destruct H as (m & s' & -> & Hm & Hk).
    exists (d :: m), s', c. repeat split; auto; discriminate.
  - intros H. apply IHa in H. destruct H as (m1 & s1 & c1 & -> & H1 & H).
    apply IHb in H. destruct H as (m2 & s2 & c2 & -> & H2 & H).
    exists (m1 ++ m2), s2, c2. rewrite <- app_assoc. eauto 10.
  - destruct (rmatch a s c k) as [y|] eqn:Ha.
    + intros [= ->]. apply IHa in Ha.
      destruct Ha as (m & s' & c' & -> & Hm & Hk). eauto 10.
    + intros H. apply IHb in H.
      destruct H as (m & s' & c' & -> & Hm & Hk). eauto 10.
  - destruct (rmatch a s c k) as [y|] eqn:Ha.
    + intros [= ->]. apply IHa in Ha.
      destruct Ha as (m & s' & c' & -> & Hm & Hk). eauto 10.
    + intros H. exists [], s, c. auto.
  - intros H. apply IHa in H. destruct H as (m & s' & c' & -> & Hm & Hk).
    eauto 10.
Qed.

Lemma rmatch_complete {R} (r : regex) :
  forall (m s' : jsstring) (c : captures) (k : jsstring -> captures -> option R),
    lang r m -> (forall c', k s' c' <> None) ->
    rmatch r (m ++ s') c k <> None.
Proof.
  induction r as [p| |a IHa b IHb|a IHa b IHb|a IHa|i a IHa];
    intros m s' c k; cbn [rmatch lang].
  - intros -> Hk. destruct (strip_prefix p (p ++ s')) as [s''|] eqn:Hp.
    + apply strip_prefix_app in Hp. apply app_inv_head in Hp. subst. apply Hk.
    + assert (H : strip_prefix p (p ++ s') = Some s')
        by (now apply strip_prefix_app).
      congruence.
  - intros [Hne Hm] Hk. destruct Hm as [|d m Hd Hm]; [contradiction|].
    cbn. rewrite Hd. apply digits_star_complete; auto.
  - intros (m1 & m2 & -> & H1 & H2) Hk. rewrite <- app_assoc.
    apply IHa; [assumption|]. intros c'. apply IHb; assumption.
  - intros [H|H] Hk.
    + pose proof (IHa _ _ c _ H Hk). destruct (rmatch a _ c k); congruence.
    + destruct (rmatch a _ c k); [discriminate|]. apply IHb; assumption.
  - intros [->|H] Hk.
    + cbn. destruct (rmatch a s' c k); [discriminate|apply Hk].
    + pose proof (IHa _ _ c _ H Hk). destruct (rmatch a _ c k); congruence.
  - intros H Hk. apply IHa; [assumption|]. intros c'. apply Hk.
Qed.

(** The search finds a match exactly when some part of the text is
    matched by the pattern. *)
Lemma regex_search_None (r : regex) (s : jsstring) :
  regex_search r s = None <-> ~ occurs r s.
Proof.
  induction s as [|d s IH].
  - cbn. destruct (rmatch r [] no_captures _) as [c|] eqn:Hm.
    + split; [discriminate|]. intros Hn. exfalso. apply Hn.
      apply rmatch_sound in Hm. destruct Hm as (m & s' & _ & E & Hl & _).
      exists [], m, s'. auto.
    + split; [|reflexivity]. intros _ (pre & m & post & E & Hl).
      symmetry in E. apply app_eq_nil in E. destruct E as [-> E].
      apply app_eq_nil in E. destruct E as [-> ->].
      revert Hm. change [] with (@nil N ++ []) at 1.
      apply rmatch_complete; [assumption|discriminate].
  - cbn [regex_search]. destruct (rmatch r (d :: s) no_captures _) as [c|] eqn:Hm.
    + split; [discriminate|]. intros Hn. exfalso. apply Hn.
      apply rmatch_sound in Hm. destruct Hm as (m & s' & _ & E & Hl & _).
      exists [], m, s'. auto.
    + rewrite IH. split.
      * intros Hn (pre & m & post & E & Hl). destruct pre as [|e pre].
        -- cbn in E. revert Hm. rewrite E.
           apply rmatch_complete; [assumption|discriminate].
        -- injection E as -> ->. apply Hn. exists pre, m, post. auto.
      * intros Hn (pre & m & post & -> & Hl). apply Hn.
        exists (d :: pre), m, post. auto.
Qed.

(** The stream pattern matches the stream paths. *)
Lemma lang_stream_pattern (m : jsstring) :
  lang stream_pattern m <-> stream_path m.
Proof.
  unfold stream_pattern, stream_path, digits. cbn [lang]. split.
  - intros (m1 & r1 & -> & -> & k & r2 & -> & Hk & s1 & r3 & -> & -> &
            i & r4 & -> & (t & d & -> & -> & Hd) & o & j & -> & Ho & ->).
    exists k, d, o. split; [exact Hk|]. split; [exact Hd|]. split.
    + destruct Ho as [->|(c1 & r5 & -> & -> & se & r6 & -> & Hse & c2 & ep &
                           -> & -> & Hep)]; [now left|].
      right. exists se, ep. auto.
    + reflexivity.
  - intros (k & d & o & Hk & Hd & Ho & ->).
    exists (js "/stream/"), (k ++ js "/" ++ (js "tt" ++ d) ++ o ++ js ".json").
    split; [reflexivity|]. split; [reflexivity|].
    exists k, (js "/" ++ (js "tt" ++ d) ++ o ++ js ".json").
    split; [reflexivity|]. split; [exact Hk|].
    exists (js "/"), ((js "tt" ++ d) ++ o ++ js ".json").
    split; [reflexivity|]. split; [reflexivity|].
    exists (js "tt" ++ d), (o ++ js ".json").
    split; [reflexivity|]. split; [exists (js "tt"), d; auto|].
    exists o, (js ".json"). split; [reflexivity|]. split; [|reflexivity].
    destruct Ho as [->|(se & ep & Hse & Hep & ->)]; [now left|].
    right. exists (js ":"), (se ++ js ":" ++ ep).
    split; [reflexivity|]. split; [reflexivity|].
    exists se, (js ":" ++ ep). split; [reflexivity|]. split; [exact Hse|].
    exists (js ":"), ep. auto.
Qed.

Lemma occurs_stream_pattern (pathname : jsstring) :
  occurs stream_pattern pathname <-> contains_stream_path pathname.
Proof.
  unfold occurs, contains_stream_path.
  split; intros (pre & m & post & E & H); exists pre, m, post;
    (split; [exact E|]); now apply lang_stream_pattern.
Qed.

End RegexFacts.

(** ** The stream handler *)

Module StremioFacts.

Import StremioHandler Vocabulary RegexFacts Samples.

(** X22.  The stream identifier is always 40 code units long. *)
Lemma infoHash_length imdbId season episode :
  length (infoHash imdbId season episode) = 40%nat.
Proof.
  unfold infoHash, slice0, padStart. rewrite length_take, length_app, repeat_length.
  lia.
Qed.

Section WithServices.

Variable net : request -> outcome Response.
Variable generateContent : GenerateContent.

(** X23.  Whatever the path and the state of the credentials, the handler ends
    without a fault. *)
Lemma handleRequest_never_throws pathname isReady keys :
  exists r tr,
    run (handleRequest net generateContent pathname isReady keys) = (Ok r, tr).
Proof.
  unfold run, handleRequest.
  destruct (negb (startsWith _ _)); [eexists; eexists; reflexivity|].
  destruct (negb isReady); [eexists; eexists; reflexivity|].
  destruct (negb (areKeysSetup keys)); [eexists; eexists; reflexivity|].
  destruct (regex_search _ _) as [c|]; [|eexists; eexists; reflexivity].
  unfold try_catch.
  match goal with |- context [match ?b [] with _ => _ end] =>
    destruct (b []) as [[a|e] tr'] end;
    eexists; eexists; reflexivity.
Qed.
(** C5, as amended.  For a request under /stream/ no part of whose path
    is a stream path: once the credentials are loaded and all three are
    set, the handler answers with the one-entry descriptor that carries
    the invalid-format message and the not-playable mark;
    with the credentials loaded but not all set, it answers with the
    descriptor that asks for configuration; before the credentials are
    loaded it gives no answer.  In none of these cases does a fault
    escape. *)
Theorem handleRequest_malformed_path (pathname : jsstring) (keys : ApiKeys) :
  startsWith (js "/stream/") pathname = true ->
  ~ contains_stream_path pathname ->
  (areKeysSetup keys = true ->
   run (handleRequest net generateContent pathname true keys)
   = (Ok (Some (mkStreams
                  [mkStream (js "Error") (js "Invalid request format.")
                     None true])), []))
  /\ (areKeysSetup keys = false ->
      run (handleRequest net generateContent pathname true keys)
      = (Ok (Some (createErrorStream
                     (js "API keys not configured. Please configure the addon."))),
         []))
  /\ run (handleRequest net generateContent pathname false keys) = (Ok None, []).
Proof.
  intros Hs Hn. rewrite <- occurs_stream_pattern in Hn.
  apply regex_search_None in Hn.
  unfold run, handleRequest. rewrite Hs, Hn. cbn [negb].
  split; [|split].
  - intros ->. reflexivity.
  - intros ->. reflexivity.
  - reflexivity.
Qed.

End WithServices.

Lemma handleRequest_malformed_path_witness :
  run (handleRequest catalog (answering eight_lines)
         (js "/stream/movie/0133093.json") true configured)
  = (Ok (Some (mkStreams
                 [mkStream (js "Error") (js "Invalid request format.")
                    None true])), []).
Proof.
  refine (proj1 (handleRequest_malformed_path catalog (answering eight_lines)
                   (js "/stream/movie/0133093.json") configured _ _) _).
  - reflexivity.
  - rewrite <- occurs_stream_pattern. apply regex_search_None.
    vm_compute. reflexivity.
  - reflexivity.
Defined.

(** C5 as stated fails: with the credentials loaded but not set, a path
    that the pattern does not match is answered with the request to
    configure the addon, not with the invalid-format message. *)
Lemma unconfigured_malformed_path_asks_for_keys :
  ~ contains_stream_path (js "/stream/movie/0133093.json")
  /\ run (handleRequest catalog (answering eight_lines)
            (js "/stream/movie/0133093.json") true unconfigured)
     = (Ok (Some (createErrorStream
                    (js "API keys not configured. Please configure the addon."))),
        [])
  /\ createErrorStream (js "API keys not configured. Please configure the addon.")
     <> createErrorStream (js "Invalid request format.").
Proof.
  split.
  - rewrite <- occurs_stream_pattern. apply regex_search_None.
    vm_compute. reflexivity.
  - split; [vm_compute; reflexivity|]. discriminate.
Qed.

(** C7 fails on the code.  For the path /stream/movie/tt0133093.json, with
    the credentials set, the movie found and eight review lines returned,
    the rolling hash of tt0133093 is negative, its base-16 text starts
    with a minus sign, and the token of the descriptor, although 40 code
    units long, is not made of hexadecimal digits. *)
Theorem handleRequest_matrix_infoHash :
  run (handleRequest catalog (answering eight_lines)
         (js "/stream/movie/tt0133093.json") true configured)
  = (Ok (Some (mkStreams
                 [mkStream (js "Gemini Review " ++ [10024%N])
                    (js "1 Plot" ++ [10%N] ++ js "2 Look" ++ [10%N]
                     ++ js "3 Cast" ++ [10%N] ++ js "4 Score" ++ [10%N]
                     ++ js "5 Pace" ++ [10%N] ++ js "6 World" ++ [10%N]
                     ++ js "7 Theme" ++ [10%N] ++ js "8 Verdict")
                    (Some (js "0000000000000000000000000000000-7d4632f7"))
                    true])),
     [FindByImdbId (js "tt0133093") (js "k1")])
  /\ infoHash (js "tt0133093") None None
     = js "0000000000000000000000000000000-7d4632f7"
  /\ length (infoHash (js "tt0133093") None None) = 40%nat
  /\ forallb is_hex_digit (infoHash (js "tt0133093") None None) = false.
Proof. repeat split; vm_compute; reflexivity. Qed.

End StremioFacts.

(** ** The logging service *)

Module LoggingFacts.
Import LoggingService Vocabulary Samples.

Lemma alloc_spec (xs : list loc) (h : gmap loc (list loc)) :
  h !! fst (alloc xs h) = None
  /\ snd (alloc xs h) = <[fst (alloc xs h) := xs]> h.
Proof.
  unfold alloc. cbn. split; [|reflexivity].
  apply not_elem_of_dom. apply is_fresh.
Qed.

Lemma getLogs_spec (w : world) :
  wf w ->
  fst (getLogs w) <> logs (this w)
  /\ this (snd (getLogs w)) = this w
  /\ arrays (snd (getLogs w)) = <[fst (getLogs w) := buffer w]> (arrays w)
  /\ entries (snd (getLogs w)) = entries w.
Proof.
  intros [[xs Hw] _]. unfold getLogs, buffer.
  destruct (alloc_spec (read (arrays w) (logs (this w))) (arrays w)) as [Hf Hs].
  destruct (alloc _ _) as [l h'] eqn:Ha. cbn in *.
  repeat split; [|assumption]. intros ->. congruence.
Qed.

(** Calling the listeners changes nothing but the copy they are given. *)
Lemma listeners_fold (copy : loc) (ls : list (positive * LogListener)) :
  forall w : world,
    copy <> logs (this w) ->
    let w' := fold_left
                (fun (w' : world) (f : positive * LogListener) =>
                   mkWorld (alter (snd f) copy (arrays w')) (entries w')
                     (this w'))
                ls w in
    this w' = this w
    /\ arrays w' !! logs (this w) = arrays w !! logs (this w)
    /\ entries w' = entries w.
Proof.
  induction ls as [|f ls IH]; intros w Hne; cbn; [auto|].
  destruct (IH (mkWorld (alter (snd f) copy (arrays w)) (entries w) (this w))
              Hne) as (Ht & Ha & He).
  cbn in *. split; [assumption|]. split; [|assumption]. rewrite Ha.
  now apply lookup_alter_ne.
Qed.

(** A world with the same service object, the same private array and the
    same entry objects is well formed and has the same buffer. *)
Lemma same_buffer (w w' : world) :
  this w' = this w ->
  arrays w' !! logs (this w) = arrays w !! logs (this w) ->
  entries w' = entries w ->
  buffer w' = buffer w /\ records w' = records w /\ (wf w -> wf w').
Proof.
  intros Ht Ha He.
  assert (Hb : buffer w' = buffer w).
  { unfold buffer, read. now rewrite Ht, Ha. }
  split; [exact Hb|]. split.
  - unfold records. now rewrite Hb, He.
  - unfold wf. now rewrite Hb, He, Ht, Ha.
Qed.

Lemma notifyListeners_spec (w : world) :
  wf w ->
  this (notifyListeners w) = this w
  /\ buffer (notifyListeners w) = buffer w
  /\ entries (notifyListeners w) = entries w
  /\ wf (notifyListeners w).
Proof.
  intros Hw. destruct (getLogs_spec w Hw) as (Hne & Ht & Ha & He).
  unfold notifyListeners. destruct (getLogs w) as [copy w1] eqn:Hg.
  cbn in Hne, Ht, Ha, He.
  assert (Hne1 : copy <> logs (this w1)) by (rewrite Ht; exact Hne).
  destruct (listeners_fold copy (listeners (this w1)) w1 Hne1)
    as (Ht' & Ha' & He').
  cbv zeta in Ht', Ha', He'. rewrite Ht in Ht', Ha', He'.
  assert (Hl : arrays w1 !! logs (this w) = arrays w !! logs (this w)).
  { rewrite Ha. now apply lookup_insert_ne. }
  destruct (same_buffer w _ Ht' (eq_trans Ha' Hl) (eq_trans He' He))
    as (Hb & _ & Hwf).
  rewrite Ht.
  split; [exact Ht'|]. split; [exact Hb|]. split; [congruence|auto].
Qed.

Lemma keep_last_short {A} (n : nat) (l : list A) :
  (length l <= n)%nat -> keep_last n l = l.
Proof.
  intros H. unfold keep_last. replace (length l - n)%nat with 0%nat by lia.
  reflexivity.
Qed.

Lemma keep_last_length {A} (n : nat) (l : list A) :
  length (keep_last n l) = Nat.min n (length l).
Proof. unfold keep_last. rewrite length_drop. lia. Qed.

(** Notifying the listeners of a world whose private array exists. *)
Lemma notifyListeners_private (w1 : world) :
  is_Some (arrays w1 !! logs (this w1)) ->
  this (notifyListeners w1) = this w1
  /\ buffer (notifyListeners w1) = buffer w1
  /\ entries (notifyListeners w1) = entries w1
  /\ is_Some (arrays (notifyListeners w1) !! logs (this w1))
  /\ dom (arrays (notifyListeners w1))
     = {[fresh (dom (arrays w1))]} ∪ dom (arrays w1).
Proof.
  intros [ys Hy].
  assert (Hne : fresh (dom (arrays w1)) <> logs (this w1)).
  { intros E. pose proof (is_fresh (dom (arrays w1))) as Hf.
    rewrite E in Hf. apply Hf, elem_of_dom. eauto. }
  unfold notifyListeners, getLogs, alloc.
  set (copy := fresh (dom (arrays w1))) in *.
  set (w2 := mkWorld _ (entries w1) (this w1)).
  assert (Hd : forall ls (w : world),
             dom (arrays (fold_left
                            (fun (w' : world) (f : positive * LogListener) =>
                               mkWorld (alter (snd f) copy (arrays w'))
                                 (entries w') (this w')) ls w))
             = dom (arrays w)).
  { induction ls as [|f ls IH]; intros w; [reflexivity|].
    cbn [fold_left]. rewrite IH. cbn. apply dom_alter_L. }
  destruct (listeners_fold copy (listeners (this w2)) w2 Hne)
    as (Ht' & Ha' & He').
  cbv zeta in Ht', Ha', He'. cbn [this entries arrays w2] in *.
  rewrite lookup_insert_ne in Ha' by exact Hne.
  unfold buffer, read. rewrite Ht', Ha', He', Hy, Hd. cbn [arrays w2].
  rewrite dom_insert_L. eauto 6.
Qed.

(** The world after the push: the buffer, the entry objects, the
    listeners, and the private array, which is the old one or a new
    one. *)
Lemma push_spec now lvl msg ctx (w : world) :
  wf w ->
  let w1 := push now lvl msg ctx w in
  buffer w1 = keep_last maxLogSize (buffer w ++ [fresh (dom (entries w))])
  /\ entries w1
     = <[fresh (dom (entries w)) := mkEntry now lvl msg ctx]> (entries w)
  /\ listeners (this w1) = listeners (this w)
  /\ is_Some (arrays w1 !! logs (this w1))
  /\ (logs (this w1) = logs (this w) \/ (logs (this w1) ∉ dom (arrays w)))
  /\ dom (arrays w) ⊆ dom (arrays w1).
Proof.
  intros [[xs Hw] _]. unfold push.
  set (r := fresh (dom (entries w))).
  set (es := <[r := mkEntry now lvl msg ctx]> (entries w)).
  set (l := logs (this w)) in *.
  set (h1 := alter (fun a => a ++ [r]) l (arrays w)).
  assert (Hh1 : h1 !! l = Some (xs ++ [r])).
  { unfold h1. rewrite lookup_alter_eq, Hw. reflexivity. }
  assert (Hr : read h1 l = buffer w ++ [r]).
  { unfold read, buffer, read. fold l. rewrite Hh1, Hw. reflexivity. }
  assert (Hd1 : dom h1 = dom (arrays w)) by apply dom_alter_L.
  rewrite Hr.
  destruct (Nat.ltb_spec maxLogSize (length (buffer w ++ [r]))) as [Hlt|Hge].
  - destruct (alloc_spec (slice_from (length (buffer w ++ [r]) - maxLogSize)
                            (buffer w ++ [r])) h1) as [Hf Hs].
    destruct (alloc _ h1) as [l' h2] eqn:Ha. cbn in Hf, Hs. cbv zeta.
    cbn [this arrays entries logs listeners].
    unfold buffer at 1, read. cbn [this arrays logs].
    rewrite Hs, lookup_insert_eq, dom_insert_L, Hd1.
    repeat split; eauto.
    + right. rewrite <- Hd1. now apply not_elem_of_dom.
    + apply union_subseteq_r.
  - cbv zeta. cbn [this arrays entries]. unfold buffer at 1. cbn [this arrays].
    fold l. rewrite Hr, Hh1, Hd1.
    repeat split; eauto.
    symmetry. now apply keep_last_short.
Qed.

Lemma log_spec now lvl msg ctx (w : world) :
  wf w ->
  buffer (log now lvl msg ctx w)
  = keep_last maxLogSize (buffer w ++ [fresh (dom (entries w))])
  /\ entries (log now lvl msg ctx w)
     = <[fresh (dom (entries w)) := mkEntry now lvl msg ctx]> (entries w)
  /\ is_Some (arrays (log now lvl msg ctx w)
                !! logs (this (log now lvl msg ctx w))).
Proof.
  intros Hw. destruct (push_spec now lvl msg ctx w Hw) as (Hb & He & _ & Hs & _).
  destruct (notifyListeners_private _ Hs) as (Ht & Hb' & He' & Hs' & _).
  unfold log. rewrite Hb', He', Ht. auto.
Qed.

Lemma method_log lvl : method lvl = fun now => log now lvl.
Proof. destruct lvl; reflexivity. Qed.

Lemma omap_drop {A B} (f : A -> option B) (n : nat) (l : list A) :
  Forall (fun a => is_Some (f a)) l ->
  omap f (drop n l) = drop n (omap f l).
Proof.
  intros H. revert n. induction H as [|a l [b Hb] _ IH]; intros n.
  - now destruct n.
  - destruct n as [|n]; [reflexivity|]. cbn. rewrite Hb. cbn. apply IH.
Qed.

Lemma omap_ext_in {A B} (f g : A -> option B) (l : list A) :
  (forall x, x ∈ l -> f x = g x) -> omap f l = omap g l.
Proof.
  induction l as [|a l IH]; intros H; [reflexivity|].
  cbn. rewrite (H a) by apply list_elem_of_here.
  rewrite IH; [reflexivity|]. intros x Hx. apply H. now apply list_elem_of_further.
Qed.

Lemma omap_length {A B} (f : A -> option B) (l : list A) :
  Forall (fun a => is_Some (f a)) l -> length (omap f l) = length l.
Proof.
  induction 1 as [|a l [b Hb] _ IH]; [reflexivity|].
  cbn. rewrite Hb. cbn. now rewrite IH.
Qed.

Lemma records_length (w : world) :
  wf w -> length (records w) = length (buffer w).
Proof. intros [_ H]. now apply omap_length. Qed.

(** The buffer after a new entry object was pushed, whatever fields the
    object holds now. *)
Lemma records_pushed (w w2 : world) (r : loc) (e : LogEntry) :
  wf w ->
  entries w !! r = None ->
  buffer w2 = keep_last maxLogSize (buffer w ++ [r]) ->
  entries w2 = <[r := e]> (entries w) ->
  records w2 = keep_last maxLogSize (records w ++ [e])
  /\ Forall (fun x => is_Some (entries w2 !! x)) (buffer w2).
Proof.
  intros [_ Hall] Hr Hb He.
  assert (Hold : forall x, x ∈ buffer w -> entries w2 !! x = entries w !! x).
  { intros x Hx. rewrite He. apply lookup_insert_ne. intros E. subst x.
    rewrite Forall_forall in Hall. destruct (Hall r Hx) as [y Hy]. congruence. }
  assert (Hall2 : Forall (fun x => is_Some (entries w2 !! x))
                    (buffer w ++ [r])).
  { apply Forall_app. split.
    - rewrite Forall_forall in *. intros x Hx. rewrite Hold by exact Hx. auto.
    - constructor; [|constructor]. rewrite He, lookup_insert_eq. eauto. }
  assert (Hm : omap (fun x => entries w2 !! x) (buffer w ++ [r])
               = records w ++ [e]).
  { rewrite omap_app. f_equal.
    - unfold records. apply omap_ext_in. exact Hold.
    - cbn. rewrite He, lookup_insert_eq. reflexivity. }
  split.
  - unfold records at 1. rewrite Hb. unfold keep_last.
    rewrite omap_drop by exact Hall2. rewrite Hm.
    rewrite <- (omap_length _ _ Hall2), Hm. reflexivity.
  - rewrite Hb. unfold keep_last. now apply Forall_drop.
Qed.

Lemma log_wf now lvl msg ctx (w : world) :
  wf w ->
  wf (log now lvl msg ctx w)
  /\ records (log now lvl msg ctx w)
     = keep_last maxLogSize (records w ++ [mkEntry now lvl msg ctx]).
Proof.
  intros Hw. destruct (log_spec now lvl msg ctx w Hw) as (Hb & He & Hs).
  assert (Hr : entries w !! fresh (dom (entries w)) = None)
    by apply not_elem_of_dom, is_fresh.
  destruct (records_pushed w _ _ _ Hw Hr Hb He) as [H1 H2].
  split; [split; assumption|exact H1].
Qed.

(** C10, as amended.  Each of [info], [debug], [warn] and [error] leaves
    at most 200 entries in the buffer: the new buffer is made of the last
    200 entries of the old one extended with the new entry, so that when
    the old buffer was full its oldest entry is dropped and 200 remain.
    [getLogs] returns a new array with the same elements, and no write to
    that array changes the buffer.  The elements are the entry objects of
    the buffer themselves: a write to the newest entry, reached through
    the copy, changes what the buffer holds. *)
Theorem log_buffer_bounded_and_copied
    (lvl : LogLevel) (now : Z) (msg : jsstring) (ctx : value) (w : world) :
  wf w ->
  (length (records w) <= maxLogSize)%nat ->
  let w' := method lvl now msg ctx w in
  let newEntry := mkEntry now lvl msg ctx in
  wf w'
  /\ (length (records w') <= maxLogSize)%nat
  /\ records w' = keep_last maxLogSize (records w ++ [newEntry])
  /\ ((length (records w) < maxLogSize)%nat -> records w' = records w ++ [newEntry])
  /\ (length (records w) = maxLogSize ->
      records w' = skipn 1 (records w) ++ [newEntry]
      /\ length (records w') = maxLogSize)
  /\ (let '(copy, w1) := getLogs w' in
      copy <> logs (this w')
      /\ read (arrays w1) copy = buffer w'
      /\ records w1 = records w'
      /\ (forall xs : list loc,
            records (mkWorld (<[copy := xs]> (arrays w1)) (entries w1) (this w1))
            = records w')
      /\ (forall (r : loc) (e : LogEntry),
            last (read (arrays w1) copy) = Some r ->
            records (mkWorld (arrays w1) (<[r := e]> (entries w1)) (this w1))
            = keep_last maxLogSize (records w ++ [e]))).
Proof.
  intros Hw Hlen w' newEntry. unfold w'. rewrite method_log.
  destruct (log_wf now lvl msg ctx w Hw) as [Hwf Hb]. fold newEntry in Hb.
  split; [exact Hwf|]. rewrite Hb.
  split; [rewrite keep_last_length; lia|].
  split; [reflexivity|].
  split; [|split].
  - intros Hlt. apply keep_last_short. rewrite length_app. cbn. lia.
  - intros Hfull. unfold keep_last. rewrite length_app. cbn [length].
    replace (length (records w) + 1 - maxLogSize)%nat with 1%nat by lia.
    split.
    + rewrite drop_app_le by (unfold maxLogSize in *; lia). reflexivity.
    + rewrite length_drop, length_app. cbn [length]. lia.
  - rewrite <- Hb.
    destruct (log_spec now lvl msg ctx w Hw) as (Hbuf & Hent & _).
    revert Hwf Hb Hbuf Hent. generalize (log now lvl msg ctx w).
    intros w2 Hwf Hb Hbuf Hent.
    destruct (getLogs_spec w2 Hwf) as (Hne & Ht & Ha & He).
    destruct (getLogs w2) as [copy w1]. cbn in Hne, Ht, Ha, He.
    assert (Hcopy : read (arrays w1) copy = buffer w2).
    { unfold read at 1. rewrite Ha, lookup_insert_eq. reflexivity. }
    assert (Hl : arrays w1 !! logs (this w2) = arrays w2 !! logs (this w2)).
    { rewrite Ha. now apply lookup_insert_ne. }
    split; [exact Hne|]. split; [exact Hcopy|].
    split; [exact (proj1 (proj2 (same_buffer w2 w1 Ht Hl He)))|].
    split.
    + intros xs. apply same_buffer; cbn; [exact Ht| |exact He].
      rewrite lookup_insert_ne by exact Hne. exact Hl.
    + intros r e Hlast.
      assert (Hr : r = fresh (dom (entries w))).
      { rewrite Hcopy, Hbuf in Hlast. unfold keep_last in Hlast.
        rewrite length_app in Hlast. cbn [length] in Hlast.
        rewrite drop_app_le in Hlast by (unfold maxLogSize; lia).
        rewrite last_snoc in Hlast. congruence. }
      subst r.
      refine (proj1 (records_pushed w _ (fresh (dom (entries w))) e Hw _ _ _)).
      * apply not_elem_of_dom, is_fresh.
      * unfold buffer at 1, read. cbn [arrays this]. rewrite Ht, Hl.
        exact Hbuf.
      * cbn. rewrite He, Hent. apply insert_insert_eq.
Qed.

Lemma log_buffer_bounded_and_copied_witness :
  let w' := method WARN 200 (js "Rate limited") VUndefined full_log in
  records w'
  = skipn 1 (records full_log)
    ++ [mkEntry 200 WARN (js "Rate limited") VUndefined]
  /\ length (records w') = maxLogSize
  /\ (let '(copy, w1) := getLogs w' in
      copy <> logs (this w')
      /\ forall xs : list loc,
           records (mkWorld (<[copy := xs]> (arrays w1)) (entries w1) (this w1))
           = records w').
Proof.
  assert (Hw : wf full_log).
  { split; [vm_compute; eexists; reflexivity|].
    apply (bool_decide_unpack _). vm_compute. reflexivity. }
  assert (Hl : length (records full_log) = maxLogSize)
    by (vm_compute; reflexivity).
  assert (Hle : (length (records full_log) <= maxLogSize)%nat)
    by (rewrite Hl; apply Nat.le_refl).
  pose proof (log_buffer_bounded_and_copied WARN 200 (js "Rate limited")
                VUndefined full_log Hw Hle) as (_ & _ & _ & _ & Hfull & Hcopy).
  cbv zeta. split; [exact (proj1 (Hfull Hl))|].
  split; [exact (proj2 (Hfull Hl))|].
  destruct (getLogs (method WARN 200 (js "Rate limited") VUndefined full_log))
    as [copy w1].
  destruct Hcopy as (H1 & _ & _ & H4 & _). split; assumption.
Defined.

(** C10 as stated fails: the array [getLogs] returns holds the entry
    objects of the buffer themselves, so a caller that assigns to the
    message of the entry it finds there changes the entry the buffer
    holds. *)
Lemma getLogs_entries_are_shared :
  let w := info 0 (js "Generating review") VUndefined empty_log in
  let '(copy, w1) := getLogs w in
  exists r : loc,
    read (arrays w1) copy = [r]
    /\ records w1 = [mkEntry 0 INFO (js "Generating review") VUndefined]
    /\ records (mkWorld (arrays w1)
                  (alter (fun e => mkEntry (timestamp e) (level e)
                                     (js "tampered") (context e))
                     r (entries w1))
                  (this w1))
       = [mkEntry 0 INFO (js "tampered") VUndefined].
Proof. vm_compute. eexists. repeat split. Qed.

End LoggingFacts.

(** ** The configuration page *)

Module ConfigureFacts.

Import ConfigurePage Vocabulary Samples.

(** C9.  The save handler writes the credentials only when the three
    validations all succeed, and then writes the three of them as one
    item (or nothing at all, when the storage refuses the write); as soon
    as one validation fails, the hook and the storage are left as they
    were. *)
Theorem handleSaveAndTest_all_or_nothing
    (net : request -> outcome Response) (generateContent : GenerateContent)
    (p : Page) (h : Hook) :
  let h' := snd (handleSaveAndTest net generateContent p h) in
  let p' := fst (handleSaveAndTest net generateContent p h) in
  (all_valid net generateContent p = false -> h' = h /\ showSuccess p' = false)
  /\ (h' <> h -> all_valid net generateContent p = true)
  /\ (all_valid net generateContent p = true ->
      (accepts (localStorage h) API_KEYS_STORAGE_KEY
         (stringify_ApiKeys (entered p)) = true
       /\ keys h' = entered p
       /\ items (localStorage h')
          = <[API_KEYS_STORAGE_KEY := stringify_ApiKeys (entered p)]>
              (items (localStorage h))
       /\ showSuccess p' = true)
      \/ (accepts (localStorage h) API_KEYS_STORAGE_KEY
            (stringify_ApiKeys (entered p)) = false
          /\ h' = h /\ showSuccess p' = false)).
Proof.
  cbv zeta. unfold handleSaveAndTest. fold (all_valid net generateContent p).
  fold (entered p).
  destruct (all_valid net generateContent p) eqn:Hv.
  - split; [discriminate|]. split; [reflexivity|]. intros _.
    unfold saveKeys, setItem.
    destruct (accepts (localStorage h) _ _) eqn:Ha; cbn; auto.
  - cbn. split; [auto|]. split; [congruence|discriminate].
Qed.

Lemma handleSaveAndTest_all_or_nothing_witness :
  snd (handleSaveAndTest offline blocked_model filled_page fresh_hook) = fresh_hook
  /\ keys (snd (handleSaveAndTest catalog blocked_model filled_page fresh_hook))
     = mkApiKeys (js "k1") (js "k2") (js "k3").
Proof.
  destruct (handleSaveAndTest_all_or_nothing offline blocked_model
              filled_page fresh_hook) as (Hfail & _ & _).
  destruct (handleSaveAndTest_all_or_nothing catalog blocked_model
              filled_page fresh_hook) as (_ & _ & Hok).
  split.
  - apply Hfail. vm_compute. reflexivity.
  - destruct (Hok ltac:(vm_compute; reflexivity)) as [(_ & Hk & _) | (Ha & _)].
    + exact Hk.
    + vm_compute in Ha. discriminate.
Defined.

End ConfigureFacts.

(** ** JSON texts read back *)

Module JsonFacts.

Lemma hex_value_hex_digit (d : N) :
  (d < 16)%N -> hex_value (hex_digit d) = Some d.
Proof.
  intros H. unfold hex_digit, hex_value, is_digit.
  destruct (N.ltb_spec d 10).
  - replace ((48 <=? 48 + d)%N && (48 + d <=? 57)%N) with true
      by (symmetry; apply andb_true_iff; split; apply N.leb_le; lia).
    f_equal. lia.
  - replace ((48 <=? 87 + d)%N && (87 + d <=? 57)%N) with false
      by (symmetry; apply andb_false_iff; right; apply N.leb_gt; lia).
    replace ((97 <=? 87 + d)%N && (87 + d <=? 102)%N) with true
      by (symmetry; apply andb_true_iff; split; apply N.leb_le; lia).
    f_equal. lia.
Qed.

Lemma lex_run_cons st toks c s :
  lex_run st toks (c :: s)
  = match lex_step st toks c with
    | Some (st', toks') => lex_run st' toks' s
    | None => None
    end.
Proof. reflexivity. Qed.

Lemma lex_step_hex acc ds toks d :
  (d < 16)%N ->
  lex_step (LUni acc ds) toks (hex_digit d)
  = match ds with
    | [d2; d1; d0] =>
        Some (LStr ((((d0 * 16 + d1) * 16 + d2) * 16 + d)%N :: acc), toks)
    | _ => Some (LUni acc (d :: ds), toks)
    end.
Proof. intros H. cbn [lex_step]. now rewrite hex_value_hex_digit. Qed.

(** The scanner reads a four-digit escape back as the code unit. *)
Lemma lex_unicode_escape (c : N) (acc : jsstring) toks rest :
  (c < 65536)%N ->
  lex_run (LStr acc) toks (unicode_escape c ++ rest)
  = lex_run (LStr (c :: acc)) toks rest.
Proof.
  intros Hc. unfold unicode_escape. cbn [app].
  assert (H3 : (c / 4096 mod 16 < 16)%N) by (apply N.mod_lt; discriminate).
  assert (H2 : (c / 256 mod 16 < 16)%N) by (apply N.mod_lt; discriminate).
  assert (H1 : (c / 16 mod 16 < 16)%N) by (apply N.mod_lt; discriminate).
  assert (H0 : (c mod 16 < 16)%N) by (apply N.mod_lt; discriminate).
  rewrite lex_run_cons. cbn [lex_step N.eqb Pos.eqb].
  rewrite lex_run_cons. cbn [lex_step N.eqb Pos.eqb orb].
  rewrite lex_run_cons, lex_step_hex by assumption.
  rewrite lex_run_cons, lex_step_hex by assumption.
  rewrite lex_run_cons, lex_step_hex by assumption.
  rewrite lex_run_cons, lex_step_hex by assumption.
  replace ((((c / 4096 mod 16) * 16 + c / 256 mod 16) * 16 + c / 16 mod 16) * 16
           + c mod 16)%N with c; [reflexivity|].
  change 4096%N with (16 * (16 * 16))%N. change 256%N with (16 * 16)%N.
  rewrite <- !N.Div0.div_div.
  pose proof (N.div_mod c 16) as E0.
  pose proof (N.div_mod (c / 16) 16) as E1.
  pose proof (N.div_mod (c / 16 / 16) 16) as E2.
  assert (E3 : (c / 16 / 16 / 16 < 16)%N).
  { repeat apply N.Div0.div_lt_upper_bound. exact Hc. }
  rewrite (N.mod_small _ _ E3).
  specialize (E0 ltac:(discriminate)). specialize (E1 ltac:(discriminate)).
  specialize (E2 ltac:(discriminate)).
  set (x1 := (c / 16)%N) in *. set (x2 := (x1 / 16)%N) in *.
  set (x3 := (x2 / 16)%N) in *. set (r0 := (c mod 16)%N) in *.
  set (r1 := (x1 mod 16)%N) in *. set (r2 := (x2 mod 16)%N) in *.
  clearbody r0 r1 r2 x3 x2 x1.
  lia.
Qed.

(** A code unit that the scanner keeps as it is. *)
Lemma lex_plain_unit (c : N) (acc : jsstring) toks rest :
  c <> 34%N -> c <> 92%N -> (32 <= c)%N ->
  lex_run (LStr acc) toks (c :: rest) = lex_run (LStr (c :: acc)) toks rest.
Proof.
  intros H1 H2 H3. rewrite lex_run_cons. cbn [lex_step].
  destruct (N.eqb_spec c 34); [contradiction|].
  destruct (N.eqb_spec c 92); [contradiction|].
  destruct (N.ltb_spec c 32); [lia|]. reflexivity.
Qed.

Lemma lex_quote_unit (c : N) (acc : jsstring) toks rest :
  (c < 65536)%N ->
  lex_run (LStr acc) toks (quote_unit c ++ rest)
  = lex_run (LStr (c :: acc)) toks rest.
Proof.
  intros Hc. unfold quote_unit.
  destruct (N.eqb_spec c 8) as [->|]; [reflexivity|].
  destruct (N.eqb_spec c 9) as [->|]; [reflexivity|].
  destruct (N.eqb_spec c 10) as [->|]; [reflexivity|].
  destruct (N.eqb_spec c 12) as [->|]; [reflexivity|].
  destruct (N.eqb_spec c 13) as [->|]; [reflexivity|].
  destruct (N.eqb_spec c 34) as [->|]; [reflexivity|].
  destruct (N.eqb_spec c 92) as [->|]; [reflexivity|].
  destruct (N.ltb_spec c 32).
  - now apply lex_unicode_escape.
  - cbn [app]. now apply lex_plain_unit.
Qed.

Lemma surrogate_bounds (c : N) :
  is_high_surrogate c = true \/ is_low_surrogate c = true ->
  c <> 34%N /\ c <> 92%N /\ (32 <= c)%N /\ (c < 65536)%N.
Proof.
  unfold is_high_surrogate, is_low_surrogate.
  rewrite !andb_true_iff, !N.leb_le. lia.
Qed.

(** Inside a string, the scanner reads the quoted form of [s] back as
    [s]. *)
Lemma lex_quote_units (n : nat) :
  forall (s acc : jsstring) toks rest,
    (length s <= n)%nat ->
    Forall (fun c => (c < 65536)%N) s ->
    lex_run (LStr acc) toks (quote_units s ++ rest)
    = lex_run (LStr (rev s ++ acc)) toks rest.
Proof.
  induction n as [|n IH]; intros s acc toks rest Hn Hs.
  - destruct s; [reflexivity|cbn in Hn; lia].
  - destruct s as [|c s]; [reflexivity|].
    inversion Hs as [|? ? Hc Hs']; subst. cbn [length] in Hn.
    cbn [quote_units rev]. rewrite <- app_assoc. cbn [app].
    destruct (is_high_surrogate c) eqn:Hh.
    + destruct (surrogate_bounds c (or_introl Hh)) as (A & B & C & D).
      destruct s as [|d s].
      * rewrite lex_unicode_escape by assumption. reflexivity.
      * destruct (is_low_surrogate d) eqn:Hl.
        -- destruct (surrogate_bounds d (or_intror Hl)) as (A' & B' & C' & D').
           inversion Hs' as [|? ? Hd Hs'']; subst.
           cbn [app]. rewrite lex_plain_unit by assumption.
           rewrite lex_plain_unit by assumption.
           rewrite IH by (cbn [length] in Hn; auto; lia).
           cbn [rev]. rewrite <- !app_assoc. reflexivity.
        -- rewrite <- app_assoc, lex_unicode_escape by assumption.
           rewrite IH by (auto; lia). reflexivity.
    + destruct (is_low_surrogate c) eqn:Hl.
      * destruct (surrogate_bounds c (or_intror Hl)) as (A & B & C & D).
        rewrite <- app_assoc, lex_unicode_escape by assumption.
        rewrite IH by (auto; lia). reflexivity.
      * rewrite <- app_assoc, lex_quote_unit by assumption.
        rewrite IH by (auto; lia). reflexivity.
Qed.

(** Between tokens, the scanner reads a quoted string as one string
    token. *)
Lemma lex_JSON_quote (s : jsstring) toks rest :
  Forall (fun c => (c < 65536)%N) s ->
  lex_run LDefault toks (JSON_quote s ++ rest)
  = lex_run LDefault (TStr s :: toks) rest.
Proof.
  intros Hs. unfold JSON_quote. rewrite <- !app_assoc. cbn [app].
  rewrite lex_run_cons. cbn [lex_step lex_default is_json_space N.eqb Pos.eqb orb].
  rewrite (lex_quote_units (length s)) by auto.
  rewrite lex_run_cons. cbn [lex_step N.eqb Pos.eqb].
  rewrite app_nil_r, rev_involutive. reflexivity.
Qed.

(** [JSON.parse(JSON.stringify(s))] is [s], for a string of UTF-16 code
    units. *)
Lemma JSON_parse_quote (s : jsstring) :
  Forall (fun c => (c < 65536)%N) s ->
  JSON_parse (JSON_quote s) = Some (VStr s).
Proof.
  intros Hs. unfold JSON_parse, lex.
  rewrite <- (app_nil_r (JSON_quote s)), lex_JSON_quote by assumption.
  reflexivity.
Qed.

End JsonFacts.

(** ** The stored credentials and the key file *)

Module KeyStoreFacts.
Import JsonFacts Utf16 UseApiKeysEffect ConfigurePage ConfigureFile.

Ltac lex_unit :=
  rewrite lex_run_cons;
  cbn [lex_step lex_default is_json_space N.eqb Pos.eqb orb].

Ltac lex_string :=
  rewrite lex_JSON_quote by (assumption || (repeat constructor)).

Lemma JSON_parse_stringify_ApiKeys (k : ApiKeys) :
  utf16 (tmdb k) -> utf16 (tvdb k) -> utf16 (gemini k) ->
  JSON_parse (stringify_ApiKeys k) = Some (VObj (keys_object k)).
Proof.
  intros H1 H2 H3. unfold JSON_parse, lex, stringify_ApiKeys, utf16 in *.
  change (js "{") with [123%N]. change (js ":") with [58%N].
  change (js ",") with [44%N]. change (js "}") with [125%N].
  cbn [app]. lex_unit. lex_string. cbn [app]. lex_unit. lex_string.
  cbn [app]. lex_unit. lex_string. cbn [app]. lex_unit. lex_string.
  cbn [app]. lex_unit. lex_string. cbn [app]. lex_unit. lex_string.
  reflexivity.
Qed.

Lemma JSON_parse_stringify_indented (k : ApiKeys) :
  utf16 (tmdb k) -> utf16 (tvdb k) -> utf16 (gemini k) ->
  JSON_parse (stringify_indented k) = Some (VObj (keys_object k)).
Proof.
  intros H1 H2 H3. unfold JSON_parse, lex, stringify_indented, utf16 in *.
  change (js "{") with [123%N]. change (js ": ") with [58%N; 32%N].
  change (js ",") with [44%N]. change (js "}") with [125%N].
  change (js "  ") with [32%N; 32%N].
  cbn [app]. do 4 lex_unit. lex_string. cbn [app]. do 2 lex_unit. lex_string.
  cbn [app]. do 4 lex_unit. lex_string. cbn [app]. do 2 lex_unit. lex_string.
  cbn [app]. do 4 lex_unit. lex_string. cbn [app]. do 2 lex_unit. lex_string.
  reflexivity.
Qed.

Lemma own_property_app (k : jsstring) (a b : list (jsstring * value)) :
  own_property k (a ++ b)
  = match own_property k b with
    | VUndefined => own_property k a
    | found => found
    end.
Proof.
  induction a as [|[k' v] a IH]; cbn [app own_property].
  - now destruct (own_property k b).
  - rewrite IH. now destruct (own_property k b).
Qed.

(** X4.  What [saveKeys] stored is what a later mount of the hook loads: the
    three members are the saved strings, whatever the state held before,
    and [areKeysSetup] is computed from them. *)
Theorem saveKeys_then_load (newKeys : ApiKeys) (h h' : Hook)
    (prevKeys : ApiKeys) (ready : bool) :
  utf16_keys newKeys ->
  saveKeys newKeys h = (true, h') ->
  let l := load (mkHook prevKeys ready (localStorage h')) in
  own_property (js "tmdb") (loaded_keys l) = VStr (tmdb newKeys)
  /\ own_property (js "tvdb") (loaded_keys l) = VStr (tvdb newKeys)
  /\ own_property (js "gemini") (loaded_keys l) = VStr (gemini newKeys)
  /\ loaded_isReady l = true
  /\ areKeysSetup_loaded (loaded_keys l) = Ok (areKeysSetup newKeys).
Proof.
  intros (H1 & H2 & H3) Hs l. unfold saveKeys, setItem in Hs.
  destruct (accepts (localStorage h) _ _); [|discriminate].
  injection Hs as <-. subst l. unfold load, getItem. cbn [localStorage items keys].
  rewrite lookup_insert_eq.
  pose proof (JSON_parse_stringify_ApiKeys newKeys H1 H2 H3) as Hp.
  destruct (stringify_ApiKeys newKeys) as [|c text] eqn:E; [discriminate|].
  rewrite Hp. cbn [loaded_keys loaded_isReady spread].
  unfold areKeysSetup_loaded, trimmed_member. rewrite !own_property_app.
  assert (Ht : own_property (js "tmdb") (keys_object newKeys) = VStr (tmdb newKeys))
    by reflexivity.
  assert (Hv : own_property (js "tvdb") (keys_object newKeys) = VStr (tvdb newKeys))
    by reflexivity.
  assert (Hg : own_property (js "gemini") (keys_object newKeys) = VStr (gemini newKeys))
    by reflexivity.
  rewrite Ht, Hv, Hg. repeat split.
  unfold areKeysSetup, nonempty. cbn [optional_trim obind truthy].
  destruct (trim (tmdb newKeys)); [reflexivity|].
  destruct (trim (tvdb newKeys)); [reflexivity|].
  destruct (trim (gemini newKeys)); reflexivity.
Qed.

Lemma saveKeys_then_load_witness :
  own_property (js "tvdb")
    (loaded_keys
       (load (mkHook Samples.unconfigured false
                (localStorage (snd (saveKeys Samples.configured Samples.fresh_hook))))))
  = VStr (js "k2").
Proof.
  refine (proj1 (proj2
    (saveKeys_then_load Samples.configured Samples.fresh_hook _
       Samples.unconfigured false _ _))).
  - repeat split; repeat constructor.
  - reflexivity.
Defined.

(** X5.  The load merges the stored members over the ones the state has: a
    member the stored text defines replaces the state's, every other
    member of the state is kept; with nothing stored, an empty text or a
    text that is not JSON the state is kept as it is.  In every case the
    hook becomes ready. *)
Theorem load_merges_over_state (h : Hook) :
  loaded_isReady (load h) = true
  /\ (forall stored parsed,
        getItem API_KEYS_STORAGE_KEY (localStorage h) = Some stored ->
        JSON_parse stored = Some parsed ->
        forall k,
          own_property k (loaded_keys (load h))
          = match own_property k (spread parsed) with
            | VUndefined => own_property k (keys_object (keys h))
            | found => found
            end)
  /\ (match getItem API_KEYS_STORAGE_KEY (localStorage h) with
      | Some stored => JSON_parse stored = None
      | None => True
      end ->
      loaded_keys (load h) = keys_object (keys h)).
Proof.
  unfold load.
  destruct (getItem API_KEYS_STORAGE_KEY (localStorage h)) as [[|c s]|].
  - split; [reflexivity|]. split; [|reflexivity].
    intros stored parsed E Hp. injection E as <-. discriminate.
  - destruct (JSON_parse (c :: s)) as [parsed|] eqn:Hp.
    + split; [reflexivity|]. split; [|discriminate].
      intros stored parsed' E Hp'. injection E as <-.
      rewrite Hp in Hp'. injection Hp' as <-. intros k.
      apply own_property_app.
    + split; [reflexivity|]. split; [|reflexivity].
      intros stored parsed E Hp'. injection E as <-. congruence.
  - split; [reflexivity|]. split; [|reflexivity]. discriminate.
Qed.

(** X6.  The file [handleExportKeys] writes is read back by
    [handleFileChange] as the three fields it was written from, without
    an alert; the test results are cleared. *)
Theorem export_then_import (p p0 : Page) :
  utf16 (tmdbKey p) -> utf16 (tvdbKey p) -> utf16 (geminiKey p) ->
  handleFileChange (handleExportKeys p) p0
  = (mkPage (tmdbKey p) (tvdbKey p) (geminiKey p) (showSuccess p0)
       (isSavingAndTesting p0) (mkResults None None None), None).
Proof.
  intros H1 H2 H3. unfold handleFileChange, import_keys, handleExportKeys.
  rewrite JSON_parse_stringify_indented by assumption. reflexivity.
Qed.

Lemma export_then_import_witness :
  handleFileChange (handleExportKeys Samples.filled_page)
    (mkPage [] [] [] true false (mkResults (Some valid) None None))
  = (mkPage (tmdbKey Samples.filled_page) (tvdbKey Samples.filled_page)
       (geminiKey Samples.filled_page) true false (mkResults None None None),
     None).
Proof.
  apply (export_then_import Samples.filled_page); repeat constructor.
Defined.

(** X7.  An import changes all three fields or nothing: either no alert is
    shown, the text is JSON whose members tmdb, tvdb and gemini are the
    strings now in the fields, and the test results are cleared; or an
    alert is shown and the page is as it was. *)
Theorem handleFileChange_all_or_nothing (text : jsstring) (p : Page) :
  let '(p', shown) := handleFileChange text p in
  (shown = None
   /\ (exists importedKeys,
         JSON_parse text = Some importedKeys
         /\ get (js "tmdb") importedKeys = Ok (VStr (tmdbKey p'))
         /\ get (js "tvdb") importedKeys = Ok (VStr (tvdbKey p'))
         /\ get (js "gemini") importedKeys = Ok (VStr (geminiKey p')))
   /\ testResults p' = mkResults None None None
   /\ showSuccess p' = showSuccess p
   /\ isSavingAndTesting p' = isSavingAndTesting p)
  \/ ((shown = Some invalid_format \/ shown = Some unreadable) /\ p' = p).
Proof.
  unfold handleFileChange, import_keys.
  destruct (JSON_parse text) as [v|]; [|right; auto].
  destruct (get (js "tmdb") v) as [t|] eqn:Et; cbn [obind]; [|right; auto].
  destruct t; try (right; split; [auto|reflexivity]).
  destruct (get (js "tvdb") v) as [t|] eqn:Ev; cbn [obind]; [|right; auto].
  destruct t; try (right; split; [auto|reflexivity]).
  destruct (get (js "gemini") v) as [t|] eqn:Eg; cbn [obind]; [|right; auto].
  destruct t; try (right; split; [auto|reflexivity]).
  left. split; [reflexivity|]. split; [|auto].
  exists v. auto.
Qed.

End KeyStoreFacts.

(** ** The logging service under its callers *)

Module LoggingMore.
Import LoggingService Vocabulary LoggingFacts LoggingClient.

Lemma keep_last_app_last {A} (n : nat) (l : list A) (e : A) :
  keep_last n (keep_last n l ++ [e]) = keep_last n (l ++ [e]).
Proof.
  destruct (Nat.le_gt_cases (length l) n) as [H|H].
  - now rewrite (keep_last_short n l H).
  - unfold keep_last. rewrite !length_app, length_drop. cbn [length].
    rewrite !drop_app, drop_drop, length_drop. f_equal; f_equal; lia.
Qed.

Lemma fresh_not_in (X Y : gset loc) : Y ⊆ X -> fresh X ∉ Y.
Proof. intros H Hin. apply (is_fresh X). auto. Qed.

Lemma private_log lvl now msg ctx (k : client) :
  private k ->
  private (mkClient (log now lvl msg ctx (service k))
             ({[next_copy (push now lvl msg ctx (service k))]} ∪ handed k)).
Proof.
  intros (Hw & Hp & Hh). set (w := service k) in *.
  destruct (push_spec now lvl msg ctx w Hw) as (_ & _ & _ & Hs & Hl & Hd).
  destruct (notifyListeners_private _ Hs) as (Ht & _ & _ & _ & Hd').
  split; [exact (proj1 (log_wf now lvl msg ctx w Hw))|].
  cbn [service handed]. unfold log. rewrite Ht, Hd'. unfold next_copy.
  split.
  - apply not_elem_of_union. split.
    + apply not_elem_of_singleton. intros E.
      apply (is_fresh (dom (arrays (push now lvl msg ctx w)))).
      rewrite <- E. now apply elem_of_dom.
    + destruct Hl as [-> | Hl]; [exact Hp|]. intros Hin. apply Hl. auto.
  - apply union_mono_l. etransitivity; eassumption.
Qed.

Lemma reset_spec (w : world) :
  buffer (reset w) = []
  /\ entries (reset w) = entries w
  /\ listeners (this (reset w)) = listeners (this w)
  /\ is_Some (arrays (reset w) !! logs (this (reset w)))
  /\ (logs (this (reset w)) ∉ dom (arrays w))
  /\ dom (arrays w) ⊆ dom (arrays (reset w)).
Proof.
  unfold reset, alloc, buffer, read. cbn.
  rewrite lookup_insert_eq, dom_insert_L. repeat split; eauto.
  - apply is_fresh.
  - apply union_subseteq_r.
Qed.

Lemma clearLogs_spec (w : world) :
  buffer (clearLogs w) = [] /\ wf (clearLogs w)
  /\ entries (clearLogs w) = entries w
  /\ listeners (this (clearLogs w)) = listeners (this w).
Proof.
  destruct (reset_spec w) as (Hb & He & Hl & Hs & _).
  destruct (notifyListeners_private _ Hs) as (Ht & Hb' & He' & Hs' & _).
  unfold clearLogs. split; [now rewrite Hb'|]. split.
  - split; [rewrite Ht; exact Hs'|]. rewrite Hb', Hb. constructor.
  - rewrite He', Ht. auto.
Qed.

Lemma private_clearLogs (k : client) :
  private k ->
  private (mkClient (clearLogs (service k))
             ({[next_copy (reset (service k))]} ∪ handed k)).
Proof.
  intros (Hw & Hp & Hh). set (w := service k) in *.
  destruct (reset_spec w) as (_ & _ & _ & Hs & Hl & Hd).
  destruct (notifyListeners_private _ Hs) as (Ht & _ & _ & _ & Hd').
  split; [exact (proj1 (proj2 (clearLogs_spec w)))|].
  cbn [service handed]. unfold clearLogs. rewrite Ht, Hd'. unfold next_copy.
  split.
  - apply not_elem_of_union. split.
    + apply not_elem_of_singleton. intros E.
      apply (is_fresh (dom (arrays (reset w)))).
      rewrite <- E. now apply elem_of_dom.
    + intros Hin. apply Hl. auto.
  - apply union_mono_l. etransitivity; eassumption.
Qed.

Lemma subscribe_spec id f (w : world) :
  wf w ->
  buffer (subscribe id f w) = buffer w
  /\ entries (subscribe id f w) = entries w
  /\ logs (this (subscribe id f w)) = logs (this w)
  /\ arrays (subscribe id f w) !! logs (this w) = arrays w !! logs (this w)
  /\ dom (arrays (subscribe id f w)) = {[next_copy w]} ∪ dom (arrays w).
Proof.
  intros Hw. unfold subscribe.
  set (ls' := if existsb _ _ then _ else _).
  set (w0 := mkWorld (arrays w) (entries w) (mkService (logs (this w)) ls')).
  assert (Hw0 : wf w0) by exact Hw.
  destruct (getLogs_spec w0 Hw0) as (Hne & Ht & Ha & He).
  assert (Hc : fst (getLogs w0) = next_copy w) by reflexivity.
  destruct (getLogs w0) as [copy w1]. cbn in Hne, Ht, Ha, He, Hc. subst copy.
  cbn [this arrays entries]. unfold buffer, read. cbn [this arrays].
  rewrite Ht, He. cbn [logs]. rewrite lookup_alter_ne by exact Hne.
  rewrite dom_alter_L, Ha, lookup_insert_ne by exact Hne.
  rewrite dom_insert_L. auto.
Qed.

Lemma private_subscribe id f (k : client) :
  private k ->
  private (mkClient (subscribe id f (service k))
             ({[next_copy (service k)]} ∪ handed k)).
Proof.
  intros (Hw & Hp & Hh). set (w := service k) in *.
  destruct (subscribe_spec id f w Hw) as (Hb & He & Hl & Ha & Hd).
  split; [|cbn [service handed]; rewrite Hl, Hd; split].
  - cbn [service]. split.
    + rewrite Hl, Ha. exact (proj1 Hw).
    + rewrite Hb, He. exact (proj2 Hw).
  - apply not_elem_of_union. split; [|exact Hp].
    apply not_elem_of_singleton. intros E.
    apply (is_fresh (dom (arrays w))). unfold next_copy in E. rewrite <- E.
    apply elem_of_dom. exact (proj1 Hw).
  - now apply union_mono_l.
Qed.

Lemma private_getLogs (k : client) :
  private k ->
  private (mkClient (snd (getLogs (service k)))
             ({[fst (getLogs (service k))]} ∪ handed k))
  /\ buffer (snd (getLogs (service k))) = buffer (service k)
  /\ entries (snd (getLogs (service k))) = entries (service k).
Proof.
  intros (Hw & Hp & Hh). set (w := service k) in *.
  destruct (getLogs_spec w Hw) as (Hne & Ht & Ha & He).
  assert (Hl : arrays (snd (getLogs w)) !! logs (this w)
               = arrays w !! logs (this w)).
  { rewrite Ha. now apply lookup_insert_ne. }
  destruct (same_buffer w _ Ht Hl He) as (Hb & _ & Hwf).
  split; [|split; assumption].
  split; [auto|]. cbn [service handed]. rewrite Ht, Ha, dom_insert_L. split.
  - apply not_elem_of_union. split; [|exact Hp].
    apply not_elem_of_singleton. congruence.
  - now apply union_mono_l.
Qed.

(** A write to an array that was handed out is not a write to the
    private array. *)
Lemma private_write l f (k : client) :
  private k -> l ∈ handed k ->
  let w := service k in
  let k' := mkClient (mkWorld (alter f l (arrays w)) (entries w) (this w))
              (handed k) in
  private k' /\ buffer (service k') = buffer w.
Proof.
  intros (Hw & Hp & Hh) Hin w k'. subst w k'.
  assert (Hne : l <> logs (this (service k))) by congruence.
  destruct (same_buffer (service k)
              (mkWorld (alter f l (arrays (service k))) (entries (service k))
                 (this (service k))) eq_refl) as (Hb & _ & Hwf);
    [cbn; now apply lookup_alter_ne|reflexivity|].
  split; [|exact Hb]. split; [auto|]. cbn. split; [exact Hp|].
  now rewrite dom_alter_L.
Qed.

Lemma private_assign r f (k : client) :
  private k ->
  let w := service k in
  private (mkClient (mkWorld (arrays w) (alter f r (entries w)) (this w))
             (handed k)).
Proof.
  intros ((Hs & Hall) & Hp & Hh) w. subst w.
  split; [|split; assumption]. split; [exact Hs|].
  change (buffer (service _)) with (buffer (service k)). cbn [service entries].
  eapply Forall_impl; [exact Hall|]. cbv beta. intros x [e He].
  destruct (decide (r = x)) as [->|Hne].
  - rewrite lookup_alter_eq, He. cbn. eauto.
  - rewrite lookup_alter_ne by exact Hne. eauto.
Qed.

Lemma perform_spec (c : call) (k k' : client) :
  private k -> perform c k = Some k' ->
  private k'
  /\ length (buffer (service k'))
     = match c with
       | CallLog _ _ _ _ =>
           Nat.min maxLogSize (length (buffer (service k)) + 1)
       | CallClearLogs => 0%nat
       | _ => length (buffer (service k))
       end
  /\ match c with
     | CallLog lvl now msg ctx =>
         records (service k')
         = keep_last maxLogSize
             (records (service k) ++ [mkEntry now lvl msg ctx])
     | CallClearLogs => records (service k') = []
     | CallerAssign _ _ => True
     | _ => records (service k') = records (service k)
     end.
Proof.
  intros Hk. pose proof Hk as (Hw & Hp & Hh).
  destruct c as [lvl now msg ctx| |id f|id| |l f|r f]; cbn [perform].
  - intros E; apply (inj Some) in E; subst k'. rewrite method_log. cbn [service].
    split; [exact (private_log lvl now msg ctx k Hk)|].
    destruct (log_spec now lvl msg ctx _ Hw) as (Hb & _).
    rewrite Hb, keep_last_length, length_app. cbn [length].
    split; [reflexivity|exact (proj2 (log_wf now lvl msg ctx _ Hw))].
  - intros E; apply (inj Some) in E; subst k'. split; [exact (private_clearLogs k Hk)|]. cbn [service].
    destruct (clearLogs_spec (service k)) as (Hb & _).
    unfold records. rewrite Hb. auto.
  - intros E; apply (inj Some) in E; subst k'. split; [exact (private_subscribe id f k Hk)|]. cbn [service].
    destruct (subscribe_spec id f _ Hw) as (Hb & He & _).
    unfold records. rewrite Hb, He. auto.
  - intros E; apply (inj Some) in E; subst k'. split; [exact Hk|]. auto.
  - intros E; apply (inj Some) in E; subst k'. destruct (private_getLogs k Hk) as (H1 & Hb & He).
    split; [exact H1|]. cbn [service]. unfold records. rewrite Hb, He. auto.
  - destruct (decide (l ∈ handed k)) as [Hin|]; [|discriminate].
    intros E; apply (inj Some) in E; subst k'. destruct (private_write l f k Hk Hin) as [H1 Hb].
    split; [exact H1|]. cbv zeta in Hb. unfold records. rewrite Hb. auto.
  - intros E; apply (inj Some) in E; subst k'. split; [exact (private_assign r f k Hk)|]. auto.
Qed.

(** X1.  Whatever is done with the service, with the arrays it hands out
    and with the entry objects, the service's own array is none of the
    arrays handed out and holds as many entries as were logged since the
    last [clearLogs], up to 200.  As long as no entry object is assigned
    to, the buffer holds the last 200 of the entries logged since the
    last [clearLogs], in the order they were logged. *)
Theorem buffer_is_recent_history (cs : list call) (w : world) (k : client) :
  wf w -> buffer w = [] ->
  perform_all cs (mkClient w ∅) = Some k ->
  wf (service k)
  /\ (logs (this (service k)) ∉ handed k)
  /\ length (buffer (service k)) = Nat.min maxLogSize (length (logged cs))
  /\ (assigns cs = false ->
      records (service k) = keep_last maxLogSize (logged cs)).
Proof.
  intros Hw Hb.
  assert (H : forall cs acc k0 k,
             private k0 ->
             length (buffer (service k0)) = Nat.min maxLogSize (length acc) ->
             perform_all cs k0 = Some k ->
             let history :=
               fold_left
                 (fun acc c =>
                    match c with
                    | CallLog lvl now msg ctx =>
                        acc ++ [mkEntry now lvl msg ctx]
                    | CallClearLogs => []
                    | _ => acc
                    end) cs acc in
             private k
             /\ length (buffer (service k))
                = Nat.min maxLogSize (length history)
             /\ (assigns cs = false ->
                 records (service k0) = keep_last maxLogSize acc ->
                 records (service k) = keep_last maxLogSize history)).
  { clear. induction cs as [|c cs IH]; intros acc k0 k Hk Hlen Hrun.
    - injection Hrun as <-. cbn. auto.
    - cbn [perform_all] in Hrun.
      destruct (perform c k0) as [k1|] eqn:Hc; [|discriminate].
      destruct (perform_spec c k0 k1 Hk Hc) as (Hk1 & Hlen1 & Hrec1).
      cbn [fold_left]. cbv zeta.
      set (acc1 := match c with
                   | CallLog lvl now msg ctx => acc ++ [mkEntry now lvl msg ctx]
                   | CallClearLogs => []
                   | _ => acc
                   end).
      assert (Hl1 : length (buffer (service k1))
                    = Nat.min maxLogSize (length acc1)).
      { rewrite Hlen1. unfold acc1.
        destruct c; try exact Hlen; [|reflexivity].
        rewrite Hlen, length_app. cbn [length]. lia. }
      destruct (IH acc1 k1 k Hk1 Hl1 Hrun) as (H1 & H2 & H3).
      split; [exact H1|]. split; [exact H2|].
      intros Ha Hr. cbn [assigns existsb] in Ha.
      apply orb_false_iff in Ha. destruct Ha as [Hc0 Ha].
      apply H3; [exact Ha|]. unfold acc1.
      destruct c; try discriminate; try (rewrite Hrec1; exact Hr).
      + rewrite Hrec1, Hr. apply keep_last_app_last.
      + exact Hrec1. }
  intros Hrun.
  destruct (H cs [] (mkClient w ∅) k) as ((H1 & H2 & _) & H3 & H4).
  - split; [exact Hw|]. cbn. split; [apply not_elem_of_empty|].
    apply empty_subseteq.
  - cbn. now rewrite Hb.
  - exact Hrun.
  - split; [exact H1|]. split; [exact H2|]. split; [exact H3|].
    intros Ha. apply H4; [exact Ha|]. cbn. unfold records. now rewrite Hb.
Qed.

Lemma buffer_is_recent_history_witness :
  exists k,
    perform_all
      [CallLog INFO 1 (js "a") VUndefined; CallGetLogs;
       CallerWrite 3%positive (fun _ => []);
       CallLog WARN 2 (js "b") VUndefined]
      (mkClient Samples.empty_log ∅) = Some k
    /\ records (service k)
       = [mkEntry 1 INFO (js "a") VUndefined;
          mkEntry 2 WARN (js "b") VUndefined].
Proof.
  pose (cs := [CallLog INFO 1 (js "a") VUndefined; CallGetLogs;
               CallerWrite 3%positive (fun _ => []);
               CallLog WARN 2 (js "b") VUndefined]).
  assert (Hw : wf Samples.empty_log)
    by (split; [vm_compute; eexists; reflexivity|vm_compute; constructor]).
  assert (Hb : buffer Samples.empty_log = []) by (vm_compute; reflexivity).
  fold cs.
  destruct (perform_all cs (mkClient Samples.empty_log ∅)) as [k|] eqn:Hrun;
    [|vm_compute in Hrun; discriminate].
  exists k. split; [reflexivity|].
  exact (proj2 (proj2 (proj2
           (buffer_is_recent_history cs Samples.empty_log k Hw Hb Hrun)))
           eq_refl).
Defined.

(** X2.  One copy of the buffer is made for all the listeners: each listener
    is handed the array as the listeners before it left it, and the
    buffer itself is not touched. *)
Theorem notifyListeners_shares_one_copy (w : world) :
  wf w ->
  read (arrays (notifyListeners w)) (next_copy w)
  = fold_left (fun xs (f : positive * LogListener) => snd f xs)
      (listeners (this w)) (buffer w)
  /\ buffer (notifyListeners w) = buffer w.
Proof.
  intros Hw. destruct (notifyListeners_spec w Hw) as (_ & Hb & _).
  split; [|exact Hb]. clear Hb.
  unfold notifyListeners, getLogs, alloc, next_copy. cbn [this arrays].
  set (copy := fresh (dom (arrays w))).
  fold (buffer w).
  assert (H : forall ls (w' : world) xs,
             arrays w' !! copy = Some xs ->
             read (arrays (fold_left
                     (fun (w' : world) (f : positive * LogListener) =>
                        mkWorld (alter (snd f) copy (arrays w')) (entries w')
                          (this w'))
                     ls w')) copy
             = fold_left (fun xs (f : positive * LogListener) => snd f xs) ls xs).
  { induction ls as [|f ls IH]; intros w' xs Hx; cbn [fold_left].
    - unfold read. now rewrite Hx.
    - apply IH. cbn. now rewrite lookup_alter_eq, Hx. }
  apply H. cbn. apply lookup_insert_eq.
Qed.

Lemma notifyListeners_shares_one_copy_witness :
  let w := subscribe 2%positive (fun xs => xs ++ xs)
             (subscribe 1%positive (fun xs => tl xs)
                (info 7 (js "a") VUndefined
                   (info 5 (js "b") VUndefined Samples.empty_log))) in
  read (arrays (notifyListeners w)) (next_copy w)
  = [2%positive; 2%positive]
  /\ records (notifyListeners w)
     = [mkEntry 5 INFO (js "b") VUndefined; mkEntry 7 INFO (js "a") VUndefined].
Proof.
  intros w.
  assert (Hw : wf w)
    by (split; [vm_compute; eexists; reflexivity|];
        apply (bool_decide_unpack _); vm_compute; reflexivity).
  destruct (notifyListeners_shares_one_copy w Hw) as [H1 H2].
  split.
  - rewrite H1. vm_compute. reflexivity.
  - unfold records. rewrite H2. vm_compute. reflexivity.
Defined.

End LoggingMore.

(** ** The lookups of the metadata service *)

Module MetadataMore.
Import MetadataService Vocabulary MetadataFacts Samples MoreSamples.

Section WithNetwork.

Variable net : request -> outcome Response.

(** X8.  When the identifier lookup is rejected, or answered with a status
    that is not a success, the lookup fails with that rejection, or with
    the error classified by the status, and no further request is
    issued. *)
Theorem getMetadata_stops_at_failed_lookup (params : GetMetadataParams) :
  let find := FindByImdbId (gp_imdbId params) (gp_apiKey params) in
  (forall e, net find = Throw e ->
             run (getMetadata net params) = (Throw e, [find]))
  /\ (forall r, net find = Ok r -> ok r = false ->
        exists e,
          run (getMetadata net params) = (Throw e, [find])
          /\ kind_of e = Some (kind_of_status (status r))).
Proof.
  destruct params as [type imdbId season episode apiKey]. cbn [gp_imdbId gp_apiKey].
  split.
  - intros e He. unfold getMetadata. async_unfold. async_rewrite He. reflexivity.
  - intros r Hr Hok. unfold getMetadata. async_unfold. async_rewrite Hr.
    unfold handleApiResponse, kind_of_status. rewrite Hok. cbv beta iota.
    eexists. split; [reflexivity|].
    destruct (status r =? 401); [reflexivity|].
    destruct (status r =? 404); [reflexivity|].
    destruct (status r =? 429); reflexivity.
Qed.

(** X9.  For a movie the season and the episode are not looked at: when the
    identifier lookup lists a movie first, with a title and an identifier
    that can be written as text and a release date that is empty, absent
    or a text, the record is built from that entry after the one
    request; the year is the number read from the release date up to its
    first hyphen, or 0 without a date. *)
Theorem getMetadata_movie_record
    (imdbId apiKey : jsstring) (season episode : option number)
    (findResponse : Response) (findData movie_results movie : value)
    (year : number) :
  net (FindByImdbId imdbId apiKey) = Ok findResponse ->
  handleApiResponse findResponse (js "TMDB") = Ok findData ->
  get (js "movie_results") findData = Ok movie_results ->
  first movie_results = Ok movie ->
  truthy movie = true ->
  unprintable (field (js "title") movie) = false ->
  unprintable (field (js "id") movie) = false ->
  year_of (field (js "release_date") movie) = Ok year ->
  run (getMetadata net (mkGetParams Movie imdbId season episode apiKey))
  = (Ok (Some (mkMedia (Some (field (js "id") movie)) (Some imdbId)
                 (field (js "title") movie) year
                 (field (js "overview") movie) Movie
                 None None None None None)),
     [FindByImdbId imdbId apiKey])
  /\ (year = Int 0 /\ truthy (field (js "release_date") movie) = false
      \/ exists date,
           field (js "release_date") movie = VStr date
           /\ year = parseInt (split_head 45 date)).
Proof.
  intros Hn Hh Hm Hf Ht Hpt Hpi Hy. split.
  - unfold getMetadata. async_unfold.
    async_rewrite Hn. async_rewrite Hh. async_rewrite Hm. async_rewrite Hf.
    async_rewrite Ht. rewrite !(truthy_get_field _ _ Ht). cbn [negb].
    cbv beta iota. unfold interpolate. cbn [existsb]. rewrite Hpt, Hpi.
    cbn [orb]. cbv beta iota. async_rewrite Hy. reflexivity.
  - revert Hy. unfold year_of.
    destruct (truthy (field (js "release_date") movie)) eqn:Hd.
    + destruct (field (js "release_date") movie); try discriminate.
      intros [= <-]. right. eauto.
    + intros [= <-]. left. auto.
Qed.

(** X10.  When the identifier lookup succeeds but lists nothing of the kind
    asked for, the lookup fails with a NotFound error that names the
    identifier, after the one request. *)
Theorem getMetadata_nothing_listed
    (type : MediaType) (imdbId apiKey : jsstring)
    (season episode : option number)
    (findResponse : Response) (findData results entry : value) :
  net (FindByImdbId imdbId apiKey) = Ok findResponse ->
  handleApiResponse findResponse (js "TMDB") = Ok findData ->
  get (match type with
       | Movie => js "movie_results"
       | Series => js "tv_results"
       end) findData = Ok results ->
  first results = Ok entry ->
  truthy entry = false ->
  run (getMetadata net (mkGetParams type imdbId season episode apiKey))
  = (Throw (new_NotFoundError
              (match type with
               | Movie => js "Movie"
               | Series => js "Series"
               end ++ js " with IMDb ID " ++ imdbId ++ js " not found.")),
     [FindByImdbId imdbId apiKey]).
Proof.
  intros Hn Hh Hr Hf Ht. unfold getMetadata. async_unfold.
  async_rewrite Hn. async_rewrite Hh.
  destruct type; async_rewrite Hr; async_rewrite Hf; async_rewrite Ht;
    reflexivity.
Qed.

Lemma getMetadata_trace (params : GetMetadataParams) :
  snd (run (getMetadata net params))
  = [FindByImdbId (gp_imdbId params) (gp_apiKey params)]
  \/ exists id s e,
       gp_type params = Series
       /\ gp_season params = Some s /\ gp_episode params = Some e
       /\ number_truthy s = true /\ number_truthy e = true
       /\ snd (run (getMetadata net params))
          = [FindByImdbId (gp_imdbId params) (gp_apiKey params);
             TvEpisode id s e (gp_apiKey params)].
Proof.
  destruct params as [type imdbId season episode apiKey].
  cbn [gp_imdbId gp_apiKey gp_type gp_season gp_episode].
  unfold getMetadata. async_unfold.
  destruct (season_and_episode season episode) as [[s e]|] eqn:Hse.
  - apply season_and_episode_Some in Hse. destruct Hse as (-> & -> & Hs & He).
    repeat match goal with
           | |- context [match ?x with _ => _ end] => destruct x
           end; cbn [snd app]; try (left; reflexivity);
      right; eexists; eexists; eexists; repeat split; assumption.
  - repeat match goal with
           | |- context [match ?x with _ => _ end] => destruct x
           end; cbn [snd app]; left; reflexivity.
Qed.

(** X11.  The lookup issues the identifier request first and at most one more
    request, which is the episode request of a series, for a season and
    an episode that are both given and neither 0 nor NaN. *)
Theorem getMetadata_requests (params : GetMetadataParams) :
  let find := FindByImdbId (gp_imdbId params) (gp_apiKey params) in
  snd (run (getMetadata net params)) = [find]
  \/ exists id s e,
       gp_type params = Series
       /\ gp_season params = Some s /\ gp_episode params = Some e
       /\ number_truthy s = true /\ number_truthy e = true
       /\ snd (run (getMetadata net params))
          = [find; TvEpisode id s e (gp_apiKey params)].
Proof. exact (getMetadata_trace params). Qed.

(** A season or an episode that is 0 or NaN is not looked up: the lookup
    is the one without a season and an episode. *)
Lemma getMetadata_falsy_season type imdbId s e apiKey :
  number_truthy s = false \/ number_truthy e = false ->
  getMetadata net (mkGetParams type imdbId (Some s) (Some e) apiKey)
  = getMetadata net (mkGetParams type imdbId None None apiKey).
Proof.
  intros H. unfold getMetadata. cbn [season_and_episode].
  replace (number_truthy s && number_truthy e) with false; [reflexivity|].
  destruct H as [-> | ->]; [reflexivity|now rewrite andb_false_r].
Qed.

End WithNetwork.

Lemma getMetadata_stops_at_failed_lookup_witness :
  run (getMetadata offline (mkGetParams Movie (js "tt0133093") None None (js "k")))
  = (Throw (new_TypeError (js "Failed to fetch")),
     [FindByImdbId (js "tt0133093") (js "k")]).
Proof.
  apply (proj1 (getMetadata_stops_at_failed_lookup offline
                  (mkGetParams Movie (js "tt0133093") None None (js "k")))).
  reflexivity.
Defined.

Lemma getMetadata_movie_record_witness :
  run (getMetadata catalog
         (mkGetParams Movie (js "tt0133093") (Some (Int 1)) (Some (Int 2)) (js "k")))
  = (Ok (Some (mkMedia (Some (VNum (Int 603))) (Some (js "tt0133093"))
                 (VStr (js "The Matrix")) (Int 1999)
                 (VStr (js "A hacker learns what the world is.")) Movie
                 None None None None None)),
     [FindByImdbId (js "tt0133093") (js "k")]).
Proof.
  refine (proj1 (getMetadata_movie_record catalog (js "tt0133093") (js "k")
                   (Some (Int 1)) (Some (Int 2)) (mkResponse 200 find_body)
                   _ _ matrix_result (Int 1999) _ _ _ _ _ _ _ _)).
  - reflexivity.
  - vm_compute. reflexivity.
  - vm_compute. reflexivity.
  - vm_compute. reflexivity.
  - reflexivity.
  - reflexivity.
  - reflexivity.
  - vm_compute. reflexivity.
Defined.

Lemma getMetadata_nothing_listed_witness :
  run (getMetadata bare_catalog
         (mkGetParams Series (js "tt0000001") None None (js "k")))
  = (Throw (new_NotFoundError (js "Series with IMDb ID tt0000001 not found.")),
     [FindByImdbId (js "tt0000001") (js "k")]).
Proof.
  refine (getMetadata_nothing_listed bare_catalog Series (js "tt0000001") (js "k")
            None None _ _ (VArr []) VUndefined _ _ _ _ _).
  - reflexivity.
  - vm_compute. reflexivity.
  - vm_compute. reflexivity.
  - reflexivity.
  - reflexivity.
Defined.

End MetadataMore.

(** ** The secondary requests and the search *)

Module SearchFacts.
Import MetadataService Vocabulary MetadataFacts Samples MoreSamples Utf16.

Lemma names_of_length (actors names : list value) :
  names_of actors = Ok names -> length names = length actors.
Proof.
  revert names. induction actors as [|a rest IH]; intros names; cbn [names_of].
  - intros [= <-]. reflexivity.
  - destruct (get (js "name") a); cbn [obind]; [|discriminate].
    destruct (names_of rest) as [ns|]; cbn [obind]; [|discriminate].
    intros [= <-]. cbn [length]. f_equal. now apply IH.
Qed.

Lemma cast_of_at_most_three (creditsData cast : value) :
  cast_of creditsData = Ok cast ->
  exists names, cast = VArr names /\ (length names <= 3)%nat.
Proof.
  unfold cast_of. destruct (get (js "cast") creditsData) as [c|]; cbn [obind];
    [|discriminate].
  destruct c; try discriminate;
    try (intros [= <-]; exists []; split; [reflexivity|cbn; lia]).
  destruct (names_of (firstn 3 l)) as [ns|] eqn:Hn; cbn [obind]; [|discriminate].
  intros [= <-]. exists ns. split; [reflexivity|].
  rewrite (names_of_length _ _ Hn), length_take. lia.
Qed.

Lemma country_of_text (detailsData country : value) :
  country_of detailsData = Ok country ->
  country = VStr [] \/ truthy country = true.
Proof.
  unfold country_of.
  destruct (get (js "production_countries") detailsData) as [pc|]; cbn [obind];
    [|discriminate].
  assert (H : forall c0, Ok c0 = first pc ->
            match c0 with
            | VUndefined | VNull => Ok (VStr [])
            | _ => obind (get (js "iso_3166_1") c0) (fun code =>
                     Ok (if truthy code then code else VStr []))
            end = Ok country ->
            country = VStr [] \/ truthy country = true).
  { intros c0 _ H.
    assert (H' : obind (get (js "iso_3166_1") c0) (fun code =>
                     Ok (if truthy code then code else VStr [])) = Ok country
                 -> country = VStr [] \/ truthy country = true).
    { destruct (get (js "iso_3166_1") c0) as [code|]; cbn [obind]; [|discriminate].
      destruct (truthy code) eqn:Ht; intros [= <-]; auto. }
    destruct c0; auto; injection H as <-; auto. }
  destruct pc; try (intros [= <-]; now left);
    (destruct (first _) as [c0|] eqn:Hf; cbn [obind]; [|discriminate];
     apply (H c0); now rewrite <- Hf).
Qed.

Section WithNetwork.

Variable net : request -> outcome Response.

(** X13.  For an identifier that can be written as text, the two secondary
    requests of a movie are always both issued, in this order.  When the
    lookup gives a result, the cast is an array of at most three names
    and the origin country is never missing: it is the empty string or a
    value that counts as true. *)
Theorem getMovieDetails_result (movieId : value) (apiKey : jsstring) :
  unprintable movieId = false ->
  snd (run (getMovieDetails net movieId apiKey))
  = [MovieDetails movieId apiKey; MovieCredits movieId apiKey]
  /\ forall cast originCountry,
       fst (run (getMovieDetails net movieId apiKey)) = Ok (cast, originCountry) ->
       (exists names, cast = VArr names /\ (length names <= 3)%nat)
       /\ (originCountry = VStr [] \/ truthy originCountry = true).
Proof.
  intros _. unfold getMovieDetails. async_unfold. cbn [app].
  destruct (net (MovieDetails movieId apiKey)) as [dr|e1];
    destruct (net (MovieCredits movieId apiKey)) as [cr|e2]; cbn [obind];
    try (split; [reflexivity|discriminate]).
  cbv beta iota.
  destruct (negb (ok dr) || negb (ok cr)).
  { split; [reflexivity|]. cbn [fst]. intros cast c [= <- <-].
    split; [exists []; split; [reflexivity|cbn; lia]|now left]. }
  destruct (json dr) as [dd|]; cbv beta iota;
    [|split; [reflexivity|discriminate]].
  destruct (json cr) as [cd|]; cbv beta iota;
    [|split; [reflexivity|discriminate]].
  destruct (cast_of cd) as [cast|] eqn:Hc; cbv beta iota;
    [|split; [reflexivity|discriminate]].
  destruct (country_of dd) as [country|] eqn:Ho; cbv beta iota;
    [|split; [reflexivity|discriminate]].
  split; [reflexivity|]. cbn [fst]. intros ? ? [= <- <-].
  split; [now apply (cast_of_at_most_three cd)|now apply (country_of_text dd)].
Qed.

Lemma map_outcome_Forall2 {A B} (f : A -> outcome B) (l : list A) (bs : list B) :
  map_outcome f l = Ok bs -> Forall2 (fun a b => f a = Ok b) l bs.
Proof.
  revert bs. induction l as [|a l IH]; intros bs; cbn [map_outcome].
  - intros [= <-]. constructor.
  - destruct (f a) as [b|] eqn:Hf; cbn [obind]; [|discriminate].
    destruct (map_outcome f l) as [bs'|]; cbn [obind]; [|discriminate].
    intros [= <-]. constructor; auto.
Qed.

(** X14.  A series search for a title without a surrogate outside a pair
    issues the one search request and nothing else, whatever it is
    answered.  When the answer lists results, they are turned into
    records one for one and in order, each carrying the identifier and
    the name of its result and neither an external identifier nor a cast
    nor a country. *)
Theorem searchByTitle_series (title apiKey : jsstring) :
  well_formed title = true ->
  snd (run (searchByTitle net (mkSearchParams title Series apiKey)))
  = [SearchTitle Series title apiKey]
  /\ forall response data l,
       net (SearchTitle Series title apiKey) = Ok response ->
       handleApiResponse response (js "TMDB") = Ok data ->
       get (js "results") data = Ok (VArr l) ->
       fst (run (searchByTitle net (mkSearchParams title Series apiKey)))
       = map_outcome series_candidate l
       /\ forall ms,
            map_outcome series_candidate l = Ok ms ->
            Forall2 (fun result m =>
                       tmdbId m = Some (field (js "id") result)
                       /\ Types.title m = field (js "name") result
                       /\ overview m = field (js "overview") result
                       /\ type m = Series
                       /\ imdbId m = None /\ cast m = None
                       /\ originCountry m = None) l ms.
Proof.
  intros _. split.
  - unfold searchByTitle. async_unfold.
    repeat match goal with
           | |- context [match ?x with _ => _ end] => destruct x
           end; reflexivity.
  - intros response data l Hn Hh Hr. split.
    + unfold searchByTitle. async_unfold.
      async_rewrite Hn. async_rewrite Hh. async_rewrite Hr.
      cbn [truthy negb get]. destruct l; reflexivity.
    + intros ms Hm. apply map_outcome_Forall2 in Hm.
      eapply Forall2_impl; [exact Hm|]. cbv beta.
      intros result m. unfold series_candidate.
      destruct (get (js "id") result) as [id|] eqn:Hid; cbn [obind];
        [|discriminate].
      rewrite !(get_field _ _ _ Hid). cbn [obind].
      destruct (year_of _); cbn [obind]; [|discriminate].
      rewrite (get_field _ _ _ Hid) in Hid. injection Hid as <-.
      intros [= <-]. cbn. repeat split.
Qed.

(** X15.  A search whose answer lists no result, or has no list of results,
    gives the empty list after the one search request, for either
    kind. *)
Theorem searchByTitle_nothing_found
    (title apiKey : jsstring) (type : MediaType)
    (response : Response) (data results : value) :
  net (SearchTitle type title apiKey) = Ok response ->
  handleApiResponse response (js "TMDB") = Ok data ->
  get (js "results") data = Ok results ->
  truthy results = false \/ results = VArr [] ->
  run (searchByTitle net (mkSearchParams title type apiKey))
  = (Ok [], [SearchTitle type title apiKey]).
Proof.
  intros Hn Hh Hr Hempty. unfold searchByTitle. async_unfold.
  async_rewrite Hn. async_rewrite Hh. async_rewrite Hr.
  destruct Hempty as [Ht| ->].
  - rewrite Ht. reflexivity.
  - reflexivity.
Qed.

Lemma movie_candidate_requests apiKey result id tr :
  get (js "id") result = Ok id ->
  snd (movie_candidate net apiKey result tr)
  = tr ++ [MovieDetails id apiKey; MovieCredits id apiKey].
Proof.
  intros Hid. unfold movie_candidate, getMovieDetails. async_unfold.
  async_rewrite Hid. rewrite <- app_assoc. cbn [app].
  destruct (net (MovieDetails id apiKey)) as [dr|e1];
    destruct (net (MovieCredits id apiKey)) as [cr|e2]; cbn [obind];
    try reflexivity.
  cbv beta iota.
  destruct (negb (ok dr) || negb (ok cr)); cbv beta iota.
  { rewrite (get_field _ _ _ Hid (js "title")).
    rewrite (get_field _ _ _ Hid (js "release_date")).
    rewrite (get_field _ _ _ Hid (js "overview")). cbv beta iota.
    destruct (year_of _); reflexivity. }
  destruct (json dr); cbv beta iota; [|reflexivity].
  destruct (json cr); cbv beta iota; [|reflexivity].
  destruct (cast_of _); cbv beta iota; [|reflexivity].
  destruct (country_of _); cbv beta iota; [|reflexivity].
  rewrite (get_field _ _ _ Hid (js "title")).
  rewrite (get_field _ _ _ Hid (js "release_date")).
  rewrite (get_field _ _ _ Hid (js "overview")). cbv beta iota.
  destruct (year_of _); reflexivity.
Qed.

Lemma Promise_all_requests {A B} (f : A -> Async B)
    (reqs : A -> list request) (l : list A) :
  Forall (fun a => forall tr, snd (f a tr) = tr ++ reqs a) l ->
  forall tr, snd (Promise_all (List.map f l) tr) = tr ++ flat_map reqs l.
Proof.
  induction 1 as [|a l Ha _ IH]; intros tr; cbn [List.map Promise_all flat_map].
  - now rewrite app_nil_r.
  - specialize (Ha tr). destruct (f a tr) as [x tr1]. cbn [snd] in Ha. subst tr1.
    specialize (IH (tr ++ reqs a)).
    destruct (Promise_all (List.map f l) (tr ++ reqs a)) as [xs tr2].
    cbn [snd] in *. rewrite IH. now rewrite app_assoc.
Qed.

(** X16.  A movie search whose results have identifiers that can be written
    as text starts the two secondary requests of every result, in the
    order of the results, whether or not an earlier one fails. *)
Theorem searchByTitle_movie_requests
    (title apiKey : jsstring) (response : Response) (data : value)
    (l : list value) :
  net (SearchTitle Movie title apiKey) = Ok response ->
  handleApiResponse response (js "TMDB") = Ok data ->
  get (js "results") data = Ok (VArr l) ->
  Forall (fun result =>
            result <> VNull /\ result <> VUndefined
            /\ unprintable (field (js "id") result) = false) l ->
  snd (run (searchByTitle net (mkSearchParams title Movie apiKey)))
  = SearchTitle Movie title apiKey
    :: flat_map (fun result =>
                   [MovieDetails (field (js "id") result) apiKey;
                    MovieCredits (field (js "id") result) apiKey]) l.
Proof.
  intros Hn Hh Hr Hl. unfold searchByTitle. async_unfold.
  async_rewrite Hn. async_rewrite Hh. async_rewrite Hr.
  cbn [truthy negb get]. destruct l as [|r0 l0]; [reflexivity|].
  replace (is_zero _) with false by reflexivity. cbv beta iota.
  replace (interpolate _) with (Ok tt) by reflexivity. cbv beta iota.
  rewrite (Promise_all_requests (movie_candidate net apiKey)
             (fun result =>
                [MovieDetails (field (js "id") result) apiKey;
                 MovieCredits (field (js "id") result) apiKey])).
  - reflexivity.
  - eapply Forall_impl; [exact Hl|]. cbv beta. intros result (H1 & H2 & _) tr.
    apply movie_candidate_requests. now apply defined_get_field.
Qed.

End WithNetwork.

Lemma getMovieDetails_result_witness :
  exists names,
    VArr [VStr (js "Keanu Reeves"); VStr (js "Laurence Fishburne");
          VStr (js "Carrie-Anne Moss")] = VArr names
    /\ (length names <= 3)%nat.
Proof.
  refine (proj1 (proj2 (getMovieDetails_result full_catalog (VNum (Int 603))
                          (js "k") eq_refl)
                   _ (VStr (js "US")) _)).
  vm_compute. reflexivity.
Defined.

Lemma searchByTitle_series_witness :
  fst (run (searchByTitle full_catalog (mkSearchParams (js "thrones") Series (js "k"))))
  = map_outcome series_candidate [thrones_result].
Proof.
  refine (proj1 (proj2 (searchByTitle_series full_catalog (js "thrones") (js "k")
                          eq_refl)
                   _ _ [thrones_result] _ _ _)).
  - reflexivity.
  - vm_compute. reflexivity.
  - vm_compute. reflexivity.
Defined.

Lemma searchByTitle_nothing_found_witness :
  run (searchByTitle bare_catalog (mkSearchParams (js "zzz") Movie (js "k")))
  = (Ok [], [SearchTitle Movie (js "zzz") (js "k")]).
Proof.
  refine (searchByTitle_nothing_found bare_catalog (js "zzz") (js "k") Movie
            _ _ (VArr []) _ _ _ _).
  - reflexivity.
  - vm_compute. reflexivity.
  - vm_compute. reflexivity.
  - now right.
Defined.

Lemma searchByTitle_movie_requests_witness :
  snd (run (searchByTitle catalog_details_unreachable
              (mkSearchParams (js "matrix") Movie (js "k"))))
  = [SearchTitle Movie (js "matrix") (js "k");
     MovieDetails (VNum (Int 603)) (js "k");
     MovieCredits (VNum (Int 603)) (js "k")].
Proof.
  refine (searchByTitle_movie_requests catalog_details_unreachable
            (js "matrix") (js "k") _ _ [matrix_result] _ _ _ _).
  - reflexivity.
  - vm_compute. reflexivity.
  - vm_compute. reflexivity.
  - repeat constructor; discriminate.
Defined.

End SearchFacts.

(** ** The captures of a stream path *)

Module StreamPathFacts.
Import StremioHandler Vocabulary RegexFacts Samples.

Lemma rmatch_lit {R} (p s : jsstring) (c : captures)
    (k : jsstring -> captures -> option R) :
  rmatch (RLit p) (p ++ s) c k = k s c.
Proof.
  cbn [rmatch]. now rewrite (proj2 (strip_prefix_app p (p ++ s) s) eq_refl).
Qed.

Lemma digits_star_greedy {R} (d s : jsstring) (k : jsstring -> option R) r :
  Forall (fun c => is_digit c = true) d ->
  digits_star s k = Some r ->
  digits_star (d ++ s) k = Some r.
Proof.
  induction 1 as [|c d Hc _ IH]; intros Hs; [exact Hs|].
  cbn [app digits_star]. rewrite Hc, (IH Hs). reflexivity.
Qed.

Lemma digits_plus_greedy {R} (d s : jsstring) (k : jsstring -> option R) r :
  digits d ->
  digits_star s k = Some r ->
  digits_plus (d ++ s) k = Some r.
Proof.
  intros [Hne Hd] Hs. destruct Hd as [|c d Hc Hd]; [contradiction|].
  cbn [app digits_plus]. rewrite Hc. now apply digits_star_greedy.
Qed.

Lemma take_prefix (a b : jsstring) :
  firstn (length (a ++ b) - length b) (a ++ b) = a.
Proof.
  rewrite length_app. replace (length a + length b - length b)%nat
    with (length a) by lia.
  apply take_app_length.
Qed.

Lemma rmatch_seq {R} (a b : regex) s c (k : jsstring -> captures -> option R) :
  rmatch (RSeq a b) s c k = rmatch a s c (fun s' c' => rmatch b s' c' k).
Proof. reflexivity. Qed.

Lemma rmatch_group {R} i (a : regex) s c (k : jsstring -> captures -> option R) :
  rmatch (RGroup i a) s c k
  = rmatch a s c
      (fun s' c' => k s' (set_capture i (firstn (length s - length s') s) c')).
Proof. reflexivity. Qed.

Lemma rmatch_alt_l {R} (a b : regex) s c (k : jsstring -> captures -> option R) r :
  rmatch a s c k = Some r -> rmatch (RAlt a b) s c k = Some r.
Proof. intros H. cbn [rmatch]. now rewrite H. Qed.

Lemma rmatch_alt_r {R} (a b : regex) s c (k : jsstring -> captures -> option R) r :
  rmatch a s c k = None -> rmatch b s c k = Some r ->
  rmatch (RAlt a b) s c k = Some r.
Proof. intros Ha Hb. cbn [rmatch]. now rewrite Ha. Qed.

Lemma rmatch_opt_taken {R} (a : regex) s c (k : jsstring -> captures -> option R) r :
  rmatch a s c k = Some r -> rmatch (ROpt a) s c k = Some r.
Proof. intros H. cbn [rmatch]. now rewrite H. Qed.

Lemma rmatch_opt_skipped {R} (a : regex) s c
    (k : jsstring -> captures -> option R) r :
  rmatch a s c k = None -> k s c = Some r -> rmatch (ROpt a) s c k = Some r.
Proof. intros Ha Hk. cbn [rmatch]. now rewrite Ha. Qed.

Lemma rmatch_digits {R} (d s : jsstring) c
    (k : jsstring -> captures -> option R) (u : N) r :
  digits d -> is_digit u = false ->
  k (u :: s) c = Some r ->
  rmatch RDigits (d ++ u :: s) c k = Some r.
Proof.
  intros Hd Hu Hk. cbn [rmatch]. apply digits_plus_greedy; [exact Hd|].
  cbn [digits_star]. now rewrite Hu.
Qed.

(** The captures of a path that begins with a stream path: the kind, the
    identifier, and the season and the episode when the path has
    them. *)
Lemma rmatch_stream_path (kind id : jsstring)
    (tail : option (jsstring * jsstring)) (post : jsstring) :
  kind = js "movie" \/ kind = js "series" ->
  digits id ->
  match tail with
  | Some (se, ep) => digits se /\ digits ep
  | None => True
  end ->
  exists c,
    rmatch stream_pattern
      (js "/stream/" ++ kind ++ js "/" ++ (js "tt" ++ id)
       ++ match tail with
          | Some (se, ep) => js ":" ++ se ++ js ":" ++ ep
          | None => []
          end ++ js ".json" ++ post)
      no_captures (fun _ c => Some c) = Some c
    /\ c 1%nat = Some kind
    /\ c 2%nat = Some (js "tt" ++ id)
    /\ c 3%nat = match tail with Some (se, _) => Some se | None => None end
    /\ c 4%nat = match tail with Some (_, ep) => Some ep | None => None end.
Proof.
  intros Hk Hid Ht. unfold stream_pattern.
  set (T := match tail with
            | Some (se, ep) => js ":" ++ se ++ js ":" ++ ep
            | None => []
            end ++ js ".json" ++ post).
  assert (HT : exists u T', T = u :: T' /\ is_digit u = false).
  { subst T. destruct tail as [[se ep]|]; eexists; eexists; split;
      try reflexivity; reflexivity. }
  destruct HT as (u & T' & HT & Hu).
  exists (match tail with
          | Some (se, ep) =>
              set_capture 4 ep (set_capture 3 se
                (set_capture 2 (js "tt" ++ id)
                   (set_capture 1 kind no_captures)))
          | None => set_capture 2 (js "tt" ++ id)
                      (set_capture 1 kind no_captures)
          end).
  split.
  - rewrite rmatch_seq, rmatch_lit, rmatch_seq, rmatch_group.
    assert (Hrest : forall c0 : captures,
      rmatch (RSeq (RLit (js "/"))
               (RSeq (RGroup 2 (RSeq (RLit (js "tt")) RDigits))
                  (RSeq (ROpt (RSeq (RLit (js ":"))
                                 (RSeq (RGroup 3 RDigits)
                                    (RSeq (RLit (js ":")) (RGroup 4 RDigits)))))
                     (RLit (js ".json")))))
        (js "/" ++ (js "tt" ++ id) ++ T) c0 (fun _ c => Some c)
      = Some (match tail with
              | Some (se, ep) =>
                  set_capture 4 ep (set_capture 3 se
                    (set_capture 2 (js "tt" ++ id) c0))
              | None => set_capture 2 (js "tt" ++ id) c0
              end)).
    { intros c0. rewrite rmatch_seq, rmatch_lit, rmatch_seq, rmatch_group.
      rewrite rmatch_seq. rewrite <- (app_assoc (js "tt") id T), rmatch_lit.
      rewrite HT. apply rmatch_digits; [exact Hid|exact Hu|].
      rewrite <- HT. rewrite (app_assoc (js "tt") id T), take_prefix.
      rewrite rmatch_seq. subst T. destruct tail as [[se ep]|].
      - destruct Ht as [Hse Hep]. apply rmatch_opt_taken.
        rewrite rmatch_seq. rewrite <- !app_assoc. rewrite rmatch_lit.
        rewrite rmatch_seq, rmatch_group.
        change (js ":" ++ ep ++ js ".json" ++ post)
          with (58%N :: ep ++ js ".json" ++ post).
        apply rmatch_digits; [exact Hse|reflexivity|].
        change (58%N :: ep ++ js ".json" ++ post)
          with (js ":" ++ ep ++ js ".json" ++ post).
        rewrite take_prefix, rmatch_seq, rmatch_lit, rmatch_group.
        change (js ".json" ++ post) with (46%N :: js "json" ++ post).
        apply rmatch_digits; [exact Hep|reflexivity|].
        change (46%N :: js "json" ++ post) with (js ".json" ++ post).
        rewrite take_prefix, rmatch_lit. reflexivity.
      - apply rmatch_opt_skipped; [reflexivity|].
        cbn [app]. rewrite rmatch_lit. reflexivity. }
    destruct Hk as [-> | ->].
    + apply rmatch_alt_l. rewrite rmatch_lit, take_prefix. apply Hrest.
    + apply rmatch_alt_r; [reflexivity|].
      rewrite rmatch_lit, take_prefix. apply Hrest.
  - destruct tail as [[se ep]|]; repeat split.
Qed.

End StreamPathFacts.

(** ** The stream handler on stream paths *)

Module StremioMore.
Import StremioHandler Vocabulary RegexFacts Samples StreamPaths StreamPathFacts.
Import MetadataService MetadataFacts.

Lemma regex_search_at_start (r : regex) (s : jsstring) (c : captures) :
  rmatch r s no_captures (fun _ c => Some c) = Some c ->
  regex_search r s = Some c.
Proof. intros H. destruct s; cbn [regex_search]; now rewrite H. Qed.

Lemma digits_cons (d : jsstring) :
  digits d -> exists c t, d = c :: t /\ is_digit c = true.
Proof.
  intros [Hne Hd]. destruct Hd as [|c t Hc _]; [contradiction|]. eauto.
Qed.

Lemma is_digit_not_space (c : N) : is_digit c = true -> is_js_space c = false.
Proof.
  unfold is_digit, is_js_space. rewrite andb_true_iff, !N.leb_le. intros [H1 H2].
  apply orb_false_iff. split.
  - cbn [existsb]. repeat (apply orb_false_iff; split); try reflexivity;
      apply N.eqb_neq; lia.
  - apply andb_false_iff. left. apply N.leb_gt. lia.
Qed.

Lemma digit_run_digits (d : jsstring) :
  Forall (fun c => is_digit c = true) d ->
  digit_run false d = List.map (fun c => (c - 48)%N) d.
Proof.
  induction 1 as [|c d Hc _ IH]; [reflexivity|].
  cbn [digit_run List.map]. rewrite Hc, IH. reflexivity.
Qed.

Lemma radix_value_digits (d : jsstring) (acc : Z) :
  Forall (fun c => is_digit c = true) d ->
  fold_left (fun acc d => acc * 10 + Z.of_N d) (List.map (fun c => (c - 48)%N) d) acc
  = fold_left (fun acc c => acc * 10 + (Z.of_N c - 48)) d acc.
Proof.
  intros H. revert acc. induction H as [|c d Hc _ IH]; intros acc; [reflexivity|].
  cbn [List.map fold_left]. rewrite IH. f_equal.
  unfold is_digit in Hc. apply andb_true_iff in Hc. destruct Hc as [Hc _].
  apply N.leb_le in Hc. lia.
Qed.

(** [parseInt] of a run of digits is the number nearest to its decimal
    value. *)
Lemma parseInt_digits (d : jsstring) :
  digits d -> parseInt d = round_double (digits_value d).
Proof.
  intros Hd. destruct (digits_cons d Hd) as (c & t & -> & Hc).
  destruct Hd as [_ Hd]. unfold parseInt. cbn [trimStart].
  rewrite (is_digit_not_space c Hc).
  assert (Hr : 48 <= Z.of_N c <= 57).
  { unfold is_digit in Hc. apply andb_true_iff in Hc.
    rewrite !N.leb_le in Hc. lia. }
  assert (Hsign : match c :: t with
                  | 45%N :: r => (-1, r)
                  | 43%N :: r => (1, r)
                  | _ => (1, c :: t)
                  end = (1, c :: t)).
  { destruct c as [|p]; [reflexivity|].
    do 6 (destruct p as [p|p|]; try reflexivity); exfalso; lia. }
  rewrite Hsign.
  assert (Hhex : match c :: t with
                 | 48%N :: 120%N :: r | 48%N :: 88%N :: r => (true, r)
                 | _ => (false, c :: t)
                 end = (false, c :: t)).
  { inversion Hd as [|? ? _ Ht]; subst.
    destruct t as [|c2 t2]; [destruct c as [|p]; [reflexivity|];
      do 6 (destruct p as [p|p|]; try reflexivity)|].
    inversion Ht as [|? ? Hc2 _]; subst.
    assert (Hr2 : 48 <= Z.of_N c2 <= 57).
    { unfold is_digit in Hc2. apply andb_true_iff in Hc2.
      rewrite !N.leb_le in Hc2. lia. }
    destruct c as [|p]; [reflexivity|].
    do 6 (destruct p as [p|p|]; try reflexivity).
    destruct c2 as [|p2]; [reflexivity|].
    do 7 (destruct p2 as [p2|p2|]; try reflexivity); exfalso; lia. }
  rewrite Hhex. rewrite (digit_run_digits _ Hd).
  cbn [List.map]. unfold radix_value, digits_value.
  rewrite <- (radix_value_digits (c :: t) 0 Hd). cbn [List.map].
  f_equal. lia.
Qed.

Lemma parse_capture_digits (d : jsstring) :
  digits d -> parse_capture (Some d) = Some (round_double (digits_value d)).
Proof.
  intros Hd. rewrite <- (parseInt_digits d Hd).
  destruct (digits_cons d Hd) as (c & t & -> & _). reflexivity.
Qed.

Lemma or_empty_Some (s : jsstring) : or_empty (Some s) = s.
Proof. now destruct s. Qed.

Lemma infoHash_or_empty imdbId season episode :
  infoHash imdbId season episode
  = infoHash imdbId (Some (or_empty season)) (Some (or_empty episode)).
Proof. unfold infoHash. now rewrite !or_empty_Some. Qed.

Section WithServices.

Variable net : request -> outcome Response.
Variable generateContent : GenerateContent.

(** The season and the episode the handler passes to [getMetadata]. *)
Lemma run_handleRequest_stream_path
    (kind id : jsstring) (tail : option (jsstring * jsstring))
    (post : jsstring) (keys : ApiKeys) :
  stream_parts kind id tail ->
  areKeysSetup keys = true ->
  run (handleRequest net generateContent (stream_path_of kind id tail ++ post)
         true keys)
  = match run (getMetadata net
                 (mkGetParams (kind_type kind) (js "tt" ++ id)
                    (option_map (fun t => round_double (digits_value (fst t))) tail)
                    (option_map (fun t => round_double (digits_value (snd t))) tail)
                    (tmdb keys))) with
    | (Ok (Some metadata), tr) =>
        match GeminiService.generateReview generateContent metadata
                (gemini keys) with
        | Ok [] =>
            (Ok (Some (createErrorStream
                         (js "Could not generate review for this item."))), tr)
        | Ok reviewPoints =>
            (Ok (Some (review_stream (js "tt" ++ id) (option_map fst tail)
                         (option_map snd tail) reviewPoints)), tr)
        | Throw error => (Ok (Some (createErrorStream (shown_message error))), tr)
        end
    | (Ok None, tr) =>
        (Ok (Some (createErrorStream (js "Metadata not found for this item."))), tr)
    | (Throw error, tr) =>
        (Ok (Some (createErrorStream (shown_message error))), tr)
    end.
Proof.
  intros (Hk & Hid & Ht) Hkeys.
  destruct (rmatch_stream_path kind id tail post Hk Hid Ht)
    as (c & Hc & H1 & H2 & H3 & H4).
  assert (Hpath : stream_path_of kind id tail ++ post
                  = js "/stream/" ++ kind ++ js "/" ++ (js "tt" ++ id)
                    ++ match tail with
                       | Some (se, ep) => js ":" ++ se ++ js ":" ++ ep
                       | None => []
                       end ++ js ".json" ++ post).
  { unfold stream_path_of. rewrite <- !app_assoc. reflexivity. }
  unfold run, handleRequest. rewrite Hpath.
  replace (startsWith (js "/stream/") _) with true by reflexivity.
  rewrite Hkeys. cbn [negb].
  rewrite (regex_search_at_start _ _ _ Hc). rewrite H1, H2, H3, H4.
  rewrite !or_empty_Some.
  assert (Hs : parse_capture (match tail with
                              | Some (se, _) => Some se
                              | None => None
                              end)
               = option_map (fun t => round_double (digits_value (fst t))) tail).
  { destruct tail as [[se ep]|]; [|reflexivity].
    destruct Ht as [Hse _]. now rewrite parse_capture_digits. }
  assert (He : parse_capture (match tail with
                              | Some (_, ep) => Some ep
                              | None => None
                              end)
               = option_map (fun t => round_double (digits_value (snd t))) tail).
  { destruct tail as [[se ep]|]; [|reflexivity].
    destruct Ht as [_ Hep]. now rewrite parse_capture_digits. }
  rewrite Hs, He.
  replace (match tail with Some (se, _) => Some se | None => None end)
    with (option_map fst tail) by (now destruct tail as [[? ?]|]).
  replace (match tail with Some (_, ep) => Some ep | None => None end)
    with (option_map snd tail) by (now destruct tail as [[? ?]|]).
  unfold try_catch, mbind, async_bind, bind, lift, ret, kind_type.
  destruct (getMetadata _ _ []) as [[[md|]|e] tr]; cbv beta iota;
    try reflexivity.
  destruct (GeminiService.generateReview _ _ _) as [[|p ps]|e]; reflexivity.
Qed.

(** X18.  A well-formed stream path, with the credentials set, is looked up
    with the season and the episode that are the numbers nearest to the
    decimal values of the path's digits (the values themselves up to
    2^53).  When the title is found and a review of at least one line is
    returned, the answer is the one descriptor that carries the lines
    joined by line feeds, the stream identifier of the path's parts and
    the not-playable mark, after the requests of the lookup and no
    other. *)
Theorem handleRequest_review_stream
    (kind id : jsstring) (tail : option (jsstring * jsstring))
    (post : jsstring) (keys : ApiKeys)
    (metadata : MediaMetadata) (tr : list request)
    (line : jsstring) (lines : list jsstring) :
  stream_parts kind id tail ->
  areKeysSetup keys = true ->
  run (getMetadata net
         (mkGetParams (kind_type kind) (js "tt" ++ id)
            (option_map (fun t => round_double (digits_value (fst t))) tail)
            (option_map (fun t => round_double (digits_value (snd t))) tail)
            (tmdb keys))) = (Ok (Some metadata), tr) ->
  GeminiService.generateReview generateContent metadata (gemini keys)
  = Ok (line :: lines) ->
  run (handleRequest net generateContent (stream_path_of kind id tail ++ post)
         true keys)
  = (Ok (Some (mkStreams
                 [mkStream (js "Gemini Review " ++ [10024%N])
                    (join [10%N] (line :: lines))
                    (Some (infoHash (js "tt" ++ id) (option_map fst tail)
                             (option_map snd tail)))
                    true])), tr).
Proof.
  intros Hp Hkeys Hm Hg.
  rewrite (run_handleRequest_stream_path _ _ _ _ _ Hp Hkeys), Hm, Hg.
  reflexivity.
Qed.

(** X19.  When the lookup or the review fails on a well-formed stream path,
    the handler answers with one error descriptor: it shows the message
    of a classified error as it is, and the fixed text for any other
    fault, of the lookup or of the review.  An empty review is reported
    by its own message. *)
Theorem handleRequest_failure_message
    (kind id : jsstring) (tail : option (jsstring * jsstring))
    (post : jsstring) (keys : ApiKeys) :
  stream_parts kind id tail ->
  areKeysSetup keys = true ->
  let lookup :=
    run (getMetadata net
           (mkGetParams (kind_type kind) (js "tt" ++ id)
              (option_map (fun t => round_double (digits_value (fst t))) tail)
              (option_map (fun t => round_double (digits_value (snd t))) tail)
              (tmdb keys))) in
  let answer :=
    run (handleRequest net generateContent (stream_path_of kind id tail ++ post)
           true keys) in
  (forall error tr,
     lookup = (Throw error, tr) ->
     answer = (Ok (Some (createErrorStream
                           (if instanceof_ApiError error then message error
                            else js "An unknown error occurred."))), tr))
  /\ (forall metadata tr error,
        lookup = (Ok (Some metadata), tr) ->
        GeminiService.generateReview generateContent metadata (gemini keys)
        = Throw error ->
        answer = (Ok (Some (createErrorStream
                              (if instanceof_ApiError error then message error
                               else js "An unknown error occurred."))), tr))
  /\ (forall metadata tr,
        lookup = (Ok (Some metadata), tr) ->
        GeminiService.generateReview generateContent metadata (gemini keys)
        = Ok [] ->
        answer = (Ok (Some (createErrorStream
                              (js "Could not generate review for this item."))),
                  tr)).
Proof.
  intros Hp Hkeys lookup answer. subst lookup answer.
  rewrite (run_handleRequest_stream_path _ _ _ _ _ Hp Hkeys).
  split; [|split].
  - intros error tr ->. reflexivity.
  - intros metadata tr error -> Hg. rewrite Hg. reflexivity.
  - intros metadata tr -> ->. reflexivity.
Qed.

End WithServices.

End StremioMore.

(** ** The failures of the review *)

Module GeminiMore.
Import GeminiService Vocabulary Samples.

(** X17.  When the model's client answers the call, [generateReview] gives
    the review or fails with one of three errors, each an instance of
    ApiError: the safety error when the answer has no candidate, the
    fixed generic error when it has a candidate and no text, and the
    error for an invalid array when its text holds no array of strings.
    The words the catch block looks for in the text of a fault are in
    none of the errors the try block throws itself. *)
Theorem generateReview_errors_are_classified
    (generateContent : GenerateContent) (metadata : MediaMetadata)
    (geminiApiKey : jsstring) (response : GenerateContentResponse) :
  geminiApiKey <> [] ->
  generateContent geminiApiKey (ReviewPrompt metadata) = Ok response ->
  (exists reviewPoints,
     generateReview generateContent metadata geminiApiKey = Ok reviewPoints)
  \/ (exists error,
        generateReview generateContent metadata geminiApiKey = Throw error
        /\ instanceof_ApiError error = true
        /\ ((no_candidates response = true /\ error = blocked_error)
            \/ (no_candidates response = false /\ text response = None
                /\ error = new_ApiError
                             (js "An unexpected error occurred while generating the review."))
            \/ (no_candidates response = false
                /\ (exists t, text response = Some t
                     /\ forall l : list jsstring,
                          extractJsonArray (trim t) <> Some (List.map VStr l))
                /\ error = invalid_array_error))).
Proof.
  intros Hk Hc. destruct geminiApiKey as [|c key]; [congruence|].
  rewrite GeminiFacts.generateReview_nonempty_key.
  destruct (no_candidates response) eqn:Hn.
  { right. exists blocked_error.
    rewrite (GeminiFacts.generateReview_try_blocked _ _ _ _ Hc Hn).
    rewrite GeminiFacts.catch_blocked. auto. }
  destruct (text response) as [t|] eqn:Ht.
  - rewrite (GeminiFacts.generateReview_try_answered _ _ _ _ _ Hc Hn Ht).
    assert (Hbad : (forall l : list jsstring,
                      extractJsonArray (trim t) <> Some (List.map VStr l)) ->
                   exists error,
                     Throw (generateReview_catch invalid_array_error)
                     = @Throw (list jsstring) error
                     /\ instanceof_ApiError error = true
                     /\ ((false = true /\ error = blocked_error)
                         \/ (false = false /\ Some t = None
                             /\ error = new_ApiError
                                          (js "An unexpected error occurred while generating the review."))
                         \/ (false = false
                             /\ (exists t0, Some t = Some t0
                                  /\ forall l : list jsstring,
                                       extractJsonArray (trim t0)
                                       <> Some (List.map VStr l))
                             /\ error = invalid_array_error))).
    { intros Hno. exists invalid_array_error.
      rewrite GeminiFacts.catch_invalid_array.
      split; [reflexivity|]. split; [reflexivity|]. right; right.
      split; [reflexivity|]. split; [|reflexivity]. exists t. auto. }
    destruct (extractJsonArray (trim t)) as [arr|] eqn:He.
    + destruct (forallb is_string arr) eqn:Hs; [left; eauto|].
      right. apply Hbad. intros l [= ->].
      rewrite (proj1 (GeminiFacts.map_VStr_strings l)) in Hs. discriminate.
    + right. apply Hbad. discriminate.
  - right. eexists. unfold generateReview_try. rewrite Hc.
    unfold mbind, outcome_bind. cbn [obind]. rewrite Hn, Ht. cbn [obind].
    split; [reflexivity|]. split; [vm_compute; reflexivity|].
    right; left. split; [reflexivity|]. split; [reflexivity|].
    vm_compute. reflexivity.
Qed.

Lemma generateReview_errors_are_classified_witness :
  exists error,
    generateReview (fun _ _ => Ok (mkGenResponse (Some [VObj []]) None))
      matrix_metadata (js "k3") = Throw error
    /\ instanceof_ApiError error = true.
Proof.
  assert (Hk : js "k3" <> []) by discriminate.
  destruct (generateReview_errors_are_classified
              (fun _ _ => Ok (mkGenResponse (Some [VObj []]) None))
              matrix_metadata (js "k3") (mkGenResponse (Some [VObj []]) None)
              Hk eq_refl) as [[l H] | (error & H & Hi & _)].
  - vm_compute in H. discriminate.
  - exists error. split; assumption.
Defined.

End GeminiMore.

(** ** Edge cases of the stream handler *)

Module StremioEdge.
Import StremioHandler Vocabulary Samples StreamPaths StremioMore.
Import MetadataService MetadataFacts MetadataMore.

(** X21.  The stream identifier is computed from the identifier, the season
    and the episode written one after the other, so two requests whose
    season and episode digits run together to the same text share it:
    season 1 episode 11 and season 11 episode 1 do. *)
Theorem infoHash_of_concatenation
    (imdbId season episode season' episode' : jsstring) :
  season ++ episode = season' ++ episode' ->
  infoHash imdbId (Some season) (Some episode)
  = infoHash imdbId (Some season') (Some episode').
Proof.
  intros H. unfold infoHash. rewrite !or_empty_Some. now rewrite H.
Qed.

Lemma infoHash_of_concatenation_witness :
  infoHash (js "tt0944947") (Some (js "1")) (Some (js "11"))
  = infoHash (js "tt0944947") (Some (js "11")) (Some (js "1")).
Proof.
  apply (infoHash_of_concatenation (js "tt0944947") (js "1") (js "11")
           (js "11") (js "1")).
  reflexivity.
Defined.

Section WithServices.

Variable net : request -> outcome Response.
Variable generateContent : GenerateContent.

(** X20.  A series path whose season or episode is zero is answered from the
    series-level record: the identifier lookup is the only request, and
    the review is the one of the series, under the stream identifier of
    the season and episode of the path. *)
Theorem handleRequest_zero_season_or_episode
    (id season episode post : jsstring) (keys : ApiKeys)
    (metadata : MediaMetadata) (tr : list request)
    (line : jsstring) (lines : list jsstring) :
  stream_parts (js "series") id (Some (season, episode)) ->
  areKeysSetup keys = true ->
  digits_value season = 0 \/ digits_value episode = 0 ->
  run (getMetadata net
         (mkGetParams Series (js "tt" ++ id) None None (tmdb keys)))
  = (Ok (Some metadata), tr) ->
  GeminiService.generateReview generateContent metadata (gemini keys)
  = Ok (line :: lines) ->
  run (handleRequest net generateContent
         (stream_path_of (js "series") id (Some (season, episode)) ++ post)
         true keys)
  = (Ok (Some (review_stream (js "tt" ++ id) (Some season) (Some episode)
                 (line :: lines))),
     [FindByImdbId (js "tt" ++ id) (tmdb keys)]).
Proof.
  intros Hp Hkeys Hz Hm Hg.
  rewrite (run_handleRequest_stream_path _ _ _ _ _ _ _ Hp Hkeys).
  cbn [option_map fst snd]. change (kind_type (js "series")) with Series.
  rewrite getMetadata_falsy_season.
  2:{ destruct Hz as [-> | ->]; [left|right]; reflexivity. }
  assert (Htr : tr = [FindByImdbId (js "tt" ++ id) (tmdb keys)]).
  { destruct (getMetadata_trace net
                (mkGetParams Series (js "tt" ++ id) None None (tmdb keys)))
      as [H | (i & s & e & _ & Hs & _)]; [|discriminate].
    rewrite Hm in H. exact H. }
  rewrite Hm, Hg, Htr. reflexivity.
Qed.

End WithServices.

Lemma handleRequest_zero_season_or_episode_witness :
  exists lines,
    run (handleRequest catalog (answering eight_lines)
           (js "/stream/series/tt0944947:0:5.json") true configured)
    = (Ok (Some (review_stream (js "tt0944947") (Some (js "0")) (Some (js "5"))
                   lines)),
       [FindByImdbId (js "tt0944947") (js "k1")]).
Proof.
  eexists.
  refine (handleRequest_zero_season_or_episode catalog (answering eight_lines)
            (js "0944947") (js "0") (js "5") [] configured _ _ _ _ _ _ _ _ _).
  - split; [now right|]. split; [|split]; split; try discriminate;
      repeat constructor.
  - reflexivity.
  - left. reflexivity.
  - vm_compute. reflexivity.
  - vm_compute. reflexivity.
Defined.

Lemma handleRequest_review_stream_witness :
  exists lines,
    run (handleRequest catalog (answering eight_lines)
           (js "/stream/series/tt0944947:1:2.json") true configured)
    = (Ok (Some (mkStreams
                   [mkStream (js "Gemini Review " ++ [10024%N])
                      (join [10%N] lines)
                      (Some (infoHash (js "tt0944947") (Some (js "1"))
                               (Some (js "2"))))
                      true])),
       [FindByImdbId (js "tt0944947") (js "k1");
        TvEpisode (VNum (Int 1399)) (Int 1) (Int 2) (js "k1")]).
Proof.
  eexists.
  refine (handleRequest_review_stream catalog (answering eight_lines)
            (js "series") (js "0944947") (Some (js "1", js "2")) [] configured
            _ _ _ _ _ _ _ _).
  - split; [now right|]. split; [|split]; split; try discriminate;
      repeat constructor.
  - reflexivity.
  - vm_compute. reflexivity.
  - vm_compute. reflexivity.
Defined.

Lemma handleRequest_failure_message_witness :
  run (handleRequest offline (answering eight_lines)
         (js "/stream/movie/tt0133093.json") true configured)
  = (Ok (Some (createErrorStream (js "An unknown error occurred."))),
     [FindByImdbId (js "tt0133093") (js "k1")]).
Proof.
  refine (proj1 (handleRequest_failure_message offline (answering eight_lines)
                   (js "movie") (js "0133093") None [] configured _ _)
            (new_TypeError (js "Failed to fetch"))
            [FindByImdbId (js "tt0133093") (js "k1")] _).
  - split; [now left|]. split; [|exact I]. split; try discriminate;
      repeat constructor.
  - reflexivity.
  - vm_compute. reflexivity.
Defined.

End StremioEdge.

(** ** The credentials a successful save leaves *)

Module ConfigureMore.
Import ConfigurePage Vocabulary Samples.

(** X24.  When the save handler shows the success mark, the hook holds the
    three fields with the white space around them removed, and these
    credentials count as set up. *)
Theorem handleSaveAndTest_success_is_set_up
    (net : request -> outcome Response) (generateContent : GenerateContent)
    (p : Page) (h : Hook) :
  showSuccess (fst (handleSaveAndTest net generateContent p h)) = true ->
  keys (snd (handleSaveAndTest net generateContent p h)) = entered p
  /\ areKeysSetup (keys (snd (handleSaveAndTest net generateContent p h))) = true.
Proof.
  unfold handleSaveAndTest.
  destruct (ApiKeyService.testTmdbKey net (trim (tmdbKey p))) eqn:H1;
    [|discriminate].
  destruct (ApiKeyService.testTvdbKey net (trim (tvdbKey p))) eqn:H2;
    [|discriminate].
  destruct (ApiKeyService.testGeminiKey generateContent (trim (geminiKey p)))
    eqn:H3; [|discriminate].
  cbn [andb]. unfold saveKeys.
  destruct (setItem _ _ _); cbn [fst snd showSuccess keys]; [|discriminate].
  intros _. split; [reflexivity|].
  unfold areKeysSetup, nonempty. cbn [tmdb tvdb gemini].
  unfold ApiKeyService.testTmdbKey in H1.
  unfold ApiKeyService.testTvdbKey in H2.
  unfold ApiKeyService.testGeminiKey in H3.
  destruct (trim (trim (tmdbKey p))); [discriminate|].
  destruct (trim (trim (tvdbKey p))); [discriminate|].
  destruct (trim (trim (geminiKey p))); [discriminate|].
  reflexivity.
Qed.

Lemma handleSaveAndTest_success_is_set_up_witness :
  keys (snd (handleSaveAndTest catalog blocked_model filled_page fresh_hook))
  = mkApiKeys (js "k1") (js "k2") (js "k3").
Proof.
  apply (handleSaveAndTest_success_is_set_up catalog blocked_model
           filled_page fresh_hook).
  vm_compute. reflexivity.
Defined.

End ConfigureMore.

(** ** The comparison with zero, by example *)

Module ComparisonExamples.
Import Comparison.

Example gt_zero_numbers :
  List.map gt_zero
    [VNum (Int 3); VNum (Int 0); VNum (Int (-2)); VNum NaN;
     VNum (Lit (js "0.5")); VNum (Lit (js "-0.5")); VNum (Lit (js "0e5"));
     VNum (Lit (js "1e-400")); VNum (Lit (js "5e-324"))]
  = [Ok true; Ok false; Ok false; Ok false;
     Ok true; Ok false; Ok false; Ok false; Ok true].
Proof. vm_compute. reflexivity. Qed.

Example gt_zero_texts :
  List.map (fun s => gt_zero (VStr (js s)))
    ["1"; " 12 "; ""; "-1"; "+.5"; "5."; "1e3"; "0x1F"; "0x"; "0b10"; "0o0";
     "Infinity"; "-Infinity"; "infinity"; "1,5"; "12px"; "+0x10"]%string
  = [Ok true; Ok true; Ok false; Ok false; Ok true; Ok true; Ok true; Ok true;
     Ok false; Ok true; Ok false; Ok true; Ok false; Ok false; Ok false;
     Ok false; Ok false].
Proof. vm_compute. reflexivity. Qed.

Example gt_zero_others :
  List.map gt_zero
    [VUndefined; VNull; VBool true; VBool false; VArr []; VArr [VNum (Int 5)];
     VArr [VArr [VStr (js "7")]]; VArr [VNum (Int 1); VNum (Int 2)];
     VArr [VBool true]; VObj []; VObj [(js "valueOf", VNum (Int 5))]]
  = [Ok false; Ok false; Ok true; Ok false; Ok false; Ok true;
     Ok true; Ok false; Ok false; Ok false; Ok false].
Proof. vm_compute. reflexivity. Qed.

Example gt_zero_throws :
  gt_zero (VArr [VNum (Int 1); VObj [(js "toString", VNum (Int 1))]])
  = Throw (new_TypeError (js "Cannot convert object to primitive value")).
Proof. vm_compute. reflexivity. Qed.

End ComparisonExamples.

(** ** The identifier pattern of the test ground, by example *)

Module TestGroundExamples.
Import TestGround.

Example imdbIdRegex_test_examples :
  List.map (fun s => imdbIdRegex_test (js s))
    ["tt1234567"; "tt12345678"; "tt123456"; "tt1234567 "; "xtt1234567";
     "tt12345a7"; "TT1234567"; ""]%string
  = [true; true; false; false; false; false; false; false].
Proof. vm_compute. reflexivity. Qed.

End TestGroundExamples.

(** ** The details of a series *)

Module SeriesDetailsFacts.
Import Comparison MetadataService SeriesDetails Vocabulary MetadataFacts.
Import TestGroundVocabulary Samples.

Lemma numbered_integer_seasons (l : list value) :
  Forall integer_season l ->
  numbered l = Ok (List.filter regular_season l).
Proof.
  induction 1 as [|s l (m & z & -> & Hn) _ IH]; [reflexivity|].
  cbn [numbered List.filter get obind]. rewrite Hn, IH. cbn [obind].
  unfold regular_season, field. cbn [get]. rewrite Hn.
  unfold gt_zero. cbn [unprintable printed_positive number_positive].
  reflexivity.
Qed.

Lemma map_season_of (l : list value) :
  Forall integer_season l ->
  map_outcome season_of l = Ok (List.map season_fields l).
Proof.
  induction 1 as [|s l (m & z & -> & Hn) _ IH]; [reflexivity|].
  cbn [map_outcome List.map]. rewrite IH. reflexivity.
Qed.

Lemma Forall_filter_keeps {A} (P : A -> Prop) (f : A -> bool) (l : list A) :
  Forall P l -> Forall P (List.filter f l).
Proof.
  induction 1 as [|a l Ha _ IH]; cbn [List.filter]; [constructor|].
  destruct (f a); [constructor|]; assumption.
Qed.

(** X25.  When the response lists seasons whose numbers are integers, the
    details hold the seasons whose number is greater than zero, in the
    order of the response and with the number, the episode count and the
    name of each; the specials, numbered 0, are left out.  The details
    are got with one request. *)
Theorem getSeriesDetails_regular_seasons
    (tvDetails : value -> jsstring -> outcome Response)
    (tmdbId : value) (apiKey : jsstring)
    (response : Response) (data imdbId : value) (l : list value) :
  tvDetails tmdbId apiKey = Ok response ->
  handleApiResponse response (js "TMDB") = Ok data ->
  get (js "seasons") data = Ok (VArr l) ->
  Forall integer_season l ->
  external_imdb_id data = Ok imdbId ->
  run_flow (getSeriesDetails tvDetails tmdbId apiKey)
  = (Ok (mkDetails (List.map season_fields (List.filter regular_season l))
           imdbId),
     [TvDetails tmdbId apiKey]).
Proof.
  intros Ht Hh Hs Hl Hi.
  unfold run_flow, getSeriesDetails, flow_bind, flow_lift, details_of.
  rewrite Ht, Hh, Hs. cbn [obind app].
  rewrite (numbered_integer_seasons l Hl). cbn [obind].
  rewrite map_season_of by (now apply Forall_filter_keeps). cbn [obind].
  rewrite Hi. reflexivity.
Qed.

End SeriesDetailsFacts.

(** ** The traces of the services *)

Module TraceFacts.
Import MetadataService Traces MetadataFacts StremioHandler.

Lemma appends_ret {A} (a : A) : appends (ret a).
Proof. intros tr. unfold ret. cbn. now rewrite app_nil_r. Qed.

Lemma appends_lift {A} (x : outcome A) : appends (lift x).
Proof. intros tr. unfold lift. cbn. now rewrite app_nil_r. Qed.

Lemma appends_throw {A} (e : js_error) : appends (@throw A e).
Proof. apply appends_lift. Qed.

Lemma appends_fetch net (req : request) : appends (fetchViaProxy net req).
Proof. intros tr. reflexivity. Qed.

Lemma appends_bind {A B} (m : Async A) (f : A -> Async B) :
  appends m -> (forall a, appends (f a)) -> appends (bind m f).
Proof.
  intros Hm Hf tr. unfold bind. rewrite (Hm tr).
  destruct (m []) as [[a|e] tr1]; cbn [fst snd].
  - rewrite (Hf a (tr ++ tr1)), (Hf a tr1). cbn [fst snd].
    now rewrite app_assoc.
  - reflexivity.
Qed.

Lemma appends_mbind {A B} (m : Async A) (f : A -> Async B) :
  appends m -> (forall a, appends (f a)) -> appends (mbind f m).
Proof. apply appends_bind. Qed.

Lemma appends_Promise_all2 {A B} (p1 : Async A) (p2 : Async B) :
  appends p1 -> appends p2 -> appends (Promise_all2 p1 p2).
Proof.
  intros H1 H2 tr. unfold Promise_all2. rewrite (H1 tr).
  destruct (p1 []) as [x tr1]; cbn [fst snd].
  rewrite (H2 (tr ++ tr1)), (H2 tr1).
  destruct (p2 []) as [y tr2]; cbn [fst snd]. now rewrite app_assoc.
Qed.

Lemma appends_Promise_all {A} (ps : list (Async A)) :
  Forall appends ps -> appends (Promise_all ps).
Proof.
  induction 1 as [|p ps Hp _ IH]; intros tr; cbn [Promise_all].
  - cbn. now rewrite app_nil_r.
  - rewrite (Hp tr). destruct (p []) as [x tr1]; cbn [fst snd].
    rewrite (IH (tr ++ tr1)), (IH tr1).
    destruct (Promise_all ps []) as [xs tr2]; cbn [fst snd].
    now rewrite app_assoc.
Qed.

Lemma appends_try_catch {A} (body : Async A) (handler : js_error -> Async A) :
  appends body -> (forall e, appends (handler e)) ->
  appends (try_catch body handler).
Proof.
  intros Hb Hh tr. unfold try_catch. rewrite (Hb tr).
  destruct (body []) as [[a|e] tr1]; cbn [fst snd]; [reflexivity|].
  rewrite (Hh e (tr ++ tr1)), (Hh e tr1). cbn [fst snd]. now rewrite app_assoc.
Qed.

Ltac appends_step :=
  first
    [ apply appends_ret | apply appends_lift | apply appends_throw
    | apply appends_fetch
    | apply appends_mbind; [|intros ?]
    | apply appends_bind; [|intros ?]
    | apply appends_Promise_all2
    | match goal with
      | |- appends (match ?x with _ => _ end) => destruct x
      | |- appends (if ?x then _ else _) => destruct x
      | |- appends (let '(_, _) := ?x in _) => destruct x
      end ].

Lemma appends_getMetadata net params : appends (getMetadata net params).
Proof.
  destruct params as [type imdbId season episode apiKey].
  unfold getMetadata. repeat appends_step.
Qed.

Lemma appends_getMovieDetails net movieId apiKey :
  appends (getMovieDetails net movieId apiKey).
Proof. unfold getMovieDetails. repeat appends_step. Qed.

Lemma appends_movie_candidate net apiKey result :
  appends (movie_candidate net apiKey result).
Proof.
  unfold movie_candidate.
  apply appends_mbind; [apply appends_lift|intros id].
  apply appends_mbind; [apply appends_getMovieDetails|intros [cast country]].
  repeat appends_step.
Qed.

Lemma appends_searchByTitle net params : appends (searchByTitle net params).
Proof.
  destruct params as [title type apiKey]. unfold searchByTitle.
  apply appends_mbind; [apply appends_fetch|intros response].
  apply appends_mbind; [apply appends_lift|intros data].
  apply appends_mbind; [apply appends_lift|intros results].
  destruct (negb (truthy results)); [apply appends_ret|].
  apply appends_mbind; [apply appends_lift|intros len].
  destruct (is_zero len); [apply appends_ret|].
  apply appends_mbind; [apply appends_lift|intros _].
  destruct results; try apply appends_throw.
  destruct type; [|apply appends_lift].
  apply appends_Promise_all. apply Forall_map, Forall_forall.
  intros result _. apply appends_movie_candidate.
Qed.

End TraceFacts.

(** ** The test ground *)

Module TestGroundFacts.
Import MetadataService GeminiService SeriesDetails TestGround.
Import Traces TraceFacts MetadataFacts MetadataMore.
Import TestGroundVocabulary Samples MoreSamples TestSamples.

Section WithServices.

Variable net : request -> outcome Response.
Variable tvDetails : value -> jsstring -> outcome Response.
Variable generateContent : GenerateContent.
Variable keys : ApiKeys.

Lemma interpolate_one (v : value) :
  interpolate [v] = if unprintable v then Throw cannot_convert else Ok tt.
Proof. unfold interpolate. cbn [existsb]. now rewrite orb_false_r. Qed.

(** The review step issues no request of the catalog: it fails when the
    title cannot be written, or with the error of [generateReview], or
    shows the review, or reports an empty one. *)
Lemma performReviewGeneration_cases metadata st tr :
  performReviewGeneration generateContent keys metadata st tr
  = (if unprintable (title metadata) then Throw cannot_convert
     else
       match generateReview generateContent metadata (gemini keys) with
       | Ok [] =>
           Ok (setError
                 (js "Failed to generate a review. The AI might be busy or the content is too new.")
                 st)
       | Ok reviewPoints => Ok (setReview reviewPoints st)
       | Throw e => Throw e
       end, tr).
Proof.
  unfold performReviewGeneration, flow_bind, flow_lift, flow_ret.
  rewrite interpolate_one. destruct (unprintable (title metadata)); [reflexivity|].
  destruct (generateReview _ _ _) as [[|p ps]|e]; reflexivity.
Qed.

Lemma guarded_cases (body : Flow State) st tr :
  guarded body st tr
  = (Ok (setIsLoading false
           match fst (body tr) with
           | Ok st' => st'
           | Throw err => handleGenericError err st
           end), snd (body tr)).
Proof. unfold guarded. destruct (body tr) as [[st'|e] tr']; reflexivity. Qed.

(** What a selection comes to. *)
Lemma handleSelectResult_cases metadata st tr :
  handleSelectResult tvDetails generateContent keys metadata st tr
  = if unprintable (title metadata) then (Throw cannot_convert, tr)
    else
    match Types.type metadata with
    | Movie =>
        (Ok (setIsLoading false
               match generateReview generateContent metadata (gemini keys) with
               | Ok [] =>
                   setError
                     (js "Failed to generate a review. The AI might be busy or the content is too new.")
                     (selecting st)
               | Ok reviewPoints => setReview reviewPoints (selecting st)
               | Throw e => handleGenericError e (selecting st)
               end), tr)
    | Series =>
        match tmdbId metadata with
        | Some id =>
            if truthy id then
              (Ok (setIsLoading false
                     match fst (run_flow (getSeriesDetails tvDetails id
                                            (tmdb keys))) with
                     | Ok details =>
                         mkState (query st) (type st) true None None None
                           (Some (mkSelected metadata (seasons details)
                                    (details_imdbId details)))
                           [] []
                     | Throw e => handleGenericError e (selecting st)
                     end), tr ++ [TvDetails id (tmdb keys)])
            else
              (Ok (setIsLoading false
                     (setError
                        (js "Series is missing a TMDB ID for detail lookup.")
                        (selecting st))), tr)
        | None =>
            (Ok (setIsLoading false
                   (setError (js "Series is missing a TMDB ID for detail lookup.")
                      (selecting st))), tr)
        end
    end.
Proof.
  unfold handleSelectResult. unfold flow_bind at 1. unfold flow_lift at 1.
  rewrite interpolate_one.
  destruct (unprintable (title metadata)) eqn:Hp; [reflexivity|].
  rewrite guarded_cases. fold (selecting st).
  destruct (Types.type metadata).
  - rewrite performReviewGeneration_cases, Hp. cbn [fst snd].
    destruct (generateReview _ _ _) as [[|p ps]|e]; reflexivity.
  - destruct (tmdbId metadata) as [id|]; [|reflexivity].
    destruct (truthy id); [|reflexivity].
    unfold run_flow, getSeriesDetails, flow_bind, flow_lift, flow_ret.
    cbn [app].
    destruct (tvDetails id (tmdb keys)) as [response|e]; [|reflexivity].
    destruct (handleApiResponse response (js "TMDB")) as [data|e];
      [|reflexivity].
    destruct (details_of data); reflexivity.
Qed.

(** The requests of a selection: none, or the one for the details of
    the series. *)
Lemma handleSelectResult_requests metadata st tr :
  snd (handleSelectResult tvDetails generateContent keys metadata st tr) = tr
  \/ exists id,
       tmdbId metadata = Some id
       /\ snd (handleSelectResult tvDetails generateContent keys metadata st tr)
          = tr ++ [TvDetails id (tmdb keys)].
Proof.
  rewrite handleSelectResult_cases.
  destruct (unprintable (title metadata)); [now left|].
  destruct (Types.type metadata); [now left|].
  destruct (tmdbId metadata) as [id|]; [|now left].
  destruct (truthy id); [|now left].
  right. exists id. auto.
Qed.

(** A submission that is not ignored runs its body under the handler of
    faults. *)
Lemma handleSubmit_guarded st :
  trim (query st) <> [] -> isLoading st = false ->
  run_flow (handleSubmit net tvDetails generateContent keys st)
  = guarded
      (if imdbIdRegex_test (trim (query st)) then
         flow_bind
           (of_async
              (getMetadata net
                 (mkGetParams (type st) (trim (query st)) None None (tmdb keys))))
           (fun metadata =>
              match metadata with
              | None =>
                  flow_ret
                    (setError
                       (js "Could not find a " ++ type_text (type st)
                          ++ js " with IMDb ID: " ++ trim (query st))
                       (submitted st))
              | Some metadata =>
                  match type st with
                  | Movie =>
                      performReviewGeneration generateContent keys metadata
                        (submitted st)
                  | Series =>
                      handleSelectResult tvDetails generateContent keys
                        metadata (submitted st)
                  end
              end)
       else
         flow_bind
           (of_async
              (searchByTitle net
                 (mkSearchParams (trim (query st)) (type st) (tmdb keys))))
           (fun results =>
              match results with
              | [] =>
                  flow_ret
                    (setError
                       (js "Could not find any matching results. Try being more specific!")
                       (submitted st))
              | [result] =>
                  flow_bind (flow_lift (interpolate [title result]))
                    (fun _ =>
                       handleSelectResult tvDetails generateContent keys
                         result (submitted st))
              | _ => flow_ret (setSearchResults (Some results) (submitted st))
              end))
      (submitted st) [].
Proof.
  intros Hq Hl. unfold run_flow, handleSubmit. rewrite Hl.
  destruct (trim (query st)) as [|c q0] eqn:Eq; [contradiction|]. reflexivity.
Qed.

(** The requests of a selection after a trace: none, or the one for the
    details of a series. *)
Lemma select_one_more metadata st (tr : list fetched) :
  exists details,
    snd (handleSelectResult tvDetails generateContent keys metadata st tr)
    = tr ++ details
    /\ (details = [] \/ exists id, details = [TvDetails id (tmdb keys)]).
Proof.
  destruct (handleSelectResult_requests metadata st tr) as [H | (id & _ & H)];
    rewrite H.
  - exists []. rewrite app_nil_r. auto.
  - eexists. split; [reflexivity|]. right. eauto.
Qed.

(** X26.  A submission with a blank query, or while another one is loading,
    does nothing.  Any other submission issues the requests of one call
    of the service it is routed to (the lookup, and so the one
    identifier request, when the trimmed query is tt followed by seven
    or more digits, and the title search otherwise), and after them at
    most one more request, for the details of a series. *)
Theorem handleSubmit_routes (st : State) :
  (trim (query st) = [] \/ isLoading st = true ->
   run_flow (handleSubmit net tvDetails generateContent keys st) = (Ok st, []))
  /\ (trim (query st) <> [] -> isLoading st = false ->
      exists details,
        snd (run_flow (handleSubmit net tvDetails generateContent keys st))
        = List.map Catalog
            (if imdbIdRegex_test (trim (query st)) then
               [FindByImdbId (trim (query st)) (tmdb keys)]
             else
               snd (run (searchByTitle net
                           (mkSearchParams (trim (query st)) (type st)
                              (tmdb keys)))))
          ++ details
        /\ (details = []
            \/ exists id, details = [TvDetails id (tmdb keys)])).
Proof.
  split.
  - intros H. unfold run_flow, handleSubmit.
    destruct (trim (query st)) as [|c q0]; [reflexivity|].
    destruct H as [H|H]; [discriminate|]. rewrite H. reflexivity.
  - intros Hq Hl. rewrite (handleSubmit_guarded st Hq Hl), guarded_cases.
    cbn [snd].
    assert (Hnone : forall tr : list request,
              exists details,
                List.map Catalog tr = List.map Catalog tr ++ details
                /\ (details = []
                    \/ exists id, details = [TvDetails id (tmdb keys)])).
    { intros tr. exists []. rewrite app_nil_r. auto. }
    destruct (imdbIdRegex_test (trim (query st))).
    + pose proof (getMetadata_trace net
                    (mkGetParams (type st) (trim (query st)) None None (tmdb keys)))
        as [H | (i & s & e & _ & Hs & _)]; [|discriminate].
      cbn [gp_imdbId gp_apiKey] in H. rewrite <- H.
      unfold flow_bind, of_async.
      destruct (run (getMetadata net _)) as [[[metadata|]|e] tr];
        cbn [snd app]; try apply Hnone.
      destruct (type st); [|apply select_one_more].
      rewrite performReviewGeneration_cases. apply Hnone.
    + unfold flow_bind, of_async.
      destruct (run (searchByTitle net _)) as [[[|r1 [|r2 rs]]|e] tr];
        cbn [snd app]; try apply Hnone.
      unfold flow_lift. rewrite interpolate_one.
      destruct (unprintable (title r1)); [apply Hnone|apply select_one_more].
Qed.

(** The state after a fault caught by a handler that started from a
    state with nothing to show. *)
Lemma caught_settled (e : js_error) (st : State) :
  review st = None -> searchResults st = None -> selectedSeries st = None ->
  settled (setIsLoading false (handleGenericError e st)).
Proof.
  intros H1 H2 H3. split; [reflexivity|]. left. exists (message e). cbn. auto.
Qed.

Lemma setIsLoading_settled (st : State) :
  settled st -> settled (setIsLoading false st).
Proof. intros [_ H]. split; [reflexivity|exact H]. Qed.

(** A selection is rejected because the title cannot be written, or
    comes to its end with one thing to show. *)
Lemma handleSelectResult_settles metadata st tr :
  selectedSeries st = None ->
  (exists tr',
     handleSelectResult tvDetails generateContent keys metadata st tr
     = (Throw cannot_convert, tr'))
  \/ (exists st' tr',
        handleSelectResult tvDetails generateContent keys metadata st tr
        = (Ok st', tr')
        /\ settled st' /\ query st' = query st /\ type st' = type st).
Proof.
  intros Hs. rewrite handleSelectResult_cases. unfold settled.
  destruct (unprintable (title metadata)); [left; eauto|]. right.
  destruct (Types.type metadata).
  - eexists; eexists. split; [reflexivity|].
    destruct (generateReview _ _ _) as [[|p ps]|e]; cbn; rewrite ?Hs;
      (split; [split; [reflexivity|]|split; reflexivity]); eauto 12.
  - destruct (tmdbId metadata) as [id|];
      [destruct (truthy id);
       [destruct (fst (run_flow (getSeriesDetails tvDetails id (tmdb keys))))
          as [d|e]|]|];
      (eexists; eexists; split; [reflexivity|]);
      cbn; rewrite ?Hs;
      (split; [split; [reflexivity|]|split; reflexivity]); eauto 12.
Qed.

(** X27.  Every submission ends without a fault.  One that is not ignored
    leaves the component not loading, with the query and the kind as
    they were and exactly one thing to show: an error message, a review
    of at least one line, the seasons of a series, or a list of two or
    more results. *)
Theorem handleSubmit_settles (st : State) :
  exists st' tr,
    run_flow (handleSubmit net tvDetails generateContent keys st) = (Ok st', tr)
    /\ query st' = query st /\ type st' = type st
    /\ (trim (query st) <> [] -> isLoading st = false -> settled st').
Proof.
  destruct (trim (query st)) as [|c q0] eqn:Eq.
  { exists st, []. split; [unfold run_flow, handleSubmit; now rewrite Eq|].
    split; [reflexivity|]. split; [reflexivity|]. intros Hc. contradiction. }
  destruct (isLoading st) eqn:El.
  { exists st, []. split; [unfold run_flow, handleSubmit; now rewrite Eq, El|].
    split; [reflexivity|]. split; [reflexivity|]. intros _ Hc. discriminate. }
  assert (Hq : trim (query st) <> []) by (rewrite Eq; discriminate).
  rewrite (handleSubmit_guarded st Hq El), guarded_cases. rewrite Eq.
  eexists; eexists. split; [reflexivity|].
  assert (Hbody : forall r : outcome State * list fetched,
            (forall st', fst r = Ok st' ->
               settled (setIsLoading false st')
               /\ query st' = query st /\ type st' = type st) ->
            query (setIsLoading false
                     match fst r with
                     | Ok st' => st'
                     | Throw err => handleGenericError err (submitted st)
                     end) = query st
            /\ type (setIsLoading false
                       match fst r with
                       | Ok st' => st'
                       | Throw err => handleGenericError err (submitted st)
                       end) = type st
            /\ (c :: q0 <> [] -> false = false ->
                settled (setIsLoading false
                           match fst r with
                           | Ok st' => st'
                           | Throw err => handleGenericError err (submitted st)
                           end))).
  { intros [[st'|e] tr] H; cbn [fst].
    - destruct (H st' eq_refl) as (H1 & H2 & H3). auto.
    - split; [reflexivity|]. split; [reflexivity|]. intros _ _.
      now apply caught_settled. }
  apply Hbody. clear Hbody.
  assert (Hsel : forall metadata (tr : list fetched) st',
            fst (handleSelectResult tvDetails generateContent keys metadata
                   (submitted st) tr) = Ok st' ->
            settled (setIsLoading false st')
            /\ query st' = query st /\ type st' = type st).
  { intros metadata tr st' H.
    destruct (handleSelectResult_settles metadata (submitted st) tr eq_refl)
      as [(tr' & E) | (st'' & tr' & E & H1 & H2 & H3)]; rewrite E in H;
      [discriminate|].
    injection H as <-. split; [now apply setIsLoading_settled|]. auto. }
  assert (Hshow : forall (st0 st' : State),
            settled (setIsLoading false st0) ->
            query st0 = query st -> type st0 = type st ->
            Ok st0 = Ok st' ->
            settled (setIsLoading false st')
            /\ query st' = query st /\ type st' = type st).
  { intros st0 st' H1 H2 H3 [= <-]. auto. }
  destruct (imdbIdRegex_test (c :: q0)).
  - unfold flow_bind, of_async.
    destruct (run (getMetadata net _)) as [[[metadata|]|e] tr]; cbn [fst].
    + destruct (type st) eqn:Et; [|rewrite <- Et in *; apply Hsel].
      rewrite <- Et in *. rewrite performReviewGeneration_cases. cbn [fst].
      destruct (unprintable (title metadata)); [discriminate|].
      destruct (generateReview _ _ _) as [[|p ps]|e]; intros st';
        try discriminate;
        (apply Hshow; [|reflexivity|reflexivity]);
        unfold settled; cbn; (split; [reflexivity|]); eauto 12.
    + intros st'. apply Hshow; [|reflexivity|reflexivity].
      unfold settled. cbn. split; [reflexivity|]. left. eauto.
    + discriminate.
  - unfold flow_bind, of_async.
    destruct (run (searchByTitle net _)) as [[[|r1 [|r2 rs]]|e] tr]; cbn [fst].
    + intros st'. apply Hshow; [|reflexivity|reflexivity].
      unfold settled. cbn. split; [reflexivity|]. left. eauto.
    + unfold flow_lift. rewrite interpolate_one.
      destruct (unprintable (title r1)); [discriminate|apply Hsel].
    + intros st'. apply Hshow; [|reflexivity|reflexivity].
      unfold settled. cbn. split; [reflexivity|]. right; right; right. eauto 8.
    + discriminate.
Qed.

(** X29.  When the lookup or the search fails, the component shows the
    message of the error as it is, whatever the class of the error, and
    nothing else. *)
Theorem handleSubmit_shows_message
    (st : State) (e : js_error) (tr : list request) :
  trim (query st) <> [] -> isLoading st = false ->
  (if imdbIdRegex_test (trim (query st)) then
     run (getMetadata net
            (mkGetParams (type st) (trim (query st)) None None (tmdb keys)))
     = (Throw e, tr)
   else
     run (searchByTitle net
            (mkSearchParams (trim (query st)) (type st) (tmdb keys)))
     = (Throw e, tr)) ->
  run_flow (handleSubmit net tvDetails generateContent keys st)
  = (Ok (mkState (query st) (type st) false (Some (message e)) None None None
           (selectedSeason st) (selectedEpisode st)),
     List.map Catalog tr).
Proof.
  intros Hq Hl H. rewrite (handleSubmit_guarded st Hq Hl), guarded_cases.
  unfold flow_bind, of_async.
  destruct (imdbIdRegex_test (trim (query st))); rewrite H; reflexivity.
Qed.

(** X30.  Selecting a series.  With a title that cannot be written as text
    the selection is rejected before any state is set and any request
    is made.  Otherwise: without an identifier that counts as true the
    details are not asked for and the fixed error is shown; with one
    that can be written as text, the one request for the details is
    made, and when it gives the details, the series is selected with
    their seasons and external identifier and the season and the
    episode chosen before are cleared; when it fails, the message of
    the error is shown. *)
Theorem handleSelectResult_series
    (metadata : MediaMetadata) (st : State) (tr : list fetched) :
  Types.type metadata = Series ->
  (unprintable (title metadata) = true ->
   handleSelectResult tvDetails generateContent keys metadata st tr
   = (Throw cannot_convert, tr))
  /\ (unprintable (title metadata) = false ->
      (tmdbId metadata = None
       \/ (exists id, tmdbId metadata = Some id /\ truthy id = false) ->
       handleSelectResult tvDetails generateContent keys metadata st tr
       = (Ok (mkState (query st) (type st) false
                (Some (js "Series is missing a TMDB ID for detail lookup."))
                None None (selectedSeries st) (selectedSeason st)
                (selectedEpisode st)), tr))
      /\ (forall id details requests,
            tmdbId metadata = Some id -> truthy id = true ->
            unprintable id = false ->
            run_flow (getSeriesDetails tvDetails id (tmdb keys))
            = (Ok details, requests) ->
            handleSelectResult tvDetails generateContent keys metadata st tr
            = (Ok (mkState (query st) (type st) false None None None
                     (Some (mkSelected metadata (seasons details)
                              (details_imdbId details)))
                     [] []), tr ++ [TvDetails id (tmdb keys)]))
      /\ (forall id e requests,
            tmdbId metadata = Some id -> truthy id = true ->
            unprintable id = false ->
            run_flow (getSeriesDetails tvDetails id (tmdb keys))
            = (Throw e, requests) ->
            handleSelectResult tvDetails generateContent keys metadata st tr
            = (Ok (mkState (query st) (type st) false (Some (message e))
                     None None (selectedSeries st) (selectedSeason st)
                     (selectedEpisode st)), tr ++ [TvDetails id (tmdb keys)]))).
Proof.
  intros Ht. rewrite handleSelectResult_cases, Ht. split.
  - intros ->. reflexivity.
  - intros ->. split; [|split].
    + intros [-> | (id & -> & ->)]; reflexivity.
    + intros id details requests -> -> _ ->. reflexivity.
    + intros id e requests -> -> _ ->. reflexivity.
Qed.

End WithServices.

Lemma getSeriesDetails_regular_seasons_witness :
  run_flow (getSeriesDetails thrones_details (VNum (Int 1399)) (js "k1"))
  = (Ok (mkDetails
           [mkSeason (VNum (Int 1)) (VNum (Int 10)) (VStr (js "Season 1"));
            mkSeason (VNum (Int 2)) (VNum (Int 8)) (VStr (js "Season 2"))]
           (VStr (js "tt0944947"))),
     [TvDetails (VNum (Int 1399)) (js "k1")]).
Proof.
  refine (SeriesDetailsFacts.getSeriesDetails_regular_seasons thrones_details
            (VNum (Int 1399)) (js "k1") (mkResponse 200 tv_body) _
            (VStr (js "tt0944947"))
            [VObj [(js "season_number", VNum (Int 0));
                   (js "episode_count", VNum (Int 3));
                   (js "name", VStr (js "Specials"))];
             VObj [(js "season_number", VNum (Int 1));
                   (js "episode_count", VNum (Int 10));
                   (js "name", VStr (js "Season 1"))];
             VObj [(js "season_number", VNum (Int 2));
                   (js "episode_count", VNum (Int 8));
                   (js "name", VStr (js "Season 2"))]] _ _ _ _ _).
  - reflexivity.
  - vm_compute. reflexivity.
  - vm_compute. reflexivity.
  - repeat constructor; eexists; eexists; split; reflexivity.
  - vm_compute. reflexivity.
Defined.

Lemma handleSubmit_shows_message_witness :
  run_flow (handleSubmit offline thrones_details (answering eight_lines)
              configured (asking (js "tt0133093") Movie))
  = (Ok (mkState (js "tt0133093") Movie false (Some (js "Failed to fetch"))
           None None None [] []),
     [Catalog (FindByImdbId (js "tt0133093") (js "k1"))]).
Proof.
  refine (handleSubmit_shows_message offline thrones_details
            (answering eight_lines) configured
            (asking (js "tt0133093") Movie)
            (new_TypeError (js "Failed to fetch"))
            [FindByImdbId (js "tt0133093") (js "k1")] _ _ _).
  - vm_compute. discriminate.
  - reflexivity.
  - vm_compute. reflexivity.
Defined.

Lemma handleSelectResult_series_witness :
  exists seasons,
    handleSelectResult thrones_details (answering eight_lines) configured
      (mkMedia (Some (VNum (Int 1399))) None (VStr (js "Game of Thrones"))
         (Int 2011) (VStr (js "Noble families fight for the throne.")) Series
         None None None None None)
      (asking (js "thrones") Series) []
    = (Ok (mkState (js "thrones") Series false None None None
             (Some (mkSelected
                      (mkMedia (Some (VNum (Int 1399))) None
                         (VStr (js "Game of Thrones")) (Int 2011)
                         (VStr (js "Noble families fight for the throne."))
                         Series None None None None None)
                      seasons (VStr (js "tt0944947"))))
             [] []), [TvDetails (VNum (Int 1399)) (js "k1")])
    /\ length seasons = 2%nat.
Proof.
  eexists. split.
  - refine (proj1 (proj2 (proj2 (handleSelectResult_series thrones_details
                                   (answering eight_lines) configured _ _ [] _)
                            _))
              (VNum (Int 1399)) (mkDetails _ _) _ _ _ _ _).
    + reflexivity.
    + reflexivity.
    + reflexivity.
    + reflexivity.
    + reflexivity.
    + vm_compute. reflexivity.
  - reflexivity.
Defined.

End TestGroundFacts.
